(** * GradleBuilder.js: a shallow embedding and its specification

    The development follows
    [platforms/android/cordova/lib/builders/GradleBuilder.js].

    JavaScript strings are modelled as lists of code units; the code units
    are those below 256 ([ascii]), which covers every literal of the file.
    The file system is a store from paths to file contents, threaded
    explicitly (directories and permissions are left out), and a JavaScript
    exception is a value of type [exn].  What the module takes from other
    modules ([path.join], the process spawner, the check of the gradle
    installation) is a parameter of the definitions that use it. *)

From Stdlib Require Import Ascii String.
From Stdlib Require Import List Bool Arith Lia NArith Permutation Sorted.
Import ListNotations.

Local Open Scope list_scope.

(* ================================================================== *)
(** * Strings *)

Definition str := list ascii.

Definition lit (s : string) : str := list_ascii_of_string s.

Definition str_eqb (a b : str) : bool :=
  if list_eq_dec ascii_dec a b then true else false.

Definition code (c : ascii) : nat := nat_of_ascii c.

(** [LineTerminator] of the regular-expression grammar: LF and CR (the
    other two, U+2028 and U+2029, lie outside the modelled range). *)
Definition is_line_terminator (c : ascii) : bool :=
  (code c =? 10) || (code c =? 13).

(** The class [\s]: TAB, LF, VT, FF, CR, SP and NBSP. *)
Definition is_space (c : ascii) : bool :=
  ((9 <=? code c) && (code c <=? 13)) || (code c =? 32) || (code c =? 160).

(** The class [\d]. *)
Definition is_digit (c : ascii) : bool :=
  (48 <=? code c) && (code c <=? 57).

Definition digit_val (c : ascii) : nat := code c - 48.

(** [s.startsWith(p)]: [p] is a prefix of [s]. *)
Fixpoint startsWith (p s : str) : bool :=
  match p, s with
  | [], _ => true
  | _ :: _, [] => false
  | a :: p', b :: s' => Ascii.eqb a b && startsWith p' s'
  end.

(** [s.indexOf(p)], with [None] for [-1]. *)
Fixpoint indexOf (p s : str) : option nat :=
  if startsWith p s then Some 0
  else match s with
       | [] => None
       | _ :: r => option_map S (indexOf p r)
       end.

(** [s.lastIndexOf(p)], with [None] for [-1]. *)
Fixpoint lastIndexOf (p s : str) : option nat :=
  match s with
  | [] => if startsWith p [] then Some 0 else None
  | _ :: r =>
      match lastIndexOf p r with
      | Some i => Some (S i)
      | None => if startsWith p s then Some 0 else None
      end
  end.

(** [p] occurs in [s] at offset [i]. *)
Definition occ (p s : str) (i : nat) : Prop := startsWith p (skipn i s) = true.

(* ================================================================== *)
(** * Replacement templates: GetSubstitution *)

(** The result of a successful match: where it starts, the matched text
    and the captures [$1], [$2], ... *)
Record rmatch := mkMatch {
  m_index : nat;
  m_matched : str;
  m_captures : list str
}.

Section GetSubstitution.
Variable s : str.          (* the subject string *)
Variable m : rmatch.       (* the match being replaced *)

Definition capture_or (ref : str) (n : nat) : str :=
  if (1 <=? n) && (n <=? length (m_captures m))
  then nth (n - 1) (m_captures m) []
  else ref.

(** The template language of [String.prototype.replace]: [$$], [$&],
    [$`], [$'], [$n] and [$nn]; a two-digit reference beyond the number
    of captures falls back to its first digit, and any other [$] stands
    for itself (the patterns here have no named groups). *)
Fixpoint getSubstitution (t : str) : str :=
  match t with
  | [] => []
  | c :: r =>
      if Ascii.eqb c "$" then
        match r with
        | [] => [c]
        | d :: r' =>
            if Ascii.eqb d "$" then d :: getSubstitution r'
            else if Ascii.eqb d "`" then firstn (m_index m) s ++ getSubstitution r'
            else if Ascii.eqb d "&" then m_matched m ++ getSubstitution r'
            else if Ascii.eqb d "'" then
              skipn (m_index m + length (m_matched m)) s ++ getSubstitution r'
            else if is_digit d then
              let one := capture_or [c; d] (digit_val d) ++ getSubstitution r' in
              match r' with
              | [] => one
              | e :: r'' =>
                  if is_digit e then
                    let nn := 10 * digit_val d + digit_val e in
                    if nn <=? length (m_captures m)
                    then capture_or [c; d; e] nn ++ getSubstitution r''
                    else one
                  else one
              end
            else c :: getSubstitution r
        end
      else c :: getSubstitution r
  end.
End GetSubstitution.

(** [s.replace(re, template)] for a regular expression without the [g]
    flag, given the function [exec] that the expression computes. *)
Definition regexReplace (exec : str -> option rmatch) (template s : str) : str :=
  match exec s with
  | None => s
  | Some m =>
      firstn (m_index m) s ++ getSubstitution s m template
        ++ skipn (m_index m + length (m_matched m)) s
  end.

(** [s.replace(pat, template)] for a string pattern: the first occurrence. *)
Definition exec_string (pat s : str) : option rmatch :=
  match indexOf pat s with
  | None => None
  | Some i => Some (mkMatch i pat [])
  end.

Definition stringReplace (pat template s : str) : str :=
  regexReplace (exec_string pat) template s.

(** [s.replace(/[/\\]/g, ':')]. *)
Definition backslash : ascii := ascii_of_nat 92.

Definition is_path_separator (c : ascii) : bool :=
  Ascii.eqb c "/" || Ascii.eqb c backslash.

Definition replaceSeparators (p : str) : str :=
  map (fun c => if is_path_separator c then ":"%char else c) p.

(** The two characters that a literal of this file cannot hold. *)
Definition nl : ascii := ascii_of_nat 10.
Definition dq : ascii := ascii_of_nat 34.

Fixpoint takeWhile (f : ascii -> bool) (s : str) : str :=
  match s with
  | [] => []
  | c :: r => if f c then c :: takeWhile f r else []
  end.

Fixpoint dropWhile (f : ascii -> bool) (s : str) : str :=
  match s with
  | [] => []
  | c :: r => if f c then dropWhile f r else s
  end.

(* ================================================================== *)
(** * Constants of the module *)

Definition MARKER : str := lit "YOUR CHANGES WILL BE ERASED!".
Definition SIGNING_PROPERTIES : str := lit "-signing.properties".
Definition TEMPLATE : str :=
  lit "# This file is automatically generated." ++ [nl]
  ++ lit "# Do not modify this file -- " ++ MARKER ++ [nl].

(* ================================================================== *)
(** * Objects used as sets: [s[k] = 1] and [Object.keys(s)] *)

(** The own property keys of a plain object, in creation order. *)
Definition jsobject := list str.

Definition proto_key : str := lit "__proto__".

(** [s[k] = 1].  Assigning to [__proto__] runs the inherited setter, which
    ignores a number; assigning to an existing key keeps its place. *)
Definition obj_set (o : jsobject) (k : str) : jsobject :=
  if str_eqb k proto_key then o
  else if existsb (str_eqb k) o then o
  else o ++ [k].

Definition decimal_value (k : str) : N :=
  fold_left (fun acc c => (10 * acc + N.of_nat (digit_val c))%N) k 0%N.

(** A key is an array index when it is the canonical decimal form of an
    integer below 2^32 - 1. *)
Definition array_index (k : str) : option N :=
  match k with
  | [] => None
  | c :: r =>
      if forallb is_digit k
         && (negb (Ascii.eqb c "0") || match r with [] => true | _ => false end)
         && (decimal_value k <=? 4294967294)%N
      then Some (decimal_value k)
      else None
  end.

Definition is_array_index (k : str) : bool :=
  match array_index k with Some _ => true | None => false end.

Fixpoint insert_by_index (x : N * str) (l : list (N * str)) : list (N * str) :=
  match l with
  | [] => [x]
  | y :: r => if (fst x <=? fst y)%N then x :: l else y :: insert_by_index x r
  end.

Definition sort_by_index (l : list (N * str)) : list (N * str) :=
  fold_right insert_by_index [] l.

Definition index_keys (o : jsobject) : list (N * str) :=
  flat_map (fun k => match array_index k with
                     | Some n => [(n, k)]
                     | None => []
                     end) o.

(** [Object.keys(o)]: array indices in ascending numeric order, then the
    other keys in creation order. *)
Definition Object_keys (o : jsobject) : list str :=
  map snd (sort_by_index (index_keys o))
  ++ filter (fun k => negb (is_array_index k)) o.

(* ================================================================== *)
(** * readProjectProperties: the three key families *)

(** One attempt of
    [^\s*KEY\d+=( .* )(?:\s|$)] (flags [m] and [g], [KEY] one of the three
    key prefixes) at the head of [t], the [^] apart:
    the value [m[1]], the text after the match, and whether that text starts
    a line. *)
Definition exec_here (key t : str) : option (str * str * bool) :=
  let t1 := dropWhile is_space t in
  if startsWith key t1 then
    let t2 := skipn (length key) t1 in
    let t3 := dropWhile is_digit t2 in
    if length t3 <? length t2 then
      match t3 with
      | c :: t4 =>
          if Ascii.eqb c "=" then
            let v := takeWhile (fun c => negb (is_line_terminator c)) t4 in
            match dropWhile (fun c => negb (is_line_terminator c)) t4 with
            | [] => Some (v, [], false)
            | e :: t6 =>
                if is_space e then Some (v, t6, is_line_terminator e)
                else Some (v, e :: t6, false)
            end
          else None
      | [] => None
      end
    else None
  else None.

(** The values [m[1]] of the loop [while ((m = r.exec(data)))]: each call
    looks for the leftmost match at or after [lastIndex]; [bol] says that
    [^] holds at the head of [t]. *)
Fixpoint exec_all (fuel : nat) (key : str) (bol : bool) (t : str) : list str :=
  match fuel with
  | 0 => []
  | S fuel' =>
      match (if bol then exec_here key t else None) with
      | Some (v, rest, bol') => v :: exec_all fuel' key bol' rest
      | None =>
          match t with
          | [] => []
          | c :: r => exec_all fuel' key (is_line_terminator c) r
          end
      end
  end.

Definition matches (data key : str) : list str :=
  exec_all (S (length data)) key true data.

Definition findAllUniq (data key : str) : list str :=
  Object_keys (fold_left obj_set (matches data key) []).

Definition KEY_LIBS : str := lit "android.library.reference.".
Definition KEY_INCLUDES : str := lit "cordova.gradle.include.".
Definition KEY_SYSTEM : str := lit "cordova.system.library.".

Record properties := mkProperties {
  libs : list str;
  gradleIncludes : list str;
  systemLibs : list str
}.

Definition parseProperties (data : str) : properties :=
  {| libs := findAllUniq data KEY_LIBS;
     gradleIncludes := findAllUniq data KEY_INCLUDES;
     systemLibs := findAllUniq data KEY_SYSTEM |}.

(* ================================================================== *)
(** * extractRealProjectNameFromManifest *)

Definition lower (c : ascii) : ascii :=
  if (65 <=? code c) && (code c <=? 90) then ascii_of_nat (code c + 32) else c.

Fixpoint startsWith_ci (p s : str) : bool :=
  match p, s with
  | [], _ => true
  | _ :: _, [] => false
  | a :: p', b :: s' => Ascii.eqb (lower a) (lower b) && startsWith_ci p' s'
  end.

(** The tail [package\s*=\s*] and the quoted, lazily matched capture, at
    the head of [t]. *)
Definition exec_package_here (t : str) : option str :=
  if startsWith_ci (lit "package") t then
    match dropWhile is_space (skipn 7 t) with
    | c :: t2 =>
        if Ascii.eqb c "=" then
          match dropWhile is_space t2 with
          | d :: t3 =>
              if Ascii.eqb d dq then
                let inside c := negb (Ascii.eqb c dq) && negb (is_line_terminator c) in
                match dropWhile inside t3 with
                | e :: _ => if Ascii.eqb e dq then Some (takeWhile inside t3) else None
                | [] => None
                end
              else None
          | [] => None
          end
        else None
    | [] => None
    end
  else None.

Fixpoint first_package (t : str) : option str :=
  match exec_package_here t with
  | Some v => Some v
  | None => match t with [] => None | _ :: r => first_package r end
  end.

(** The case-insensitive pattern of the manifest, [<manifest], a lazy
    [[\s\S]*?] and the package attribute, run on the manifest text: the
    capture [m[1]]. *)
Fixpoint exec_manifest (t : str) : option str :=
  match (if startsWith_ci (lit "<manifest") t
         then first_package (skipn 9 t) else None) with
  | Some v => Some v
  | None => match t with [] => None | _ :: r => exec_manifest r end
  end.

(** [packageName.substring(packageName.lastIndexOf('.') + 1)]. *)
Definition lastSegment (packageName : str) : str :=
  match lastIndexOf (lit ".") packageName with
  | Some i => skipn (i + 1) packageName
  | None => packageName
  end.

(* ================================================================== *)
(** * prepBuildFiles: the text it computes *)

(** [p.replace(/[/\\]/g, ':').replace(name + '-', '')]. *)
Definition libName (name p : str) : str :=
  stringReplace (name ++ lit "-") [] (replaceSeparators p).

(** The callback of [subProjects.map] that yields the lines of
    settings.gradle for one sub-project. *)
Definition settingsGradlePath (name p : str) : str :=
  let realDir := replaceSeparators p in
  let libName := stringReplace (name ++ lit "-") [] realDir in
  let str := lit "include " ++ [dq] ++ lit ":" ++ libName ++ [dq; nl] in
  match indexOf (name ++ lit "-") realDir with
  | Some _ =>
      str ++ lit "project(" ++ [dq] ++ lit ":" ++ libName ++ [dq]
          ++ lit ").projectDir = new File(" ++ [dq] ++ p ++ [dq] ++ lit ")" ++ [nl]
  | None => str
  end.

Definition SETTINGS_HEADER : str := lit "// GENERATED FILE - DO NOT EDIT" ++ [nl].
Definition SETTINGS_ROOT : str := lit "include " ++ [dq] ++ lit ":" ++ [dq; nl].

(** The text written to settings.gradle. *)
Definition settingsGradle (name : str) (subProjects : list str) : str :=
  SETTINGS_HEADER ++ SETTINGS_ROOT ++ concat (map (settingsGradlePath name) subProjects).

(** ** System libraries *)

(** [/:.*:/.exec(p)], as a test. *)
Fixpoint colon_on_line (s : str) : bool :=
  match s with
  | [] => false
  | c :: r =>
      if Ascii.eqb c ":" then true
      else if is_line_terminator c then false
      else colon_on_line r
  end.

Fixpoint has_two_colons (s : str) : bool :=
  match s with
  | [] => false
  | c :: r => (Ascii.eqb c ":" && colon_on_line r) || has_two_colons r
  end.

(** A row of the mapping table: the function its pattern computes and
    the replacement template. *)
Record rule := mkRule {
  r_exec : str -> option rmatch;
  r_template : str
}.

(** A pattern [^\/?BODY] where the rest of the subject is handed to
    [body]: the optional slash is tried first, then its absence. *)
Definition optional_slash (body : str -> option (list str)) (p : str) : option rmatch :=
  let attempt t :=
    match body t with
    | Some caps => Some (mkMatch 0 p caps)
    | None => None
    end in
  match p with
  | c :: r =>
      if Ascii.eqb c "/" then
        match attempt r with
        | Some m => Some m
        | None => attempt p
        end
      else attempt p
  | [] => attempt p
  end.

Definition SUPPORT_PREFIX : str := lit "extras/android/support/".

(** [^\/?extras\/android\/support\/( .* )$]: the capture runs to the end
    of the subject and holds no line terminator. *)
Definition support_body (t : str) : option (list str) :=
  if startsWith SUPPORT_PREFIX t then
    let rest := skipn (length SUPPORT_PREFIX) t in
    if forallb (fun c => negb (is_line_terminator c)) rest
    then Some [rest] else None
  else None.

Definition exec_support : str -> option rmatch := optional_slash support_body.

Definition PLAY_SERVICES_PATH : str :=
  lit "google/google_play_services/libproject/google-play-services_lib".

(** [^\/?google\/google_play_services\/libproject\/google-play-services_lib\/?$]. *)
Definition play_services_body (t : str) : option (list str) :=
  if startsWith PLAY_SERVICES_PATH t then
    match skipn (length PLAY_SERVICES_PATH) t with
    | [] => Some []
    | [c] => if Ascii.eqb c "/" then Some [] else None
    | _ => None
    end
  else None.

Definition exec_play_services : str -> option rmatch :=
  optional_slash play_services_body.

Definition SYSTEM_LIBRARY_MAPPINGS : list rule :=
  [ mkRule exec_support (lit "com.android.support:support-$1:+");
    mkRule exec_play_services (lit "com.google.android.gms:play-services:+") ].

Inductive exn :=
| CordovaError (msg : str)
| ENOENT (path : str).

(** The [for] loop over the table: [mavenRef] when it ends, [None] for
    [undefined]. *)
Fixpoint mapping_loop (table : list rule) (p : str) : option str :=
  match table with
  | [] => None
  | row :: rest =>
      match r_exec row p with
      | Some _ => Some (regexReplace (r_exec row) (r_template row) p)
      | None => mapping_loop rest p
      end
  end.

Definition UNSUPPORTED : str :=
  lit "Unsupported system library (does not work with gradle): ".

(** The body of [propertiesObj.systemLibs.forEach] up to the value of
    [mavenRef]; [!mavenRef] holds of [undefined] and of the empty string. *)
Definition resolve_with (table : list rule) (p : str) : exn + str :=
  if has_two_colons p then inr p
  else
    match mapping_loop table p with
    | Some (c :: r) => inr (c :: r)
    | _ => inl (CordovaError (UNSUPPORTED ++ p))
    end.

Definition resolve : str -> exn + str := resolve_with SYSTEM_LIBRARY_MAPPINGS.

Definition compileLine (mavenRef : str) : str :=
  lit "    compile " ++ [dq] ++ mavenRef ++ [dq; nl].

(** [propertiesObj.systemLibs.forEach]: the lines appended to [depsList],
    or the first exception. *)
Fixpoint systemLibsLoop (depsList : str) (l : list str) : exn + str :=
  match l with
  | [] => inr depsList
  | p :: rest =>
      match resolve p with
      | inl e => inl e
      | inr mavenRef => systemLibsLoop (depsList ++ compileLine mavenRef) rest
      end
  end.

(** ** The two marker regions of build.gradle *)

(** [/(START)[\s\S]*(END)/.exec(t)] for two literals, tried at offset [i]
    and then at every later one; the greedy middle ends at the last [END]. *)
Fixpoint exec_region_from (START END : str) (i : nat) (t : str) : option rmatch :=
  match (if startsWith START t
         then lastIndexOf END (skipn (length START) t) else None) with
  | Some k =>
      Some (mkMatch i (firstn (length START + k + length END) t) [START; END])
  | None =>
      match t with
      | [] => None
      | _ :: r => exec_region_from START END (S i) r
      end
  end.

Definition exec_region (START END s : str) : option rmatch :=
  exec_region_from START END 0 s.

Definition SUB_START : str := lit "SUB-PROJECT DEPENDENCIES START".
Definition SUB_END : str := lit "// SUB-PROJECT DEPENDENCIES END".
Definition EXT_START : str := lit "PLUGIN GRADLE EXTENSIONS START".
Definition EXT_END : str := lit "// PLUGIN GRADLE EXTENSIONS END".

Definition applyLine (includePath : str) : str :=
  lit "apply from: " ++ [dq] ++ includePath ++ [dq; nl].

(** [propertiesObj.gradleIncludes.forEach]. *)
Definition includeList (gradleIncludes : list str) : str :=
  concat (map applyLine gradleIncludes).

(** The two [buildGradle.replace] calls, in their order. *)
Definition inject (buildGradle depsList includeList : str) : str :=
  let buildGradle1 :=
    regexReplace (exec_region SUB_START SUB_END)
                 (lit "$1" ++ [nl] ++ depsList ++ lit "    $2") buildGradle in
  regexReplace (exec_region EXT_START EXT_END)
               (lit "$1" ++ [nl] ++ includeList ++ lit "$2") buildGradle1.

(* ================================================================== *)
(** * The file system and exceptions *)

(** The files of the disk: the content at each path that names a file. *)
Definition FS := str -> option str.

(** A synchronous computation: it leaves a file system and either throws
    or returns. *)
Definition M (A : Type) : Type := FS -> FS * (exn + A).

Definition ret {A} (a : A) : M A := fun fs => (fs, inr a).
Definition throw {A} (e : exn) : M A := fun fs => (fs, inl e).
Definition bind {A B} (c : M A) (k : A -> M B) : M B :=
  fun fs =>
    match c fs with
    | (fs', inr a) => k a fs'
    | (fs', inl e) => (fs', inl e)
    end.

Notation "x <- c ;; k" := (bind c (fun x => k))
  (at level 61, c at next level, right associativity).
Notation "c ;; k" := (bind c (fun _ => k))
  (at level 61, right associativity).

Definition lift {A} (r : exn + A) : M A := fun fs => (fs, r).

Fixpoint forEach {A} (f : A -> M unit) (l : list A) : M unit :=
  match l with
  | [] => ret tt
  | a :: r => f a ;; forEach f r
  end.

Definition update (path data : str) (fs : FS) : FS :=
  fun q => if str_eqb q path then Some data else fs q.

Definition remove (path : str) (fs : FS) : FS :=
  fun q => if str_eqb q path then None else fs q.

(** [fs.existsSync(path)]. *)
Definition existsSync (path : str) : M bool :=
  fun fs => (fs, inr (match fs path with Some _ => true | None => false end)).

(** [fs.readFileSync(path, 'utf8')]. *)
Definition readFileSync (path : str) : M str :=
  fun fs => match fs path with
            | Some data => (fs, inr data)
            | None => (fs, inl (ENOENT path))
            end.

(** [fs.writeFileSync(path, data)]. *)
Definition writeFileSync (path data : str) : M unit :=
  fun fs => (update path data fs, inr tt).

(** [shell.rm('-f', path)]: no error when the file is absent. *)
Definition rm_f (path : str) : M unit :=
  fun fs => (remove path fs, inr tt).

(** [shell.cp('-f', src, dest)]: shelljs reports a missing source without
    throwing.  The disk of this model has files only: the directory of
    [dest] is taken to exist. *)
Definition cp_f (src dest : str) : M unit :=
  fun fs => match fs src with
            | Some data => (update dest data fs, inr tt)
            | None => (fs, inr tt)
            end.

(** [isAutoGenerated(file)], read off the file system. *)
Definition isAutoGenerated (file : str) (fs : FS) : bool :=
  match fs file with
  | Some data =>
      match indexOf MARKER data with
      | Some (S _) => true
      | _ => false
      end
  | None => false
  end.

Record options := mkOptions {
  buildType : str;
  arch : option str;
  extraArgs : list str;
  (** [opts.packageInfo], as the text its [toProperties()] returns *)
  packageInfo : option str
}.

Section Builder.
(** What the module takes from outside: [path.join], the project root
    [this.root], the process spawner, the check of the gradle
    installation, the text [shell.sed] computes for the wrapper
    properties, and the paths below a directory. *)
Variable path_join : list str -> str.
Variable root : str.
Variable spawn : str -> list str -> M unit.
Variable check_gradle : M str.
Variable sed_distributionUrl : str -> str.
Variable below : str -> str -> bool.

Definition getArgs (cmd : str) (opts : options) : list str :=
  let cmd :=
    if str_eqb cmd (lit "release") then lit "cdvBuildRelease"
    else if str_eqb cmd (lit "debug") then lit "cdvBuildDebug"
    else cmd in
  [cmd; lit "-b"; path_join [root; lit "build.gradle"]]
  ++ match arch opts with
     | Some (c :: a) => [lit "-PcdvBuildArch=" ++ c :: a]
     | _ => []
     end
  ++ [lit "-Dorg.gradle.daemon=true";
      lit "-Dorg.gradle.jvmargs=-Xmx2048m";
      lit "-Pandroid.useDeprecatedNdk=true"]
  ++ extraArgs opts.

Definition runGradleWrapper (gradle_cmd : str) : M unit :=
  let gradlePath := path_join [root; lit "gradlew"] in
  let gradle_file := path_join [root; lit "wrapper.gradle"] in
  e <- existsSync gradlePath ;;
  if e then ret tt
  else spawn gradle_cmd [lit "-p"; root; lit "wrapper"; lit "-b"; gradle_file].

Definition readProjectProperties : M properties :=
  data <- readFileSync (path_join [root; lit "project.properties"]) ;;
  ret (parseProperties data).

Definition extractRealProjectNameFromManifest : M str :=
  let manifestPath := path_join [root; lit "AndroidManifest.xml"] in
  manifestData <- readFileSync manifestPath ;;
  match exec_manifest manifestData with
  | None => throw (CordovaError (lit "Could not find package name in " ++ manifestPath))
  | Some packageName => ret (lastSegment packageName)
  end.

(** [checkAndCopy(subProject, root)]: [fs.accessSync] throws when the
    file is absent, and the handler copies the dummy build file. *)
Definition checkAndCopy (pluginBuildGradle subProject : str) : M unit :=
  let subProjectGradle := path_join [root; subProject; lit "build.gradle"] in
  e <- existsSync subProjectGradle ;;
  if e then ret tt else cp_f pluginBuildGradle subProjectGradle.

Definition EXCLUDE_BLOCK : str :=
  lit "{" ++ [nl] ++ lit "        exclude module:(" ++ [dq] ++ lit "CordovaLib"
  ++ [dq] ++ lit ")" ++ [nl] ++ lit "    }" ++ [nl].

(** [insertExclude(p)], with [depsList] passed and returned. *)
Definition insertExclude (depsList p : str) : M str :=
  let gradlePath := path_join [root; p; lit "build.gradle"] in
  projectGradleFile <- readFileSync gradlePath ;;
  match indexOf (lit "CordovaLib") projectGradleFile with
  | Some _ => ret (depsList ++ EXCLUDE_BLOCK)
  | None => ret (depsList ++ [nl])
  end.

(** [subProjects.forEach], with [depsList] passed and returned. *)
Fixpoint subProjectsLoop (name depsList : str) (l : list str) : M str :=
  match l with
  | [] => ret depsList
  | p :: rest =>
      let libName := libName name p in
      depsList' <- insertExclude
        (depsList ++ lit "    implementation(project(path: " ++ [dq] ++ libName
                  ++ [dq] ++ lit "))") p ;;
      subProjectsLoop name depsList' rest
  end.

(** The first half of [prepBuildFiles], up to the write of
    settings.gradle. *)
Definition writeSettingsGradle (name : str) (subProjects : list str) : M unit :=
  writeFileSync (path_join [root; lit "settings.gradle"])
                (settingsGradle name subProjects).

(** The second half, from the read of build.gradle to its write. *)
Definition injectBuildGradle (name : str) (propertiesObj : properties) : M unit :=
  buildGradle <- readFileSync (path_join [root; lit "build.gradle"]) ;;
  depsList <- subProjectsLoop name [] (libs propertiesObj) ;;
  depsList <- lift (systemLibsLoop depsList (systemLibs propertiesObj)) ;;
  writeFileSync (path_join [root; lit "build.gradle"])
    (inject buildGradle depsList (includeList (gradleIncludes propertiesObj))).

Definition prepBuildFiles : M unit :=
  let pluginBuildGradle :=
    path_join [root; lit "cordova"; lit "lib"; lit "plugin-build.gradle"] in
  propertiesObj <- readProjectProperties ;;
  let subProjects := libs propertiesObj in
  forEach (fun p =>
    if negb (str_eqb p (lit "CordovaLib")) && negb (str_eqb p (lit "app"))
    then checkAndCopy pluginBuildGradle p
    else ret tt) subProjects ;;
  name <- extractRealProjectNameFromManifest ;;
  writeSettingsGradle name subProjects ;;
  injectBuildGradle name propertiesObj.

(** [shell.sed('-i', distributionUrlRegex, ..., file)]; [shell.chmod]
    before it changes no content. *)
Definition sed_i (file : str) : M unit :=
  fun fs => match fs file with
            | Some data => (update file (sed_distributionUrl data) fs, inr tt)
            | None => (fs, inr tt)
            end.

(** The last step of [prepEnv]: the signing properties of the build
    type. *)
Definition prepSigningProperties (opts : options) : M unit :=
  let propertiesFile := buildType opts ++ SIGNING_PROPERTIES in
  let propertiesFilePath := path_join [root; propertiesFile] in
  match packageInfo opts with
  | Some toProperties => writeFileSync propertiesFilePath (TEMPLATE ++ toProperties)
  | None =>
      fun fs =>
        if isAutoGenerated propertiesFilePath fs
        then rm_f propertiesFilePath fs
        else (fs, inr tt)
  end.

Definition prepEnv (opts : options) : M unit :=
  gradlePath <- check_gradle ;;
  runGradleWrapper gradlePath ;;
  prepBuildFiles ;;
  sed_i (path_join [root; lit "gradle"; lit "wrapper"; lit "gradle-wrapper.properties"]) ;;
  prepSigningProperties opts.

(** [shell.rm('-rf', dir)]. *)
Definition rm_rf (dir : str) : M unit :=
  fun fs => (fun q => if str_eqb q dir || below dir q then None else fs q, inr tt).

(** The loop of [clean] over the two configurations. *)
Definition cleanSigningProperties : M unit :=
  forEach (fun config =>
    let propertiesFilePath := path_join [root; config ++ SIGNING_PROPERTIES] in
    fun fs =>
      if isAutoGenerated propertiesFilePath fs
      then rm_f propertiesFilePath fs
      else (fs, inr tt)) [lit "debug"; lit "release"].

Definition clean (opts : options) : M unit :=
  let wrapper := path_join [root; lit "gradlew"] in
  let args := getArgs (lit "clean") opts in
  spawn wrapper args ;;
  rm_rf (path_join [root; lit "out"]) ;;
  cleanSigningProperties.
End Builder.

(* ================================================================== *)
(** * Notions used in the statements *)

(** The empty disk. *)
Definition no_files : FS := fun _ => None.

(** A string without line terminator, as every value the properties
    patterns capture. *)
Definition single_line (s : str) : bool :=
  forallb (fun c => negb (is_line_terminator c)) s.

Definition count_colons (s : str) : nat := count_occ ascii_dec s ":"%char.

Definition index_le (a b : N * str) : Prop := (fst a <= fst b)%N.

(** Each value once, at the place of its first occurrence. *)
Fixpoint first_seen (l : list str) : list str :=
  match l with
  | [] => []
  | v :: r => v :: filter (fun x => negb (str_eqb x v)) (first_seen r)
  end.

Definition not_proto (v : str) : bool := negb (str_eqb v proto_key).

(** The declarations of settings.gradle: a module, and the directory of a
    module. *)
Definition moduleDecl (moduleName : str) : str :=
  lit "include " ++ [dq] ++ lit ":" ++ moduleName ++ [dq; nl].

Definition pathOverride (moduleName rawPath : str) : str :=
  lit "project(" ++ [dq] ++ lit ":" ++ moduleName ++ [dq]
  ++ lit ").projectDir = new File(" ++ [dq] ++ rawPath ++ [dq] ++ lit ")" ++ [nl].

(** A computation leaves the file at [q] as it is. *)
Definition preserves {A} (q : str) (c : M A) : Prop :=
  forall fs, fst (c fs) q = fs q.

(** A computation leaves the file at [q] as it is, or removes it when it
    is auto-generated. *)
Definition spares {A} (q : str) (c : M A) : Prop :=
  forall fs,
    fst (c fs) q = fs q
    \/ (isAutoGenerated q fs = true /\ fst (c fs) q = None).

(** A [path.join] that puts a slash between the segments, to run the
    statements on. *)
Fixpoint slash_join (l : list str) : str :=
  match l with
  | [] => []
  | [a] => a
  | a :: r => a ++ lit "/" ++ slash_join r
  end.

(** The leftmost and the rightmost occurrence of a pattern. *)
Definition first_at (p s : str) (i : nat) : Prop :=
  occ p s i /\ forall k, k < i -> ~ occ p s k.

Definition last_at (p s : str) (j : nat) : Prop :=
  occ p s j /\ forall k, j < k -> ~ occ p s k.

(** A literal that a generated line cannot complete: it is not empty, has
    no line feed and does not start with a space. *)
Definition marker_like (M : str) : bool :=
  match M with
  | [] => false
  | c :: _ =>
      negb (Ascii.eqb c " ") && forallb (fun c => negb (Ascii.eqb c nl)) M
  end.

Definition MARKERS : list str := [SUB_START; SUB_END; EXT_START; EXT_END].

(** A text made of whole lines. *)
Definition lines (t : str) : Prop := t = [] \/ exists t', t = t' ++ [nl].

Definition dollar_free (t : str) : bool :=
  forallb (fun c => negb (Ascii.eqb c "$")) t.

(** A generated text that the two replacements take as it is: whole
    lines, without the character [$] and without any of the four marker
    literals. *)
Definition injectable (t : str) : Prop :=
  lines t /\ dollar_free t = true
  /\ forall M, In M MARKERS -> indexOf M t = None.

(** A text with two marker pairs one after the other, [x] between the
    first pair and [y] between the second. *)
Definition two_regions (Sa Ea Sb Eb pre x mid y post : str) : str :=
  pre ++ Sa ++ x ++ Ea ++ mid ++ Sb ++ y ++ Eb ++ post.

(** The markers shown by [two_regions] are the leftmost [START] and the
    rightmost [END] of either pair. *)
Definition placed (Sa Ea Sb Eb pre x mid y post : str) : Prop :=
  let s := two_regions Sa Ea Sb Eb pre x mid y post in
  indexOf Sa s = Some (length pre)
  /\ lastIndexOf Ea s = Some (length (pre ++ Sa ++ x))
  /\ indexOf Sb s = Some (length (pre ++ Sa ++ x ++ Ea ++ mid))
  /\ lastIndexOf Eb s = Some (length (pre ++ Sa ++ x ++ Ea ++ mid ++ Sb ++ y)).

(* ================================================================== *)
(** * build *)

(** [promise.catch(handler)]: the handler runs on the state the failed
    computation left. *)
Definition catch {A} (c : M A) (handler : exn -> M A) : M A :=
  fun fs =>
    match c fs with
    | (fs', inl e) => handler e fs'
    | (fs', inr a) => (fs', inr a)
    end.

Definition TARGET_NOT_FOUND : str := lit "failed to find target with hash string".

Section Build.
(** Besides the parameters of the other operations: [error.toString()]
    and [check_reqs.check_android_target]. *)
Variable path_join : list str -> str.
Variable root : str.
Variable spawn : str -> list str -> M unit.
Variable error_toString : exn -> str.
Variable check_android_target : exn -> M unit.

Definition build (opts : options) : M unit :=
  let wrapper := path_join [root; lit "gradlew"] in
  let args :=
    getArgs path_join root
      (if str_eqb (buildType opts) (lit "debug") then lit "debug" else lit "release")
      opts in
  catch (spawn wrapper args)
    (fun error =>
       match indexOf TARGET_NOT_FOUND (error_toString error) with
       | Some _ => check_android_target error ;; throw error
       | None => throw error
       end).
End Build.

(* ================================================================== *)
(** * Further notions used in the statements *)

(** The loop of [findAllUniq] with the fuel the text needs. *)
Definition scan (key : str) (bol : bool) (t : str) : list str :=
  exec_all (S (length t)) key bol t.

Definition KEYS : list str := [KEY_LIBS; KEY_INCLUDES; KEY_SYSTEM].

(** A line of project.properties of one of the three families: leading
    white space, the key prefix, its number, the value. *)
Record propertyEntry := mkEntry {
  e_indent : str;
  e_key : str;
  e_number : str;
  e_value : str
}.

Definition propertyLine (e : propertyEntry) : str :=
  e_indent e ++ e_key e ++ e_number e ++ lit "=" ++ e_value e ++ [nl].

Definition entry_ok (e : propertyEntry) : bool :=
  forallb is_space (e_indent e)
  && existsb (str_eqb (e_key e)) KEYS
  && negb (str_eqb (e_number e) []) && forallb is_digit (e_number e)
  && single_line (e_value e).

Definition valuesOf (key : str) (es : list propertyEntry) : list str :=
  map e_value (filter (fun e => str_eqb (e_key e) key) es).

(** A case-insensitive occurrence, as the manifest pattern looks for. *)
Definition occ_ci (p s : str) (k : nat) : Prop :=
  startsWith_ci p (skipn k s) = true.

Definition quoted_value (s : str) : bool :=
  forallb (fun c => negb (Ascii.eqb c dq) && negb (is_line_terminator c)) s.

(** The lines of the dependency block for one sub-project whose
    build.gradle holds [projectGradleFile]. *)
Definition subProjectEntry (name p projectGradleFile : str) : str :=
  lit "    implementation(project(path: " ++ [dq] ++ libName name p ++ [dq]
  ++ lit "))"
  ++ match indexOf (lit "CordovaLib") projectGradleFile with
     | Some _ => EXCLUDE_BLOCK
     | None => [nl]
     end.

(** A computation keeps every file that holds [g] at [q]. *)
Definition keeps {A} (q g : str) (c : M A) : Prop :=
  forall fs, fs q = Some g -> fst (c fs) q = Some g.

(** A computation deletes no file. *)
Definition deletes_nothing {A} (c : M A) : Prop :=
  forall fs q, fs q <> None -> fst (c fs) q <> None.

(** The guarded removal of [prepEnv] and [clean], by itself. *)
Definition removeIfAutoGenerated (file : str) : M unit :=
  fun fs => if isAutoGenerated file fs then rm_f file fs else (fs, inr tt).

(** A path segment that names an entry of a directory: not empty, not
    [.] or [..], without a separator. *)
Definition file_name (x : str) : bool :=
  negb (str_eqb x []) && negb (str_eqb x (lit ".")) && negb (str_eqb x (lit ".."))
  && forallb (fun c => negb (is_path_separator c)) x.

(** The directory of a sub-project exists: a file lies in it. *)
Definition subProjectDir_exists (path_join : list str -> str) (root p : str)
    (fs : FS) : Prop :=
  exists x, file_name x = true /\ fs (path_join [root; p; x]) <> None.

(** The loop of [prepBuildFiles] over the sub-projects, by itself. *)
Definition copyLoop (path_join : list str -> str) (root : str)
    (subProjects : list str) : M unit :=
  forEach (fun p =>
    if negb (str_eqb p (lit "CordovaLib")) && negb (str_eqb p (lit "app"))
    then checkAndCopy path_join root
           (path_join [root; lit "cordova"; lit "lib"; lit "plugin-build.gradle"]) p
    else ret tt) subProjects.

(* ================================================================== *)
(** * Occurrences of a pattern in a string *)

Lemma str_eqb_eq (a b : str) : str_eqb a b = true <-> a = b.
Proof.
  unfold str_eqb. destruct (list_eq_dec ascii_dec a b); split; congruence.
Qed.

Lemma str_eqb_refl (a : str) : str_eqb a a = true.
Proof. now apply str_eqb_eq. Qed.

Lemma str_eqb_neq (a b : str) : str_eqb a b = false <-> a <> b.
Proof.
  unfold str_eqb. destruct (list_eq_dec ascii_dec a b); split; congruence.
Qed.

Lemma startsWith_iff (p s : str) :
  startsWith p s = true <-> exists r, s = p ++ r.
Proof.
  revert s. induction p as [|a p IH]; intros s; simpl.
  - split; [intros _; now exists s | reflexivity].
  - destruct s as [|b s].
    + split; [discriminate | intros [r H]; discriminate].
    + rewrite andb_true_iff, Ascii.eqb_eq, IH. split.
      * intros [-> [r ->]]. now exists r.
      * intros [r H]. injection H as -> ->. split; [reflexivity | now exists r].
Qed.

Lemma startsWith_app (p r : str) : startsWith p (p ++ r) = true.
Proof. apply startsWith_iff. now exists r. Qed.

Lemma startsWith_length (p s : str) :
  startsWith p s = true -> length p <= length s.
Proof.
  intros H. apply startsWith_iff in H as [r ->]. rewrite length_app. lia.
Qed.

Lemma startsWith_firstn (p s : str) :
  startsWith p s = true -> firstn (length p) s = p.
Proof.
  intros H. apply startsWith_iff in H as [r ->].
  rewrite firstn_app, Nat.sub_diag, firstn_all. simpl. apply app_nil_r.
Qed.

Lemma startsWith_app_l (p x y : str) :
  startsWith p x = true -> startsWith p (x ++ y) = true.
Proof.
  intros H. apply startsWith_iff in H as [r ->]. rewrite <- app_assoc.
  apply startsWith_app.
Qed.

(** A prefix test only looks at the first [length p] characters. *)
Lemma startsWith_app_short (p x y : str) :
  length p <= length x -> startsWith p (x ++ y) = startsWith p x.
Proof.
  revert x. induction p as [|a p IH]; intros x Hl; simpl; [reflexivity|].
  destruct x as [|b x]; simpl in *; [lia|].
  rewrite IH by lia. reflexivity.
Qed.

Lemma occ_iff (p s : str) (i : nat) :
  occ p s i <-> exists r, skipn i s = p ++ r.
Proof. apply startsWith_iff. Qed.

Lemma occ_0 (p s : str) : occ p s 0 <-> startsWith p s = true.
Proof. reflexivity. Qed.

Lemma occ_S (p : str) (c : ascii) (s : str) (i : nat) :
  occ p (c :: s) (S i) <-> occ p s i.
Proof. reflexivity. Qed.

Lemma occ_bound (p s : str) (i : nat) :
  p <> [] -> occ p s i -> i + length p <= length s.
Proof.
  intros Hp H. apply startsWith_length in H. rewrite length_skipn in H.
  destruct p; [congruence|]. simpl in *. lia.
Qed.

(** An occurrence splits the string around the pattern. *)
Lemma occ_split (p s : str) (i : nat) :
  p <> [] -> occ p s i ->
  s = firstn i s ++ p ++ skipn (i + length p) s.
Proof.
  intros Hp H. pose proof (occ_bound _ _ _ Hp H) as Hb.
  apply occ_iff in H as [r Hr].
  rewrite <- (firstn_skipn i s) at 1. f_equal.
  rewrite Hr. f_equal.
  rewrite Nat.add_comm, <- skipn_skipn, Hr.
  rewrite skipn_app, Nat.sub_diag, skipn_all. reflexivity.
Qed.

Lemma occ_app_at (a p b : str) : occ p (a ++ p ++ b) (length a).
Proof.
  unfold occ. rewrite skipn_app, Nat.sub_diag, skipn_all. simpl.
  apply startsWith_app.
Qed.

(** Offsets in a prefix [x] of [x ++ y]. *)
Lemma occ_app_l (p x y : str) (i : nat) :
  i + length p <= length x -> occ p (x ++ y) i <-> occ p x i.
Proof.
  intros Hl. unfold occ. rewrite skipn_app.
  replace (i - length x) with 0 by lia.
  simpl. rewrite startsWith_app_short; [reflexivity|].
  rewrite length_skipn. lia.
Qed.

(** Offsets past a prefix [x] of [x ++ y]. *)
Lemma occ_app_r (p x y : str) (i : nat) :
  occ p (x ++ y) (length x + i) <-> occ p y i.
Proof.
  unfold occ. rewrite skipn_app.
  replace (length x + i - length x) with i by lia.
  rewrite skipn_all2 by lia. reflexivity.
Qed.

Lemma indexOf_occ (p s : str) (i : nat) :
  indexOf p s = Some i -> occ p s i /\ forall k, k < i -> ~ occ p s k.
Proof.
  revert i. induction s as [|c s IH]; intros i; simpl.
  - destruct (startsWith p []) eqn:E; [|discriminate].
    intros [= <-]. split; [exact E | intros k Hk; lia].
  - destruct (startsWith p (c :: s)) eqn:E.
    + intros [= <-]. split; [exact E | intros k Hk; lia].
    + destruct (indexOf p s) as [j|] eqn:Ej; [|discriminate].
      simpl. intros [= <-]. destruct (IH j eq_refl) as [H1 H2].
      split; [exact H1|]. intros [|k] Hk.
      * unfold occ. simpl. congruence.
      * rewrite occ_S. apply H2. lia.
Qed.

Lemma indexOf_None (p s : str) :
  indexOf p s = None -> forall k, ~ occ p s k.
Proof.
  induction s as [|c s IH]; simpl.
  - destruct (startsWith p []) eqn:E; [discriminate|].
    intros _ k. unfold occ. rewrite skipn_nil. congruence.
  - destruct (startsWith p (c :: s)) eqn:E; [discriminate|].
    destruct (indexOf p s) eqn:Ej; [discriminate|].
    intros _ [|k]; [unfold occ; simpl; congruence|].
    rewrite occ_S. now apply IH.
Qed.

Lemma indexOf_first (p s : str) (i : nat) :
  occ p s i -> (forall k, k < i -> ~ occ p s k) -> indexOf p s = Some i.
Proof.
  intros H1 H2. destruct (indexOf p s) as [j|] eqn:E.
  - apply indexOf_occ in E as [E1 E2].
    destruct (Nat.lt_trichotomy i j) as [Hlt|[->|Hlt]].
    + exfalso. exact (E2 i Hlt H1).
    + reflexivity.
    + exfalso. exact (H2 j Hlt E1).
  - exfalso. exact (indexOf_None _ _ E i H1).
Qed.

(** The first occurrence in [a] stays the first occurrence in [a ++ b]. *)
Lemma indexOf_app (p a b : str) (i : nat) :
  p <> [] -> indexOf p a = Some i -> indexOf p (a ++ b) = Some i.
Proof.
  intros Hp H. apply indexOf_occ in H as [H1 H2].
  pose proof (occ_bound _ _ _ Hp H1) as Hb.
  apply indexOf_first.
  - apply occ_app_l; assumption.
  - intros k Hk Hc. apply (H2 k Hk). apply occ_app_l in Hc; [assumption | lia].
Qed.

Lemma lastIndexOf_None (p s : str) :
  lastIndexOf p s = None -> forall k, k <= length s -> ~ occ p s k.
Proof.
  induction s as [|c s IH]; simpl.
  - destruct (startsWith p []) eqn:E; [discriminate|].
    intros _ k Hk. assert (k = 0) by lia. subst. unfold occ. simpl. congruence.
  - destruct (lastIndexOf p s) eqn:Ej; [discriminate|].
    destruct (startsWith p (c :: s)) eqn:E; [discriminate|].
    intros _ [|k] Hk; [unfold occ; simpl; congruence|].
    rewrite occ_S. apply IH; [reflexivity | lia].
Qed.

Lemma lastIndexOf_occ (p s : str) (i : nat) :
  lastIndexOf p s = Some i ->
  occ p s i /\ i <= length s /\ forall k, i < k -> k <= length s -> ~ occ p s k.
Proof.
  revert i. induction s as [|c s IH]; intros i; simpl.
  - destruct (startsWith p []) eqn:E; [|discriminate].
    intros [= <-]. split; [exact E | split; [lia | intros k Hk Hl; lia]].
  - destruct (lastIndexOf p s) as [j|] eqn:Ej.
    + intros [= <-]. destruct (IH j eq_refl) as (H1 & H0 & H2).
      split; [exact H1|]. split; [lia|]. intros [|k] Hk Hl; [lia|].
      rewrite occ_S. apply H2; lia.
    + destruct (startsWith p (c :: s)) eqn:E; [|discriminate].
      intros [= <-]. split; [exact E|]. split; [lia|].
      intros [|k] Hk Hl; [lia|]. rewrite occ_S.
      apply (lastIndexOf_None _ _ Ej). lia.
Qed.

Lemma lastIndexOf_last (p s : str) (i : nat) :
  i <= length s -> occ p s i ->
  (forall k, i < k -> k <= length s -> ~ occ p s k) -> lastIndexOf p s = Some i.
Proof.
  intros Hi H1 H2. destruct (lastIndexOf p s) as [j|] eqn:E.
  - apply lastIndexOf_occ in E as (E1 & E0 & E2).
    destruct (Nat.lt_trichotomy i j) as [Hlt|[->|Hlt]].
    + exfalso. exact (H2 j Hlt E0 E1).
    + reflexivity.
    + exfalso. exact (E2 i Hlt Hi H1).
  - exfalso. exact (lastIndexOf_None _ _ E i Hi H1).
Qed.

(* ================================================================== *)
(** * ProjectGraphNormalizer: the module name of a sub-project *)

Lemma stringReplace_empty_occ (pat s : str) (i : nat) :
  indexOf pat s = Some i ->
  stringReplace pat [] s = firstn i s ++ skipn (i + length pat) s.
Proof.
  intros H. unfold stringReplace, regexReplace, exec_string. rewrite H.
  reflexivity.
Qed.

Lemma stringReplace_absent (pat template s : str) :
  indexOf pat s = None -> stringReplace pat template s = s.
Proof.
  intros H. unfold stringReplace, regexReplace, exec_string. now rewrite H.
Qed.

Lemma lit_nonempty_app (name : str) : name ++ lit "-" <> [].
Proof. destruct name; discriminate. Qed.

(** C5: the module name is the canonical path (separators turned into a
    colon) from which the leftmost occurrence of the host name followed by
    the dash is removed, and nothing else: what precedes and what follows
    that occurrence is kept as it is, and a path in which the host name is
    nowhere followed by the dash is kept whole. *)
Theorem libName_strips_leftmost_occurrence (name p : str) :
  let canonical := replaceSeparators p in
  let prefix := name ++ lit "-" in
  (forall a b,
      canonical = a ++ prefix ++ b ->
      (forall k, k < length a -> ~ occ prefix canonical k) ->
      libName name p = a ++ b)
  /\ ((forall k, ~ occ prefix canonical k) -> libName name p = canonical)
  /\ libName (lit "myapp") (lit "myapp-core-lib") = lit "core-lib"
  /\ libName (lit "myapp") (lit "unrelated-lib") = lit "unrelated-lib".
Proof.
  intros canonical prefix. split; [|split; [|split; reflexivity]].
  - intros a b Hsplit Hfirst. unfold libName. fold canonical prefix.
    assert (Hi : indexOf prefix canonical = Some (length a)).
    { apply indexOf_first; [|exact Hfirst]. rewrite Hsplit. apply occ_app_at. }
    rewrite (stringReplace_empty_occ _ _ _ Hi), Hsplit.
    rewrite firstn_app, Nat.sub_diag, firstn_all. simpl. rewrite app_nil_r.
    f_equal. rewrite skipn_app.
    replace (length a + length prefix - length a) with (length prefix) by lia.
    rewrite skipn_all2 by lia. simpl.
    rewrite skipn_app, Nat.sub_diag, skipn_all. reflexivity.
  - intros Hnone. unfold libName. fold canonical prefix.
    apply stringReplace_absent.
    destruct (indexOf prefix canonical) as [i|] eqn:E; [|reflexivity].
    apply indexOf_occ in E as [E _]. exfalso. exact (Hnone i E).
Qed.

(** The theorem at host [myapp] and path [x/myapp-myapp-y]: only the first
    of the two occurrences goes. *)
Lemma libName_strips_leftmost_occurrence_witness :
  libName (lit "myapp") (lit "x/myapp-myapp-y") = lit "x:myapp-y".
Proof.
  apply (proj1 (libName_strips_leftmost_occurrence (lit "myapp") (lit "x/myapp-myapp-y"))
           (lit "x:") (lit "myapp-y")).
  - reflexivity.
  - intros k Hk. unfold occ.
    destruct k as [|[|k]]; [vm_compute; discriminate | vm_compute; discriminate | simpl in Hk; lia].
Defined.

(* ================================================================== *)
(** * GeneratedFileLifecycleManager: isAutoGenerated *)

Lemma MARKER_nonempty : MARKER <> [].
Proof. discriminate. Qed.

Lemma isAutoGenerated_indexOf (file : str) (fs : FS) :
  isAutoGenerated file fs = true <->
  exists data i, fs file = Some data /\ indexOf MARKER data = Some (S i).
Proof.
  unfold isAutoGenerated. destruct (fs file) as [data|].
  - destruct (indexOf MARKER data) as [[|i]|] eqn:E.
    + split; [discriminate|]. intros (d & i & [= <-] & Hi). congruence.
    + split; [|reflexivity]. intros _. now exists data, i.
    + split; [discriminate|]. intros (d & i & [= <-] & Hi). congruence.
  - split; [discriminate|]. intros (d & i & Hd & _). discriminate.
Qed.

(** C8, as the code has it: a file is auto-generated exactly when it
    exists, its content holds the marker phrase, and the content does not
    begin with the phrase; that is, when the leftmost occurrence of the
    phrase is at a positive offset.  A later occurrence does not count when
    the file also begins with the phrase. *)
Theorem isAutoGenerated_iff_leftmost_positive (file : str) (fs : FS) :
  (isAutoGenerated file fs = true <->
   exists data, fs file = Some data
                /\ (exists i, occ MARKER data i) /\ ~ occ MARKER data 0)
  /\ (isAutoGenerated file fs = true <->
      exists data i, fs file = Some data /\ 0 < i /\ occ MARKER data i
                     /\ forall k, k < i -> ~ occ MARKER data k).
Proof.
  split; rewrite isAutoGenerated_indexOf; split.
  - intros (data & i & Hd & Hi). exists data. split; [exact Hd|].
    apply indexOf_occ in Hi as [H1 H2]. split; [now exists (S i)|].
    apply H2. lia.
  - intros (data & Hd & [i Hi] & H0). exists data.
    destruct (indexOf MARKER data) as [[|j]|] eqn:E.
    + apply indexOf_occ in E as [E _]. contradiction.
    + now exists j.
    + exfalso. exact (indexOf_None _ _ E i Hi).
  - intros (data & i & Hd & Hi). exists data, (S i).
    apply indexOf_occ in Hi as [H1 H2].
    split; [exact Hd|]. split; [lia|]. split; [exact H1 | exact H2].
  - intros (data & i & Hd & Hpos & H1 & H2). exists data.
    destruct i as [|i]; [lia|]. exists i. split; [exact Hd|].
    now apply indexOf_first.
Qed.

(** C8 as it is worded fails on a file that begins with the marker phrase
    and holds it once more on its second line: the phrase occurs at the
    positive offset 29, and the file is not classified as auto-generated. *)
Lemma isAutoGenerated_later_offset_counterexample :
  let file := lit "debug-signing.properties" in
  let fs := update file (MARKER ++ [nl] ++ MARKER) no_files in
  ~ (isAutoGenerated file fs = true <->
     exists data i, fs file = Some data /\ 0 < i /\ occ MARKER data i).
Proof.
  intros file fs [_ H].
  assert (Hc : isAutoGenerated file fs = true).
  { apply H. exists (MARKER ++ [nl] ++ MARKER), 29.
    split; [reflexivity | split; [lia | reflexivity]]. }
  vm_compute in Hc. discriminate.
Qed.

Lemma indexOf_MARKER_TEMPLATE : indexOf MARKER TEMPLATE = Some 69.
Proof. reflexivity. Qed.

(** C10: whatever the credentials payload, the signing properties that
    [prepEnv] writes for it hold the marker phrase at offset 69 of the
    header, no earlier occurrence exists, and [isAutoGenerated] holds of
    the written file. *)
Theorem written_signing_properties_are_auto_generated
    (path_join : list str -> str) (root bt : str) (a : option str)
    (extra : list str) (payload : str) (fs : FS) :
  let opts := mkOptions bt a extra (Some payload) in
  let file := path_join [root; bt ++ SIGNING_PROPERTIES] in
  let fs' := fst (prepSigningProperties path_join root opts fs) in
  fs' file = Some (TEMPLATE ++ payload)
  /\ indexOf MARKER (TEMPLATE ++ payload) = Some 69
  /\ isAutoGenerated file fs' = true.
Proof.
  intros opts file fs'.
  assert (Hf : fs' file = Some (TEMPLATE ++ payload)).
  { unfold fs', prepSigningProperties, writeFileSync, update. simpl.
    fold file. now rewrite str_eqb_refl. }
  assert (Hi : indexOf MARKER (TEMPLATE ++ payload) = Some 69).
  { apply indexOf_app; [exact MARKER_nonempty | exact indexOf_MARKER_TEMPLATE]. }
  split; [exact Hf|]. split; [exact Hi|].
  apply isAutoGenerated_indexOf. now exists (TEMPLATE ++ payload), 68.
Qed.

(* ================================================================== *)
(** * PropertiesParser: findAllUniq *)

Lemma dropWhile_length (f : ascii -> bool) (s : str) :
  length (dropWhile f s) <= length s.
Proof.
  induction s as [|c s IH]; simpl; [lia|].
  destruct (f c); simpl; lia.
Qed.

Lemma takeWhile_forallb (f : ascii -> bool) (s : str) :
  forallb f (takeWhile f s) = true.
Proof.
  induction s as [|c s IH]; simpl; [reflexivity|].
  destruct (f c) eqn:E; simpl; [now rewrite E|reflexivity].
Qed.

(** A match consumes at least one character and captures a single line. *)
Lemma exec_here_spec (key t v rest : str) (b : bool) :
  exec_here key t = Some (v, rest, b) ->
  length rest < length t /\ single_line v = true.
Proof.
  unfold exec_here.
  pose proof (dropWhile_length is_space t) as H1.
  destruct (startsWith key (dropWhile is_space t)); [|discriminate].
  set (t2 := skipn (length key) (dropWhile is_space t)).
  assert (H2 : length t2 <= length t).
  { unfold t2. rewrite length_skipn. lia. }
  destruct (length (dropWhile is_digit t2) <? length t2) eqn:E3; [|discriminate].
  apply Nat.ltb_lt in E3.
  destruct (dropWhile is_digit t2) as [|c t4] eqn:E4; [discriminate|].
  destruct (Ascii.eqb c "="); [|discriminate].
  simpl in E3.
  pose proof (dropWhile_length (fun c => negb (is_line_terminator c)) t4) as H5.
  pose proof (takeWhile_forallb (fun c => negb (is_line_terminator c)) t4) as H6.
  destruct (dropWhile (fun c => negb (is_line_terminator c)) t4) as [|e t6] eqn:E6.
  - intros [= <- <- <-]. split; [simpl; lia | exact H6].
  - destruct (is_space e); intros [= <- <- <-]; (split; [simpl in *; lia | exact H6]).
Qed.

(** The loop does not depend on the fuel once there is enough of it: the
    length of the text, and one more for the last call. *)
Lemma exec_all_fuel (key : str) (n m : nat) :
  forall (bol : bool) (t : str),
    length t < n -> length t < m ->
    exec_all n key bol t = exec_all m key bol t.
Proof.
  revert m. induction n as [|n IH]; intros m bol t Hn Hm; [lia|].
  destruct m as [|m]; [lia|]. simpl.
  destruct (if bol then exec_here key t else None) as [[[v rest] b]|] eqn:E.
  - assert (Hr : length rest < length t).
    { destruct bol; [|discriminate]. now apply exec_here_spec in E. }
    f_equal. apply IH; lia.
  - destruct t as [|c r]; [reflexivity|]. simpl in *. apply IH; lia.
Qed.

Lemma matches_fuel (data key : str) (n : nat) :
  length data < n -> exec_all n key true data = matches data key.
Proof.
  intros H. unfold matches. apply exec_all_fuel; lia.
Qed.

Lemma exec_all_single_line (key : str) (n : nat) :
  forall (bol : bool) (t v : str),
    In v (exec_all n key bol t) -> single_line v = true.
Proof.
  induction n as [|n IH]; intros bol t v; simpl; [tauto|].
  destruct (if bol then exec_here key t else None) as [[[w rest] b]|] eqn:E.
  - intros [<-|H].
    + destruct bol; [|discriminate]. now apply exec_here_spec in E.
    + exact (IH _ _ _ H).
  - destruct t as [|c r]; [simpl; tauto|]. apply IH.
Qed.

(** ** The object as a set *)

Lemma existsb_str_eqb (x : str) (l : list str) :
  existsb (str_eqb x) l = true <-> In x l.
Proof.
  rewrite existsb_exists. split.
  - intros (y & Hy & E). apply str_eqb_eq in E. now subst.
  - intros H. exists x. split; [exact H | apply str_eqb_refl].
Qed.

Lemma first_seen_In (l : list str) (x : str) : In x (first_seen l) <-> In x l.
Proof.
  induction l as [|v r IH]; simpl; [tauto|].
  rewrite filter_In, IH, negb_true_iff, str_eqb_neq.
  destruct (list_eq_dec ascii_dec v x) as [->|Hne]; [tauto|].
  split; [tauto|]. intros [H|H]; [tauto|]. right. split; [exact H | congruence].
Qed.

Lemma first_seen_NoDup (l : list str) : NoDup (first_seen l).
Proof.
  induction l as [|v r IH]; simpl; constructor.
  - rewrite filter_In, negb_true_iff, str_eqb_neq. tauto.
  - now apply NoDup_filter.
Qed.

Lemma filter_filter_ext (f g h : str -> bool) (l : list str) :
  (forall x, h x = g x && f x) -> filter h l = filter g (filter f l).
Proof.
  intros H. induction l as [|x l IH]; simpl; [reflexivity|].
  rewrite H. destruct (f x); simpl.
  - destruct (g x); simpl; now rewrite IH.
  - rewrite andb_false_r. exact IH.
Qed.

(** The keys of the object after the loop, in creation order. *)
Lemma fold_obj_set (l : list str) (o : jsobject) :
  fold_left obj_set l o =
  o ++ filter (fun x => negb (existsb (str_eqb x) o)) (first_seen (filter not_proto l)).
Proof.
  revert o. induction l as [|v r IH]; intros o; simpl.
  - now rewrite app_nil_r.
  - unfold obj_set at 2, not_proto at 1.
    destruct (str_eqb v proto_key); simpl; [apply IH|].
    destruct (existsb (str_eqb v) o) eqn:E; simpl.
    + rewrite IH. f_equal.
      apply filter_filter_ext.
      intros x. destruct (str_eqb x v) eqn:Ex; simpl; [|now rewrite andb_true_r].
      apply str_eqb_eq in Ex. subst. now rewrite E.
    + rewrite IH. simpl. rewrite <- app_assoc. simpl. do 2 f_equal.
      apply filter_filter_ext. intros x.
      rewrite existsb_app. simpl. rewrite orb_false_r, negb_orb. reflexivity.
Qed.

Lemma fold_obj_set_nil (l : list str) :
  fold_left obj_set l [] = first_seen (filter not_proto l).
Proof.
  rewrite fold_obj_set. simpl. induction (first_seen (filter not_proto l)) as [|x r IH];
    simpl; [reflexivity | now rewrite IH].
Qed.

(** ** The order of [Object.keys] *)

Lemma insert_by_index_perm (x : N * str) (l : list (N * str)) :
  Permutation (insert_by_index x l) (x :: l).
Proof.
  induction l as [|y r IH]; simpl; [reflexivity|].
  destruct (fst x <=? fst y)%N; [reflexivity|].
  rewrite IH. apply perm_swap.
Qed.

Lemma sort_by_index_perm (l : list (N * str)) : Permutation (sort_by_index l) l.
Proof.
  induction l as [|x r IH]; simpl; [reflexivity|].
  rewrite insert_by_index_perm. now constructor.
Qed.

Lemma insert_by_index_sorted (x : N * str) (l : list (N * str)) :
  StronglySorted index_le l -> StronglySorted index_le (insert_by_index x l).
Proof.
  induction 1 as [|y r Hs IH Hy]; simpl.
  - repeat constructor.
  - destruct (fst x <=? fst y)%N eqn:E.
    + apply N.leb_le in E. constructor; [now constructor|].
      constructor; [exact E|].
      eapply Forall_impl; [|exact Hy]. unfold index_le. intros; lia.
    + apply N.leb_gt in E. constructor; [exact IH|].
      rewrite insert_by_index_perm. constructor; [unfold index_le; lia | exact Hy].
Qed.

Lemma sort_by_index_sorted (l : list (N * str)) :
  StronglySorted index_le (sort_by_index l).
Proof.
  induction l as [|x r IH]; simpl; [constructor|].
  now apply insert_by_index_sorted.
Qed.

Lemma array_index_value (k : str) (n : N) :
  array_index k = Some n -> n = decimal_value k.
Proof.
  unfold array_index. destruct k as [|c r]; [discriminate|].
  match goal with |- (if ?b then _ else _) = _ -> _ => destruct b end;
    [now intros [= <-] | discriminate].
Qed.

Lemma index_keys_value (o : jsobject) :
  Forall (fun x => fst x = decimal_value (snd x)) (index_keys o).
Proof.
  induction o as [|k o IH]; simpl; [constructor|].
  destruct (array_index k) as [n|] eqn:E; simpl; [|exact IH].
  constructor; [exact (array_index_value _ _ E) | exact IH].
Qed.

Lemma index_keys_snd (o : jsobject) :
  map snd (index_keys o) = filter is_array_index o.
Proof.
  induction o as [|k o IH]; simpl; [reflexivity|].
  unfold is_array_index at 1. destruct (array_index k); simpl; now rewrite IH.
Qed.

Lemma sorted_map_snd (l : list (N * str)) :
  Forall (fun x => fst x = decimal_value (snd x)) l ->
  StronglySorted index_le l ->
  StronglySorted (fun a b => (decimal_value a <= decimal_value b)%N) (map snd l).
Proof.
  intros Hv Hs. induction Hs as [|x r Hs IH Hx]; simpl; [constructor|].
  inversion Hv as [|? ? Hx0 Hr]; subst. constructor; [now apply IH|].
  rewrite Forall_map. rewrite Forall_forall in *. intros y Hy.
  pose proof (Hx y Hy) as Hle. unfold index_le in Hle.
  rewrite <- Hx0, <- (Hr y Hy). exact Hle.
Qed.

Lemma filter_all (f : str -> bool) (l : list str) :
  (forall x, In x l -> f x = true) -> filter f l = l.
Proof.
  induction l as [|x l IH]; simpl; intros H; [reflexivity|].
  rewrite (H x) by now left. f_equal. apply IH. intros y Hy. apply H. now right.
Qed.

Lemma filter_none (f : str -> bool) (l : list str) :
  (forall x, In x l -> f x = false) -> filter f l = [].
Proof.
  induction l as [|x l IH]; simpl; intros H; [reflexivity|].
  rewrite (H x) by now left. apply IH. intros y Hy. apply H. now right.
Qed.

Lemma Object_keys_split (o : jsobject) :
  exists idx,
    Object_keys o = idx ++ filter (fun v => negb (is_array_index v)) o
    /\ Permutation idx (filter is_array_index o)
    /\ StronglySorted (fun a b => (decimal_value a <= decimal_value b)%N) idx.
Proof.
  exists (map snd (sort_by_index (index_keys o))). split; [reflexivity|]. split.
  - rewrite <- index_keys_snd. apply Permutation_map, sort_by_index_perm.
  - apply sorted_map_snd; [|apply sort_by_index_sorted].
    eapply Permutation_Forall; [|apply index_keys_value].
    symmetry. apply sort_by_index_perm.
Qed.

Lemma Object_keys_perm (o : jsobject) : Permutation (Object_keys o) o.
Proof.
  destruct (Object_keys_split o) as (idx & -> & Hp & _).
  apply Permutation_trans with
    (filter is_array_index o ++ filter (fun v => negb (is_array_index v)) o).
  - now apply Permutation_app_tail.
  - clear. induction o as [|k o IH]; simpl; [reflexivity|].
    destruct (is_array_index k); simpl.
    + now constructor.
    + apply Permutation_sym, Permutation_cons_app, Permutation_sym, IH.
Qed.

(** C6, as the code has it: for a properties text in which no matched
    value of the family is [__proto__], the parsed sequence holds every
    matched value exactly once; the values that are array indices
    (canonical decimal integers below 2^32 - 1) come first, in ascending
    numeric order, and the others follow in first-seen order.  When no
    matched value is an array index either, the sequence is the matched
    values in first-seen order. *)
Theorem findAllUniq_keys_order (data key : str) :
  let ms := matches data key in
  let uniq := first_seen ms in
  let ks := findAllUniq data key in
  ~ In proto_key ms ->
  (exists idx,
      ks = idx ++ filter (fun v => negb (is_array_index v)) uniq
      /\ Permutation idx (filter is_array_index uniq)
      /\ StronglySorted (fun a b => (decimal_value a <= decimal_value b)%N) idx)
  /\ NoDup ks
  /\ (forall v, In v ks <-> In v ms)
  /\ ((forall v, In v ms -> is_array_index v = false) -> ks = first_seen ms).
Proof.
  intros ms uniq ks Hno.
  assert (Hms : filter not_proto ms = ms).
  { apply filter_all. intros x Hx. unfold not_proto.
    apply negb_true_iff, str_eqb_neq. intros ->. exact (Hno Hx). }
  assert (Hks : ks = Object_keys uniq).
  { unfold ks, findAllUniq. fold ms. now rewrite fold_obj_set_nil, Hms. }
  split; [rewrite Hks; apply Object_keys_split|].
  split; [|split].
  - rewrite Hks. eapply Permutation_NoDup; [symmetry; apply Object_keys_perm|].
    apply first_seen_NoDup.
  - intros v. rewrite Hks. split.
    + intros H. apply (Permutation_in _ (Object_keys_perm uniq)) in H.
      exact (proj1 (first_seen_In ms v) H).
    + intros H. apply (Permutation_in _ (Permutation_sym (Object_keys_perm uniq))).
      exact (proj2 (first_seen_In ms v) H).
  - intros Hplain. rewrite Hks. unfold uniq, Object_keys.
    assert (Hidx : filter is_array_index (first_seen ms) = []).
    { apply filter_none. intros x Hx. apply (proj1 (first_seen_In _ _)) in Hx.
      exact (Hplain x Hx). }
    rewrite <- index_keys_snd in Hidx.
    apply map_eq_nil in Hidx. rewrite Hidx. simpl.
    apply filter_all. intros x Hx. apply (proj1 (first_seen_In _ _)) in Hx.
    apply negb_true_iff. exact (Hplain x Hx).
Qed.

(** The theorem at a properties text with a repeated plain value: the
    parsed sequence is the first-seen order. *)
Lemma findAllUniq_keys_order_witness :
  let data := lit "android.library.reference.1=b" ++ [nl]
              ++ lit "android.library.reference.2=a" ++ [nl]
              ++ lit "android.library.reference.3=b" in
  findAllUniq data KEY_LIBS = first_seen (matches data KEY_LIBS).
Proof.
  intros data.
  refine (proj2 (proj2 (proj2 (findAllUniq_keys_order data KEY_LIBS _))) _).
  - intros Hv. vm_compute in Hv.
    destruct Hv as [Hv|[Hv|[Hv|[]]]]; discriminate.
  - intros v Hv. vm_compute in Hv.
    destruct Hv as [<-|[<-|[<-|[]]]]; reflexivity.
Defined.

(** C6 as it is worded fails on two library references whose values are
    the decimal numbers 2 and 1, in that order: [Object.keys] lists 1
    before 2. *)
Lemma findAllUniq_first_seen_counterexample :
  let data := lit "android.library.reference.1=2" ++ [nl]
              ++ lit "android.library.reference.2=1" in
  matches data KEY_LIBS = [lit "2"; lit "1"]
  /\ libs (parseProperties data) = [lit "1"; lit "2"]
  /\ libs (parseProperties data) <> first_seen (matches data KEY_LIBS).
Proof.
  intros data. split; [reflexivity|]. split; [reflexivity|].
  vm_compute. discriminate.
Qed.

(* ================================================================== *)
(** * SettingsManifestGenerator *)

Lemma stringReplace_empty_same (pat s : str) :
  pat <> [] -> (stringReplace pat [] s = s <-> indexOf pat s = None).
Proof.
  intros Hp. split.
  - destruct (indexOf pat s) as [i|] eqn:E; [|reflexivity].
    rewrite (stringReplace_empty_occ _ _ _ E). intros H.
    apply indexOf_occ in E as [E _]. apply (occ_bound _ _ _ Hp) in E.
    apply (f_equal (@length ascii)) in H.
    rewrite length_app, length_firstn, length_skipn in H.
    destruct pat; [congruence|]. simpl in *. lia.
  - apply stringReplace_absent.
Qed.

Lemma settingsGradlePath_decl (name p : str) :
  settingsGradlePath name p =
  moduleDecl (libName name p)
  ++ (if str_eqb (libName name p) (replaceSeparators p) then []
      else pathOverride (libName name p) p).
Proof.
  unfold settingsGradlePath, libName, moduleDecl, pathOverride.
  pose proof (stringReplace_empty_same (name ++ lit "-") (replaceSeparators p)
                (lit_nonempty_app name)) as H.
  destruct (indexOf (name ++ lit "-") (replaceSeparators p)) as [i|] eqn:E.
  - destruct (str_eqb _ _) eqn:Eq.
    + apply str_eqb_eq in Eq. apply H in Eq. discriminate.
    + now rewrite <- !app_assoc.
  - rewrite (proj2 H eq_refl), str_eqb_refl. now rewrite <- !app_assoc, app_nil_r.
Qed.

(** C7: settings.gradle is the fixed header comment, the declaration of
    the root module, and then, for each sub-project in the order of the
    parsed sequence, the declaration of its module name, followed by the
    declaration of its directory (the raw path) exactly when the module name
    differs from the canonical path, that is, when the prefix was removed.
    The file is written whatever it held before. *)
Theorem settings_manifest_layout
    (path_join : list str -> str) (root name : str) (subProjects : list str) (fs : FS) :
  let file := path_join [root; lit "settings.gradle"] in
  let decl p :=
    moduleDecl (libName name p)
    ++ (if str_eqb (libName name p) (replaceSeparators p) then []
        else pathOverride (libName name p) p) in
  let manifest := SETTINGS_HEADER ++ SETTINGS_ROOT ++ concat (map decl subProjects) in
  writeSettingsGradle path_join root name subProjects fs = (update file manifest fs, inr tt)
  /\ update file manifest fs file = Some manifest
  /\ SETTINGS_HEADER = lit "// GENERATED FILE - DO NOT EDIT" ++ [nl]
  /\ SETTINGS_ROOT = moduleDecl [].
Proof.
  intros file decl manifest. split; [|split; [|split; reflexivity]].
  - unfold writeSettingsGradle, writeFileSync. fold file. do 2 f_equal.
    unfold manifest, settingsGradle. do 3 f_equal.
    apply map_ext. intros p. apply settingsGradlePath_decl.
  - unfold update. now rewrite str_eqb_refl.
Qed.

(* ================================================================== *)
(** * SystemLibraryMapper *)

Lemma colon_on_line_count (s : str) :
  colon_on_line s = true -> 1 <= count_colons s.
Proof.
  unfold count_colons. induction s as [|c r IH]; simpl; [discriminate|].
  destruct (Ascii.eqb c ":") eqn:E.
  - apply Ascii.eqb_eq in E. subst. intros _.
    destruct (ascii_dec ":" ":"); [lia | congruence].
  - destruct (is_line_terminator c); [discriminate|]. intros H.
    apply IH in H. destruct (ascii_dec c ":"); lia.
Qed.

Lemma has_two_colons_count (s : str) :
  has_two_colons s = true -> 2 <= count_colons s.
Proof.
  induction s as [|c r IH]; simpl; [discriminate|].
  rewrite orb_true_iff, andb_true_iff, Ascii.eqb_eq. intros [[-> H]|H].
  - apply colon_on_line_count in H. unfold count_colons in *. simpl.
    destruct (ascii_dec ":" ":"); [lia | congruence].
  - apply IH in H. unfold count_colons in *. simpl.
    destruct (ascii_dec c ":"); lia.
Qed.

Lemma single_line_colon (s : str) :
  single_line s = true -> 1 <= count_colons s -> colon_on_line s = true.
Proof.
  unfold single_line, count_colons. induction s as [|c r IH]; simpl; [lia|].
  rewrite andb_true_iff, negb_true_iff. intros [Hc Hr] Hn.
  destruct (Ascii.eqb c ":") eqn:E; [reflexivity|]. rewrite Hc.
  apply IH; [exact Hr|]. destruct (ascii_dec c ":") as [->|]; [|exact Hn].
  discriminate.
Qed.

Lemma single_line_two_colons (s : str) :
  single_line s = true -> 2 <= count_colons s -> has_two_colons s = true.
Proof.
  induction s as [|c r IH]; simpl; [unfold count_colons; simpl; lia|].
  rewrite andb_true_iff. intros [Hc Hr] Hn.
  apply orb_true_iff. unfold count_colons in Hn. simpl in Hn.
  destruct (ascii_dec c ":") as [->|Hne].
  - left. simpl. apply single_line_colon; [exact Hr | unfold count_colons; lia].
  - right. apply IH; [exact Hr | exact Hn].
Qed.

Lemma findAllUniq_single_line (data key v : str) :
  In v (findAllUniq data key) -> single_line v = true.
Proof.
  intros H. unfold findAllUniq in H. rewrite fold_obj_set_nil in H.
  apply (Permutation_in _ (Object_keys_perm _)) in H.
  apply (proj1 (first_seen_In _ _)) in H. apply filter_In in H as [H _].
  eapply exec_all_single_line. exact H.
Qed.

Lemma resolve_with_two_colons (table : list rule) (p : str) :
  has_two_colons p = true -> resolve_with table p = inr p.
Proof. intros H. unfold resolve_with. now rewrite H. Qed.

(** The loop stops at the first row whose pattern matches. *)
Lemma mapping_loop_first (pre : list rule) (r : rule) (post : list rule) (p : str) :
  (forall r', In r' pre -> r_exec r' p = None) ->
  r_exec r p <> None ->
  mapping_loop (pre ++ r :: post) p = Some (regexReplace (r_exec r) (r_template r) p).
Proof.
  intros Hpre Hr. induction pre as [|r0 pre IH]; simpl.
  - destruct (r_exec r p); [reflexivity | congruence].
  - rewrite (Hpre r0) by now left. apply IH. intros r' H. apply Hpre. now right.
Qed.

Lemma mapping_loop_none (table : list rule) (p : str) :
  (forall r, In r table -> r_exec r p = None) -> mapping_loop table p = None.
Proof.
  intros H. induction table as [|r0 t IH]; simpl; [reflexivity|].
  rewrite (H r0) by now left. apply IH. intros r Hr. apply H. now right.
Qed.

Lemma optional_slash_absent (body : str -> option (list str)) (c : ascii) (r : str)
    (caps : list str) :
  Ascii.eqb c "/" = false -> body (c :: r) = Some caps ->
  optional_slash body (c :: r) = Some (mkMatch 0 (c :: r) caps).
Proof. intros Hc Hb. unfold optional_slash. now rewrite Hc, Hb. Qed.

Lemma optional_slash_present (body : str -> option (list str)) (r : str)
    (caps : list str) :
  body r = Some caps ->
  optional_slash body ("/"%char :: r) = Some (mkMatch 0 ("/"%char :: r) caps).
Proof. intros Hb. unfold optional_slash. simpl. now rewrite Hb. Qed.

Lemma support_body_match (v : str) :
  single_line v = true -> support_body (SUPPORT_PREFIX ++ v) = Some [v].
Proof.
  intros Hv. unfold support_body. rewrite startsWith_app.
  rewrite skipn_app, Nat.sub_diag, skipn_all. simpl.
  unfold single_line in Hv. now rewrite Hv.
Qed.

Lemma exec_support_match (slash v : str) :
  slash = [] \/ slash = lit "/" ->
  single_line v = true ->
  exec_support (slash ++ SUPPORT_PREFIX ++ v)
  = Some (mkMatch 0 (slash ++ SUPPORT_PREFIX ++ v) [v]).
Proof.
  intros [-> | ->] Hv; unfold exec_support.
  - apply (optional_slash_absent support_body "e" (skipn 1 SUPPORT_PREFIX ++ v));
      [reflexivity|].
    exact (support_body_match v Hv).
  - apply (optional_slash_present support_body (SUPPORT_PREFIX ++ v)).
    exact (support_body_match v Hv).
Qed.

Lemma regexReplace_support (slash v : str) :
  slash = [] \/ slash = lit "/" ->
  single_line v = true ->
  regexReplace exec_support (lit "com.android.support:support-$1:+")
               (slash ++ SUPPORT_PREFIX ++ v)
  = lit "com.android.support:support-" ++ v ++ lit ":+".
Proof.
  intros Hs Hv. unfold regexReplace. rewrite (exec_support_match _ _ Hs Hv).
  cbn [m_index m_matched firstn Nat.add]. rewrite skipn_all, app_nil_r.
  reflexivity.
Qed.

(** C3: a system-library value, as the properties parser yields it, is
    returned unchanged, whatever the table, when it holds two colons or
    more; with fewer, the first row of the table whose pattern matches
    decides the result, which is that row's template with the captures
    filled in, whatever the later rows match.  For the table of the module
    the support path yields the support coordinate of its last segment and
    the play-services path yields the play-services coordinate. *)
Theorem resolve_passthrough_or_first_match (data p : str) :
  In p (systemLibs (parseProperties data)) ->
  (2 <= count_colons p -> forall table, resolve_with table p = inr p)
  /\ (count_colons p < 2 ->
      (forall pre r post,
          (forall r', In r' pre -> r_exec r' p = None) ->
          r_exec r p <> None ->
          mapping_loop (pre ++ r :: post) p
          = Some (regexReplace (r_exec r) (r_template r) p)
          /\ resolve_with (pre ++ r :: post) p
             = match regexReplace (r_exec r) (r_template r) p with
               | [] => inl (CordovaError (UNSUPPORTED ++ p))
               | ref => inr ref
               end)
      /\ (forall slash v,
             slash = [] \/ slash = lit "/" ->
             p = slash ++ SUPPORT_PREFIX ++ v ->
             resolve p = inr (lit "com.android.support:support-" ++ v ++ lit ":+"))
      /\ (forall slash slash',
             slash = [] \/ slash = lit "/" ->
             slash' = [] \/ slash' = lit "/" ->
             p = slash ++ PLAY_SERVICES_PATH ++ slash' ->
             resolve p = inr (lit "com.google.android.gms:play-services:+"))).
Proof.
  intros Hin. apply findAllUniq_single_line in Hin. split.
  - intros H2 table. apply resolve_with_two_colons.
    now apply single_line_two_colons.
  - intros Hlt.
    assert (Hno : has_two_colons p = false).
    { destruct (has_two_colons p) eqn:E; [|reflexivity].
      apply has_two_colons_count in E. lia. }
    split; [|split].
    + intros pre r post Hpre Hr.
      pose proof (mapping_loop_first pre r post p Hpre Hr) as Hloop.
      split; [exact Hloop|]. unfold resolve_with. rewrite Hno, Hloop.
      now destruct (regexReplace (r_exec r) (r_template r) p).
    + intros slash v Hs ->.
      assert (Hv : single_line v = true).
      { unfold single_line in *. rewrite !forallb_app in Hin.
        now apply andb_true_iff in Hin as [_ [_ Hv]%andb_true_iff]. }
      unfold resolve, resolve_with. rewrite Hno.
      unfold SYSTEM_LIBRARY_MAPPINGS, mapping_loop.
      cbn [r_exec r_template]. rewrite (exec_support_match _ _ Hs Hv).
      now rewrite (regexReplace_support _ _ Hs Hv).
    + intros slash slash' [-> | ->] [-> | ->] ->; reflexivity.
Qed.

(** The theorem at a properties text with one support library. *)
Lemma resolve_passthrough_or_first_match_witness :
  let data := lit "cordova.system.library.1=extras/android/support/v4" in
  let p := lit "extras/android/support/v4" in
  In p (systemLibs (parseProperties data))
  /\ resolve p = inr (lit "com.android.support:support-v4:+").
Proof.
  intros data p.
  assert (Hin : In p (systemLibs (parseProperties data))) by (now left).
  split; [exact Hin|].
  refine (proj1 (proj2 (proj2 (resolve_passthrough_or_first_match data p Hin) _))
            [] (lit "v4") (or_introl eq_refl) eq_refl).
  vm_compute. lia.
Defined.

Lemma resolve_unsupported (p : str) :
  has_two_colons p = false ->
  exec_support p = None -> exec_play_services p = None ->
  resolve p = inl (CordovaError (UNSUPPORTED ++ p)).
Proof.
  intros H0 H1 H2. unfold resolve, resolve_with. rewrite H0.
  rewrite mapping_loop_none; [reflexivity|].
  intros r [<-|[<-|[]]]; assumption.
Qed.

(** The loop over the system libraries stops at the first value that
    [resolve] rejects. *)
Lemma systemLibsLoop_unsupported (l : list str) (p : str) :
  In p l -> (exists e, resolve p = inl e) ->
  forall depsList,
  exists q, In q l /\ systemLibsLoop depsList l = inl (CordovaError (UNSUPPORTED ++ q)).
Proof.
  intros Hin [e He]. induction l as [|x l IH]; intros depsList; [destruct Hin|].
  simpl. destruct (resolve x) as [ex|ref] eqn:Ex.
  - exists x. split; [now left|]. f_equal.
    unfold resolve, resolve_with in Ex.
    destruct (has_two_colons x); [discriminate|].
    destruct (mapping_loop SYSTEM_LIBRARY_MAPPINGS x) as [[|c r]|];
      now inversion Ex.
  - destruct Hin as [->|Hin]; [congruence|].
    destruct (IH Hin (depsList ++ compileLine ref)) as (q & Hq & Hl).
    exists q. split; [now right | exact Hl].
Qed.

Section BuilderFacts.
Variable path_join : list str -> str.
Variable root : str.

Lemma insertExclude_reads (depsList p : str) (fs : FS) :
  fst (insertExclude path_join root depsList p fs) = fs.
Proof.
  unfold insertExclude, bind, readFileSync.
  destruct (fs (path_join [root; p; lit "build.gradle"])); [|reflexivity].
  now destruct (indexOf (lit "CordovaLib") s).
Qed.

Lemma subProjectsLoop_reads (name : str) (l : list str) :
  forall (depsList : str) (fs : FS),
    fst (subProjectsLoop path_join root name depsList l fs) = fs.
Proof.
  induction l as [|p l IH]; intros depsList fs; [reflexivity|].
  simpl. unfold bind.
  match goal with |- context [insertExclude ?pj ?r ?d ?q ?f] =>
    pose proof (insertExclude_reads d q f) as H;
    destruct (insertExclude pj r d q f) as [fs' [e|d']] end;
    simpl in H; subst; [reflexivity | apply IH].
Qed.

(** The second half of [prepBuildFiles] either throws and leaves the
    disk as it was, or writes the injected text to build.gradle. *)
Lemma injectBuildGradle_cases (name : str) (propertiesObj : properties) (fs : FS) :
  let file := path_join [root; lit "build.gradle"] in
  (exists e, injectBuildGradle path_join root name propertiesObj fs = (fs, inl e))
  \/ (exists buildGradle deps1 deps,
         fs file = Some buildGradle
         /\ subProjectsLoop path_join root name [] (libs propertiesObj) fs
            = (fs, inr deps1)
         /\ systemLibsLoop deps1 (systemLibs propertiesObj) = inr deps
         /\ injectBuildGradle path_join root name propertiesObj fs
            = (update file
                 (inject buildGradle deps (includeList (gradleIncludes propertiesObj))) fs,
               inr tt)).
Proof.
  intros file.
  remember (injectBuildGradle path_join root name propertiesObj fs) as run eqn:Hrun.
  unfold injectBuildGradle, bind, readFileSync, lift, writeFileSync in Hrun.
  fold file in Hrun.
  destruct (fs file) as [buildGradle|] eqn:Ef; [|left; eexists; exact Hrun].
  pose proof (subProjectsLoop_reads name (libs propertiesObj) [] fs) as Hr.
  destruct (subProjectsLoop path_join root name [] (libs propertiesObj) fs)
    as [fs' [e|deps1]] eqn:El; simpl in Hr; subst fs'; [left; eexists; exact Hrun|].
  destruct (systemLibsLoop deps1 (systemLibs propertiesObj)) as [e|deps] eqn:Es;
    [left; eexists; exact Hrun|].
  right. exists buildGradle, deps1, deps.
  split; [reflexivity|]. split; [reflexivity|]. split; [exact Es | exact Hrun].
Qed.
End BuilderFacts.

(** C4: a value with fewer than two colons that neither pattern of the
    table matches makes [resolve] throw the error whose message ends with
    the value; a list of system libraries that holds it never passes the
    loop (the loop throws for the first value it cannot resolve), and then
    [prepBuildFiles] throws instead of writing build.gradle. *)
Theorem unsupported_system_library_is_fatal (p : str) :
  count_colons p < 2 ->
  exec_support p = None ->
  exec_play_services p = None ->
  resolve p = inl (CordovaError (UNSUPPORTED ++ p))
  /\ (forall l depsList,
         In p l ->
         exists q, In q l
                   /\ systemLibsLoop depsList l = inl (CordovaError (UNSUPPORTED ++ q)))
  /\ (forall path_join root name propertiesObj fs,
         In p (systemLibs propertiesObj) ->
         exists e, injectBuildGradle path_join root name propertiesObj fs = (fs, inl e)).
Proof.
  intros Hlt H1 H2.
  assert (Hno : has_two_colons p = false).
  { destruct (has_two_colons p) eqn:E; [|reflexivity].
    apply has_two_colons_count in E. lia. }
  pose proof (resolve_unsupported p Hno H1 H2) as Hres.
  split; [exact Hres|]. split.
  - intros l depsList Hin. apply (systemLibsLoop_unsupported l p Hin).
    eexists. exact Hres.
  - intros path_join root name propertiesObj fs Hin.
    destruct (injectBuildGradle_cases path_join root name propertiesObj fs)
      as [He | (b & d1 & d & _ & _ & Hs & _)]; [exact He|].
    destruct (systemLibsLoop_unsupported _ p Hin (ex_intro _ _ Hres) d1)
      as (q & _ & Hq). congruence.
Qed.

(** The theorem at the value [some/random/path]. *)
Lemma unsupported_system_library_is_fatal_witness :
  resolve (lit "some/random/path")
  = inl (CordovaError (lit "Unsupported system library (does not work with gradle): some/random/path")).
Proof.
  refine (proj1 (unsupported_system_library_is_fatal (lit "some/random/path") _ _ _)).
  - vm_compute. lia.
  - reflexivity.
  - reflexivity.
Defined.

(* ================================================================== *)
(** * The signing properties in prepEnv and clean *)

Lemma preserves_ret {A} (q : str) (a : A) : preserves q (ret a).
Proof. intros fs. reflexivity. Qed.

Lemma preserves_throw {A} (q : str) (e : exn) : preserves q (@throw A e).
Proof. intros fs. reflexivity. Qed.

Lemma preserves_bind {A B} (q : str) (c : M A) (k : A -> M B) :
  preserves q c -> (forall a, preserves q (k a)) -> preserves q (bind c k).
Proof.
  intros Hc Hk fs. unfold bind. specialize (Hc fs).
  destruct (c fs) as [fs1 [e|a]]; simpl in *; [exact Hc|].
  rewrite (Hk a fs1). exact Hc.
Qed.

Lemma preserves_forEach {A} (q : str) (f : A -> M unit) (l : list A) :
  (forall a, preserves q (f a)) -> preserves q (forEach f l).
Proof.
  intros Hf. induction l as [|a l IH]; simpl.
  - apply preserves_ret.
  - apply preserves_bind; [apply Hf | intros _; exact IH].
Qed.

Lemma preserves_existsSync (q path : str) : preserves q (existsSync path).
Proof. intros fs. reflexivity. Qed.

Lemma preserves_readFileSync (q path : str) : preserves q (readFileSync path).
Proof. intros fs. unfold readFileSync. now destruct (fs path). Qed.

Lemma update_other (path data q : str) (fs : FS) :
  q <> path -> update path data fs q = fs q.
Proof. intros H. unfold update. apply str_eqb_neq in H. now rewrite H. Qed.

Lemma update_same (path data : str) (fs : FS) : update path data fs path = Some data.
Proof. unfold update. now rewrite str_eqb_refl. Qed.

Lemma preserves_writeFileSync (q path data : str) :
  q <> path -> preserves q (writeFileSync path data).
Proof. intros H fs. simpl. now apply update_other. Qed.

Lemma preserves_cp_f (q src dest : str) : q <> dest -> preserves q (cp_f src dest).
Proof.
  intros H fs. unfold cp_f. destruct (fs src); simpl; [now apply update_other | reflexivity].
Qed.

Lemma isAutoGenerated_ext (q : str) (fs fs' : FS) :
  fs' q = fs q -> isAutoGenerated q fs' = isAutoGenerated q fs.
Proof. intros H. unfold isAutoGenerated. now rewrite H. Qed.

Lemma isAutoGenerated_absent (q : str) (fs : FS) :
  fs q = None -> isAutoGenerated q fs = false.
Proof. intros H. unfold isAutoGenerated. now rewrite H. Qed.

Lemma preserves_spares {A} (q : str) (c : M A) : preserves q c -> spares q c.
Proof. intros H fs. left. apply H. Qed.

Lemma spares_bind {A B} (q : str) (c : M A) (k : A -> M B) :
  spares q c -> (forall a, spares q (k a)) -> spares q (bind c k).
Proof.
  intros Hc Hk fs. unfold bind. specialize (Hc fs).
  destruct (c fs) as [fs1 [e|a]]; simpl in *; [exact Hc|].
  destruct (Hk a fs1) as [H2 | [H2 H3]]; destruct Hc as [H1 | [H0 H1]].
  - left. congruence.
  - right. split; [exact H0 | congruence].
  - right. split; [|exact H3]. now rewrite <- (isAutoGenerated_ext q fs fs1 H1).
  - right. split; [exact H0 | exact H3].
Qed.

Lemma spares_forEach {A} (q : str) (f : A -> M unit) (l : list A) :
  (forall a, spares q (f a)) -> spares q (forEach f l).
Proof.
  intros Hf. induction l as [|a l IH]; simpl.
  - apply preserves_spares, preserves_ret.
  - apply spares_bind; [apply Hf | intros _; exact IH].
Qed.

(** The guarded removal of both operations. *)
Lemma spares_guarded_rm (q file : str) :
  spares q (fun fs => if isAutoGenerated file fs then rm_f file fs else (fs, inr tt)).
Proof.
  intros fs. destruct (isAutoGenerated file fs) eqn:E; [|now left].
  simpl. unfold remove. destruct (str_eqb q file) eqn:Eq; [|now left].
  apply str_eqb_eq in Eq. subst. now right.
Qed.

Lemma spares_unmarked {A} (q : str) (c : M A) (fs : FS) :
  spares q c -> isAutoGenerated q fs = false -> fst (c fs) q = fs q.
Proof. intros H Hq. destruct (H fs) as [H1 | [H0 _]]; [exact H1 | congruence]. Qed.

Section SigningProperties.
Variable path_join : list str -> str.
Variable root : str.
Variable spawn : str -> list str -> M unit.
Variable check_gradle : M str.
Variable sed_distributionUrl : str -> str.
Variable below : str -> str -> bool.

Lemma spares_prepSigningProperties (q : str) (opts : options) :
  packageInfo opts = None -> spares q (prepSigningProperties path_join root opts).
Proof.
  intros H. unfold prepSigningProperties. rewrite H. apply spares_guarded_rm.
Qed.

Lemma spares_cleanSigningProperties (q : str) :
  spares q (cleanSigningProperties path_join root).
Proof.
  unfold cleanSigningProperties. apply spares_forEach. intros config.
  apply spares_guarded_rm.
Qed.

Variable q : str.
Hypothesis q_sub : forall p, q <> path_join [root; p; lit "build.gradle"].
Hypothesis q_settings : q <> path_join [root; lit "settings.gradle"].
Hypothesis q_build : q <> path_join [root; lit "build.gradle"].

Lemma preserves_injectBuildGradle (name : str) (propertiesObj : properties) :
  preserves q (injectBuildGradle path_join root name propertiesObj).
Proof.
  intros fs.
  destruct (injectBuildGradle_cases path_join root name propertiesObj fs)
    as [[e ->] | (b & d1 & d & _ & _ & _ & ->)]; simpl; [reflexivity|].
  now apply update_other.
Qed.

Lemma preserves_prepBuildFiles : preserves q (prepBuildFiles path_join root).
Proof.
  unfold prepBuildFiles. apply preserves_bind.
  { unfold readProjectProperties. apply preserves_bind.
    - apply preserves_readFileSync.
    - intros data. apply preserves_ret. }
  intros propertiesObj. apply preserves_bind.
  { apply preserves_forEach. intros p.
    destruct (negb (str_eqb p (lit "CordovaLib")) && negb (str_eqb p (lit "app")));
      [|apply preserves_ret].
    unfold checkAndCopy. apply preserves_bind; [apply preserves_existsSync|].
    intros [|]; [apply preserves_ret | apply preserves_cp_f, q_sub]. }
  intros _. apply preserves_bind.
  { unfold extractRealProjectNameFromManifest. apply preserves_bind.
    - apply preserves_readFileSync.
    - intros manifestData. destruct (exec_manifest manifestData);
        [apply preserves_ret | apply preserves_throw]. }
  intros name. apply preserves_bind.
  { unfold writeSettingsGradle. apply preserves_writeFileSync, q_settings. }
  intros _. apply preserves_injectBuildGradle.
Qed.
End SigningProperties.

Lemma app_last_differs (x y : str) (a b : ascii) :
  a <> b -> x ++ [a] <> y ++ [b].
Proof. intros Hne H. apply app_inj_tail in H as [_ H]. congruence. Qed.

Lemma preserves_sed_i (sed_distributionUrl : str -> str) (q file : str) :
  q <> file -> preserves q (sed_i sed_distributionUrl file).
Proof.
  intros H fs. unfold sed_i. destruct (fs file); simpl; [now apply update_other | reflexivity].
Qed.

Lemma preserves_rm_rf (below : str -> str -> bool) (q dir : str) :
  q <> dir -> below dir q = false -> preserves q (rm_rf below dir).
Proof.
  intros H Hb fs. unfold rm_rf. simpl. apply str_eqb_neq in H. now rewrite H, Hb.
Qed.

(** C9: let the gradle check, the spawned processes and the other files
    that [prepEnv] and [clean] write (build.gradle of the project and of its
    sub-projects, settings.gradle, the wrapper properties, the directory
    [out]) be apart from the signing properties of a build variant.  Then,
    without a credentials payload, [prepEnv] and [clean], and within them the
    steps on the signing properties, either leave that file as it is or
    remove it, and they remove it only when [isAutoGenerated] holds of it: a
    file for which [isAutoGenerated] fails keeps its content. *)
Theorem signing_properties_removed_only_if_auto_generated
    (path_join : list str -> str) (root : str)
    (spawn : str -> list str -> M unit) (check_gradle : M str)
    (sed_distributionUrl : str -> str) (below : str -> str -> bool)
    (opts : options) (config : str) :
  let file := path_join [root; config ++ SIGNING_PROPERTIES] in
  let run_prepEnv :=
    prepEnv path_join root spawn check_gradle sed_distributionUrl opts in
  let run_clean := clean path_join root spawn below opts in
  packageInfo opts = None ->
  preserves file check_gradle ->
  (forall cmd args, preserves file (spawn cmd args)) ->
  (forall p, file <> path_join [root; p; lit "build.gradle"]) ->
  file <> path_join [root; lit "settings.gradle"] ->
  file <> path_join [root; lit "build.gradle"] ->
  file <> path_join [root; lit "gradle"; lit "wrapper"; lit "gradle-wrapper.properties"] ->
  file <> path_join [root; lit "out"] ->
  below (path_join [root; lit "out"]) file = false ->
  forall fs,
    (spares file (prepSigningProperties path_join root opts)
     /\ spares file (cleanSigningProperties path_join root))
    /\ (fst (run_prepEnv fs) file = fs file
        \/ (isAutoGenerated file fs = true /\ fst (run_prepEnv fs) file = None))
    /\ (fst (run_clean fs) file = fs file
        \/ (isAutoGenerated file fs = true /\ fst (run_clean fs) file = None))
    /\ (isAutoGenerated file fs = false ->
        fst (run_prepEnv fs) file = fs file /\ fst (run_clean fs) file = fs file)
    /\ ((forall data i, fs file = Some data -> 0 < i -> ~ occ MARKER data i) ->
        fst (run_prepEnv fs) file = fs file /\ fst (run_clean fs) file = fs file).
Proof.
  intros file run_prepEnv run_clean Hnone Hcheck Hspawn Hsub Hset Hbuild Hwrap Hout Hbelow fs.
  assert (Hprep : spares file run_prepEnv).
  { unfold run_prepEnv, prepEnv.
    apply spares_bind; [now apply preserves_spares|]. intros gradlePath.
    apply spares_bind.
    { apply preserves_spares. unfold runGradleWrapper.
      apply preserves_bind; [apply preserves_existsSync|].
      intros [|]; [apply preserves_ret | apply Hspawn]. }
    intros _. apply spares_bind.
    { apply preserves_spares. now apply preserves_prepBuildFiles. }
    intros _. apply spares_bind.
    { apply preserves_spares. now apply preserves_sed_i. }
    intros _. now apply spares_prepSigningProperties. }
  assert (Hclean : spares file run_clean).
  { unfold run_clean, clean.
    apply spares_bind; [apply preserves_spares, Hspawn|]. intros _.
    apply spares_bind; [now apply preserves_spares, preserves_rm_rf|]. intros _.
    apply spares_cleanSigningProperties. }
  split; [split|split; [|split; [|split]]].
  - now apply spares_prepSigningProperties.
  - apply spares_cleanSigningProperties.
  - apply Hprep.
  - apply Hclean.
  - intros Hq. split; now apply spares_unmarked.
  - intros Hfree.
    assert (Hq : isAutoGenerated file fs = false).
    { destruct (isAutoGenerated file fs) eqn:E; [|reflexivity].
      apply isAutoGenerated_indexOf in E as (data & i & Hd & Hi).
      apply indexOf_occ in Hi as [Hi _].
      exfalso. apply (Hfree data (S i) Hd); [lia | exact Hi]. }
    split; now apply spares_unmarked.
Qed.

(** The theorem on a disk whose only file is a hand-written
    [debug-signing.properties]: both operations keep it. *)
Lemma signing_properties_removed_only_if_auto_generated_witness :
  let spawn := fun (_ : str) (_ : list str) => @ret unit tt in
  let check_gradle := ret (lit "gradle") in
  let below := fun dir q => startsWith (dir ++ lit "/") q in
  let opts := mkOptions (lit "debug") None [] None in
  let file := lit "proj/debug-signing.properties" in
  let fs := update file (lit "storeFile=my.keystore") no_files in
  fst (prepEnv slash_join (lit "proj") spawn check_gradle (fun d => d) opts fs) file
  = Some (lit "storeFile=my.keystore")
  /\ fst (clean slash_join (lit "proj") spawn below opts fs) file
     = Some (lit "storeFile=my.keystore").
Proof.
  intros spawn check_gradle below opts file fs.
  refine (proj1 (proj2 (proj2 (proj2
    (signing_properties_removed_only_if_auto_generated
       slash_join (lit "proj") spawn check_gradle (fun d => d) below opts (lit "debug")
       eq_refl _ _ _ _ _ _ _ _ fs)))) _).
  - intros fs0. reflexivity.
  - intros cmd args fs0. reflexivity.
  - intros p H.
    assert (E : slash_join [lit "proj"; p; lit "build.gradle"]
                = (lit "proj/" ++ p ++ lit "/build.gradl") ++ ["e"%char])
      by (simpl; rewrite <- !app_assoc; reflexivity).
    apply (app_last_differs (lit "proj/debug-signing.propertie")
             (lit "proj/" ++ p ++ lit "/build.gradl") "s" "e"); [discriminate|].
    rewrite <- E. exact H.
  - vm_compute. discriminate.
  - vm_compute. discriminate.
  - vm_compute. discriminate.
  - vm_compute. discriminate.
  - reflexivity.
  - reflexivity.
Defined.

(* ================================================================== *)
(** * DependencyBlockInjector: the two marker regions *)

Lemma getSubstitution_plain (s : str) (m : rmatch) (t u : str) :
  dollar_free t = true ->
  getSubstitution s m (t ++ u) = t ++ getSubstitution s m u.
Proof.
  unfold dollar_free. induction t as [|c r IH]; intros H; [reflexivity|].
  simpl in H. apply andb_true_iff in H as [Hc Hr].
  apply negb_true_iff in Hc. simpl. rewrite Hc. f_equal. now apply IH.
Qed.

(** The template of either replacement, when the generated text has no
    [$]: the first capture, the text, the second capture. *)
Lemma getSubstitution_region (s : str) (i : nat) (matched START END body : str) :
  dollar_free body = true ->
  getSubstitution s (mkMatch i matched [START; END])
                  (lit "$1" ++ [nl] ++ body ++ lit "$2")
  = START ++ [nl] ++ body ++ END.
Proof.
  intros H.
  change (lit "$1" ++ [nl] ++ body ++ lit "$2")
    with ("$"%char :: "1"%char :: nl :: (body ++ lit "$2")).
  cbn [getSubstitution]. change (Ascii.eqb "$" "$") with true. cbv iota.
  change (Ascii.eqb "1" "$") with false. change (Ascii.eqb "1" "`") with false.
  change (Ascii.eqb "1" "&") with false. change (Ascii.eqb "1" "'") with false.
  change (is_digit "1") with true. change (is_digit nl) with false.
  change (Ascii.eqb nl "$") with false. cbv iota.
  change (capture_or (mkMatch i matched [START; END]) ["$"%char; "1"%char] (digit_val "1"))
    with START.
  simpl app. do 2 f_equal.
  rewrite getSubstitution_plain by exact H. f_equal.
  simpl. apply app_nil_r.
Qed.

Lemma exec_region_from_skip (START END : str) (n : nat) :
  forall (i : nat) (t : str),
    (forall k, k < n -> ~ occ START t k) ->
    exec_region_from START END i t = exec_region_from START END (i + n) (skipn n t).
Proof.
  induction n as [|n IH]; intros i t H.
  - now rewrite Nat.add_0_r.
  - assert (H0 : startsWith START t = false).
    { destruct (startsWith START t) eqn:E; [|reflexivity].
      exfalso. apply (H 0); [lia | exact E]. }
    destruct t as [|c r].
    + simpl. rewrite H0. reflexivity.
    + simpl exec_region_from at 1. rewrite H0. simpl skipn.
      rewrite IH; [f_equal; lia|].
      intros k Hk. rewrite <- (occ_S START c). apply H. lia.
Qed.

Lemma last_at_lastIndexOf (p s : str) (j : nat) :
  p <> [] -> last_at p s j -> lastIndexOf p s = Some j.
Proof.
  intros Hp [H1 H2]. pose proof (occ_bound _ _ _ Hp H1).
  apply lastIndexOf_last; [lia | exact H1 | intros k Hk _; now apply H2].
Qed.

Lemma lastIndexOf_last_at (p s : str) (j : nat) :
  p <> [] -> lastIndexOf p s = Some j -> last_at p s j.
Proof.
  intros Hp H. apply lastIndexOf_occ in H as (H1 & H0 & H2).
  split; [exact H1|]. intros k Hk Hc.
  pose proof (occ_bound _ _ _ Hp Hc). apply (H2 k Hk); [lia | exact Hc].
Qed.

Lemma indexOf_first_at (p s : str) (i : nat) :
  indexOf p s = Some i <-> first_at p s i.
Proof.
  split; [apply indexOf_occ|]. intros [H1 H2]. now apply indexOf_first.
Qed.

Lemma exec_region_from_here (START END : str) (i : nat) (t : str) (k : nat) :
  startsWith START t = true ->
  lastIndexOf END (skipn (length START) t) = Some k ->
  exec_region_from START END i t
  = Some (mkMatch i (firstn (length START + k + length END) t) [START; END]).
Proof.
  intros H1 H2. destruct t as [|c r]; cbn [exec_region_from]; now rewrite H1, H2.
Qed.

(** Where the pattern of a pair matches: from the leftmost [START] to the
    rightmost [END]. *)
Lemma exec_region_at (START END pre body post : str) :
  END <> [] ->
  first_at START (pre ++ START ++ body ++ END ++ post) (length pre) ->
  last_at END (pre ++ START ++ body ++ END ++ post) (length (pre ++ START ++ body)) ->
  exec_region START END (pre ++ START ++ body ++ END ++ post)
  = Some (mkMatch (length pre) (START ++ body ++ END) [START; END]).
Proof.
  intros HE [_ Hfirst] [_ Hlast]. unfold exec_region.
  rewrite (exec_region_from_skip START END (length pre) 0 _ Hfirst).
  rewrite skipn_app, Nat.sub_diag, skipn_all. simpl app at 1.
  rewrite (exec_region_from_here START END _ _ (length body)).
  - simpl. do 2 f_equal.
    rewrite !app_assoc. rewrite firstn_app.
    replace (length START + length body + length END
             - length ((START ++ body) ++ END)) with 0
      by (rewrite !length_app; lia).
    rewrite firstn_all2 by (rewrite !length_app; lia).
    simpl. apply app_nil_r.
  - apply startsWith_app.
  - rewrite skipn_app, Nat.sub_diag, skipn_all. simpl.
    apply last_at_lastIndexOf; [exact HE|]. split; [apply occ_app_at|].
    intros k Hk Hc. apply (Hlast (length (pre ++ START) + k)).
    + rewrite !length_app. lia.
    + rewrite (app_assoc pre START). now apply occ_app_r.
Qed.

Lemma regexReplace_region (START END pre old post body : str) :
  END <> [] ->
  dollar_free body = true ->
  first_at START (pre ++ START ++ old ++ END ++ post) (length pre) ->
  last_at END (pre ++ START ++ old ++ END ++ post) (length (pre ++ START ++ old)) ->
  regexReplace (exec_region START END) (lit "$1" ++ [nl] ++ body ++ lit "$2")
               (pre ++ START ++ old ++ END ++ post)
  = pre ++ START ++ [nl] ++ body ++ END ++ post.
Proof.
  intros HE Hd Hf Hl. unfold regexReplace.
  rewrite (exec_region_at START END pre old post HE Hf Hl).
  rewrite getSubstitution_region by exact Hd.
  cbn [m_index m_matched].
  rewrite firstn_app, Nat.sub_diag, firstn_all. simpl firstn. rewrite app_nil_r.
  f_equal. rewrite <- !app_assoc. do 3 f_equal.
  rewrite skipn_app.
  replace (length pre + length (START ++ old ++ END) - length pre)
    with (length (START ++ old ++ END)) by lia.
  rewrite skipn_all2 by lia. simpl.
  rewrite !app_assoc. rewrite skipn_app, Nat.sub_diag, skipn_all.
  reflexivity.
Qed.

(** When the pattern of a pair does not match, the replacement keeps the
    text. *)
Lemma exec_region_from_absent (START END : str) :
  forall (i : nat) (t : str),
    (forall k, ~ occ START t k) \/ (forall k, k <= length t -> ~ occ END t k) ->
    exec_region_from START END i t = None.
Proof.
  intros i t. revert i. induction t as [|c r IH]; intros i H.
  - cbn [exec_region_from].
    destruct (startsWith START []) eqn:E1; [|reflexivity].
    destruct H as [H|H]; [exfalso; exact (H 0 E1)|].
    destruct (lastIndexOf END (skipn (length START) [])) as [k|] eqn:E2; [|reflexivity].
    exfalso. rewrite skipn_nil in E2. apply lastIndexOf_occ in E2 as (E2 & Hk & _).
    simpl in Hk. assert (k = 0) by lia. subst. exact (H 0 (le_n _) E2).
  - cbn [exec_region_from].
    assert (Hr : (forall k, ~ occ START r k) \/ (forall k, k <= length r -> ~ occ END r k)).
    { destruct H as [H|H]; [left|right]; intros k.
      - rewrite <- (occ_S START c). apply H.
      - intros Hk. rewrite <- (occ_S END c). apply H. simpl. lia. }
    destruct (startsWith START (c :: r)) eqn:E1; [|now apply IH].
    destruct H as [H|H]; [exfalso; exact (H 0 E1)|].
    destruct (lastIndexOf END (skipn (length START) (c :: r))) as [k|] eqn:E2;
      [|now apply IH].
    exfalso. apply lastIndexOf_occ in E2 as (E2 & Hk & _).
    apply startsWith_length in E1. rewrite length_skipn in Hk.
    apply (H (length START + k)); [lia|].
    unfold occ in *. now rewrite Nat.add_comm, <- skipn_skipn.
Qed.

Lemma regexReplace_absent (START END template s : str) :
  indexOf START s = None \/ lastIndexOf END s = None ->
  regexReplace (exec_region START END) template s = s.
Proof.
  intros H. unfold regexReplace, exec_region.
  rewrite exec_region_from_absent; [reflexivity|].
  destruct H as [H|H]; [left | right].
  - now apply indexOf_None.
  - now apply lastIndexOf_None.
Qed.

(** ** Occurrences of a marker around a rewritten region *)

Lemma occ_nth (M s : str) (k p : nat) :
  occ M s k -> p < length M -> nth_error s (k + p) = nth_error M p.
Proof.
  intros H Hp. apply occ_iff in H as [r Hr].
  rewrite <- nth_error_skipn, Hr. now apply nth_error_app1.
Qed.

Lemma marker_like_facts (M : str) :
  marker_like M = true ->
  M <> [] /\ ~ In nl M /\ forall r, ~ startsWith M (" "%char :: r) = true.
Proof.
  unfold marker_like. destruct M as [|c M']; [discriminate|].
  rewrite andb_true_iff, negb_true_iff. intros [Hc Hn].
  split; [discriminate|]. split.
  - intros Hin. rewrite forallb_forall in Hn. apply Hn in Hin.
    rewrite Ascii.eqb_refl in Hin. discriminate.
  - intros r. simpl. rewrite Hc. discriminate.
Qed.

(** An occurrence cannot run over a character that the pattern lacks. *)
Lemma occ_sep (M x y : str) (c : ascii) (k : nat) :
  M <> [] -> ~ In c M ->
  occ M (x ++ c :: y) k ->
  (occ M x k /\ k + length M <= length x)
  \/ (exists k', k = length x + 1 + k' /\ occ M y k').
Proof.
  intros HM Hc H.
  destruct (le_lt_dec (k + length M) (length x)) as [Hl|Hl].
  - left. split; [|exact Hl]. now apply (occ_app_l M x (c :: y) k Hl).
  - destruct (le_lt_dec k (length x)) as [Hk|Hk].
    + exfalso. apply Hc.
      pose proof (occ_nth M _ k (length x - k) H ltac:(lia)) as Hn.
      replace (k + (length x - k)) with (length x) in Hn by lia.
      rewrite nth_error_app2, Nat.sub_diag in Hn by lia. simpl in Hn.
      symmetry in Hn. now apply nth_error_In in Hn.
    + right. exists (k - length x - 1). split; [lia|].
      replace k with (length x + S (k - length x - 1)) in H by lia.
      apply occ_app_r in H. exact H.
Qed.

Lemma occ_pad (M pad y : str) (k : nat) :
  marker_like M = true ->
  Forall (eq " "%char) pad ->
  occ M (pad ++ y) k -> exists k', k = length pad + k' /\ occ M y k'.
Proof.
  intros HM Hpad. apply marker_like_facts in HM as (_ & _ & Hsp).
  revert k. induction Hpad as [|c pad Hc Hpad IH]; intros k H.
  - now exists k.
  - subst c. destruct k as [|k].
    + exfalso. exact (Hsp _ H).
    + simpl in H. rewrite occ_S in H. destruct (IH k H) as (k' & -> & Hk').
      exists k'. split; [reflexivity | exact Hk'].
Qed.

Section RewrittenRegion.
Variable M : str.
Hypothesis M_marker : marker_like M = true.

(** The new content of the region: a line feed, whole lines without
    the marker, and spaces. *)
Variables d pad : str.
Hypothesis d_lines : lines d.
Hypothesis d_free : indexOf M d = None.
Hypothesis pad_spaces : Forall (eq " "%char) pad.

Variables X old Y : str.

Lemma occ_body (k : nat) :
  occ M (X ++ (nl :: d ++ pad) ++ Y) k ->
  (occ M X k /\ k + length M <= length X)
  \/ (exists k', k = length X + length (nl :: d ++ pad) + k' /\ occ M Y k').
Proof.
  destruct (marker_like_facts M M_marker) as (HM & Hnl & _).
  simpl app. rewrite <- app_assoc. intros H.
  apply occ_sep in H as [H | (k1 & -> & H)]; [now left | | exact HM | exact Hnl].
  right. cbn [length]. rewrite length_app.
  destruct d_lines as [Hd | [d' Hd]].
  - rewrite Hd in *. simpl in *.
    apply occ_pad in H as (k' & -> & H); [|exact M_marker | exact pad_spaces].
    exists k'. split; [lia | exact H].
  - rewrite Hd in H. rewrite <- app_assoc in H. simpl in H.
    apply occ_sep in H as [[H _] | (k2 & -> & H)]; [| | exact HM | exact Hnl].
    + exfalso. apply (indexOf_None _ _ d_free k1). rewrite Hd.
      pose proof (occ_bound _ _ _ HM H). now apply occ_app_l.
    + apply occ_pad in H as (k' & -> & H); [|exact M_marker | exact pad_spaces].
      exists k'. split; [|exact H]. rewrite Hd, length_app. simpl. lia.
Qed.

Lemma marker_length : 0 < length M.
Proof.
  destruct (marker_like_facts M M_marker) as (HM & _).
  destruct M; [congruence | simpl; lia].
Qed.

Lemma occ_right_old (k : nat) :
  occ M (X ++ old ++ Y) (length X + length old + k) <-> occ M Y k.
Proof.
  rewrite <- Nat.add_assoc, occ_app_r. apply occ_app_r.
Qed.

Lemma occ_right_body (k : nat) :
  occ M (X ++ (nl :: d ++ pad) ++ Y) (length X + length (nl :: d ++ pad) + k) <-> occ M Y k.
Proof.
  rewrite <- Nat.add_assoc, occ_app_r. apply occ_app_r.
Qed.

Lemma first_at_keep_left (i : nat) :
  first_at M (X ++ old ++ Y) i -> i + length M <= length X ->
  first_at M (X ++ (nl :: d ++ pad) ++ Y) i.
Proof.
  pose proof marker_length as HM.
  intros [H1 H2] Hi. split.
  - apply occ_app_l; [exact Hi|]. now apply (occ_app_l M X (old ++ Y) i Hi).
  - intros k Hk Hc. apply occ_body in Hc as [[Hc Hb] | (k' & -> & _)]; [|lia].
    apply (H2 k Hk). now apply occ_app_l.
Qed.

Lemma first_at_keep_right (i : nat) :
  first_at M (X ++ old ++ Y) (length X + length old + i) ->
  first_at M (X ++ (nl :: d ++ pad) ++ Y) (length X + length (nl :: d ++ pad) + i).
Proof.
  pose proof marker_length as HM.
  intros [H1 H2]. split.
  - apply occ_right_body. now apply occ_right_old in H1.
  - intros k Hk Hc. apply occ_body in Hc as [[Hc Hb] | (k' & -> & Hc)].
    + apply (H2 k); [lia|]. now apply occ_app_l.
    + apply (H2 (length X + length old + k')); [lia|]. now apply occ_right_old.
Qed.

Lemma last_at_keep_left (j : nat) :
  last_at M (X ++ old ++ Y) j -> j + length M <= length X ->
  last_at M (X ++ (nl :: d ++ pad) ++ Y) j.
Proof.
  pose proof marker_length as HM.
  intros [H1 H2] Hj. split.
  - apply occ_app_l; [exact Hj|]. now apply (occ_app_l M X (old ++ Y) j Hj).
  - intros k Hk Hc. apply occ_body in Hc as [[Hc Hb] | (k' & -> & Hc)].
    + apply (H2 k Hk). now apply occ_app_l.
    + apply (H2 (length X + length old + k')); [lia|]. now apply occ_right_old.
Qed.

Lemma last_at_keep_right (j : nat) :
  last_at M (X ++ old ++ Y) (length X + length old + j) ->
  last_at M (X ++ (nl :: d ++ pad) ++ Y) (length X + length (nl :: d ++ pad) + j).
Proof.
  pose proof marker_length as HM.
  intros [H1 H2]. split.
  - apply occ_right_body. now apply occ_right_old in H1.
  - intros k Hk Hc. apply occ_body in Hc as [[Hc Hb] | (k' & -> & Hc)]; [lia|].
    apply (H2 (length X + length old + k')); [lia|]. now apply occ_right_old.
Qed.
End RewrittenRegion.

(** Where the leftmost (or rightmost) occurrence of a marker is after the
    region between [X] and [Y] is rewritten: at its place when it lies in
    [X], moved with [Y] when it lies there. *)
Lemma first_at_moves (M d pad X old Y s s' : str) (i i' : nat) :
  marker_like M = true -> lines d -> indexOf M d = None ->
  Forall (eq " "%char) pad ->
  s = X ++ old ++ Y -> s' = X ++ (nl :: d ++ pad) ++ Y ->
  first_at M s i ->
  (i + length M <= length X /\ i' = i)
  \/ (length X + length old <= i /\ i' + length old = i + length (nl :: d ++ pad)) ->
  first_at M s' i'.
Proof.
  intros HM Hd Hfree Hpad -> -> H [[Hi ->] | [Hi Hi']].
  - now apply first_at_keep_left with (old := old).
  - replace i' with (length X + length (nl :: d ++ pad) + (i - length X - length old))
      by lia.
    apply first_at_keep_right with (old := old); try assumption.
    now replace (length X + length old + (i - length X - length old)) with i by lia.
Qed.

Lemma last_at_moves (M d pad X old Y s s' : str) (j j' : nat) :
  marker_like M = true -> lines d -> indexOf M d = None ->
  Forall (eq " "%char) pad ->
  s = X ++ old ++ Y -> s' = X ++ (nl :: d ++ pad) ++ Y ->
  last_at M s j ->
  (j + length M <= length X /\ j' = j)
  \/ (length X + length old <= j /\ j' + length old = j + length (nl :: d ++ pad)) ->
  last_at M s' j'.
Proof.
  intros HM Hd Hfree Hpad -> -> H [[Hj ->] | [Hj Hj']].
  - now apply last_at_keep_left with (old := old).
  - replace j' with (length X + length (nl :: d ++ pad) + (j - length X - length old))
      by lia.
    apply last_at_keep_right with (old := old); try assumption.
    now replace (length X + length old + (j - length X - length old)) with j by lia.
Qed.

Lemma marker_like_nonempty (M : str) : marker_like M = true -> M <> [].
Proof. intros H. now apply marker_like_facts in H. Qed.

Lemma dollar_free_pad (d pad : str) :
  dollar_free d = true -> Forall (eq " "%char) pad -> dollar_free (d ++ pad) = true.
Proof.
  unfold dollar_free. intros Hd Hp. rewrite forallb_app, Hd. simpl.
  apply forallb_forall. intros c Hc. rewrite Forall_forall in Hp.
  now rewrite <- (Hp c Hc).
Qed.

Section TwoRegions.
Variables Sa Ea Sb Eb : str.
Hypothesis Sa_marker : marker_like Sa = true.
Hypothesis Ea_marker : marker_like Ea = true.
Hypothesis Sb_marker : marker_like Sb = true.
Hypothesis Eb_marker : marker_like Eb = true.

Variables d pad : str.
Hypothesis d_lines : lines d.
Hypothesis d_dollar : dollar_free d = true.
Hypothesis pad_spaces : Forall (eq " "%char) pad.
Hypothesis d_free : forall M, In M [Sa; Ea; Sb; Eb] -> indexOf M d = None.

Lemma placed_facts (pre x mid y post : str) :
  placed Sa Ea Sb Eb pre x mid y post <->
  let s := two_regions Sa Ea Sb Eb pre x mid y post in
  first_at Sa s (length pre)
  /\ last_at Ea s (length (pre ++ Sa ++ x))
  /\ first_at Sb s (length (pre ++ Sa ++ x ++ Ea ++ mid))
  /\ last_at Eb s (length (pre ++ Sa ++ x ++ Ea ++ mid ++ Sb ++ y)).
Proof.
  unfold placed. cbv zeta. rewrite !indexOf_first_at.
  pose proof (marker_like_nonempty _ Ea_marker) as HEa.
  pose proof (marker_like_nonempty _ Eb_marker) as HEb.
  split; intros (H1 & H2 & H3 & H4); (split; [exact H1|]; split; [|split; [exact H3|]]).
  - now apply lastIndexOf_last_at.
  - now apply lastIndexOf_last_at.
  - now apply last_at_lastIndexOf.
  - now apply last_at_lastIndexOf.
Qed.

Lemma replace_first_pair (pre x mid y post : str) :
  placed Sa Ea Sb Eb pre x mid y post ->
  regexReplace (exec_region Sa Ea) (lit "$1" ++ [nl] ++ (d ++ pad) ++ lit "$2")
               (two_regions Sa Ea Sb Eb pre x mid y post)
  = two_regions Sa Ea Sb Eb pre (nl :: d ++ pad) mid y post
  /\ placed Sa Ea Sb Eb pre (nl :: d ++ pad) mid y post.
Proof.
  intros H. apply placed_facts in H. cbv zeta in H. destruct H as (F1 & L1 & F2 & L2).
  pose proof (marker_length Sa Sa_marker) as HlSa.
  pose proof (marker_length Ea Ea_marker) as HlEa.
  split.
  - unfold two_regions in *.
    rewrite regexReplace_region;
      first [ assumption | reflexivity
            | now apply marker_like_nonempty | now apply dollar_free_pad ].
  - apply placed_facts. cbv zeta. unfold two_regions in *.
    assert (Hs : pre ++ Sa ++ x ++ Ea ++ mid ++ Sb ++ y ++ Eb ++ post
                 = (pre ++ Sa) ++ x ++ (Ea ++ mid ++ Sb ++ y ++ Eb ++ post))
      by now rewrite <- !app_assoc.
    assert (Hs' : pre ++ Sa ++ (nl :: d ++ pad) ++ Ea ++ mid ++ Sb ++ y ++ Eb ++ post
                  = (pre ++ Sa) ++ (nl :: d ++ pad) ++ (Ea ++ mid ++ Sb ++ y ++ Eb ++ post))
      by now rewrite <- !app_assoc.
    split; [|split; [|split]].
    + refine (first_at_moves Sa d pad _ _ _ _ _ _ _ Sa_marker d_lines
                (d_free Sa ltac:(simpl; tauto)) pad_spaces Hs Hs' F1 _).
      left. rewrite !length_app. lia.
    + refine (last_at_moves Ea d pad _ _ _ _ _ _ _ Ea_marker d_lines
                (d_free Ea ltac:(simpl; tauto)) pad_spaces Hs Hs' L1 _).
      right. rewrite !length_app. lia.
    + refine (first_at_moves Sb d pad _ _ _ _ _ _ _ Sb_marker d_lines
                (d_free Sb ltac:(simpl; tauto)) pad_spaces Hs Hs' F2 _).
      right. rewrite !length_app. lia.
    + refine (last_at_moves Eb d pad _ _ _ _ _ _ _ Eb_marker d_lines
                (d_free Eb ltac:(simpl; tauto)) pad_spaces Hs Hs' L2 _).
      right. rewrite !length_app. lia.
Qed.

Lemma replace_second_pair (pre x mid y post : str) :
  placed Sa Ea Sb Eb pre x mid y post ->
  regexReplace (exec_region Sb Eb) (lit "$1" ++ [nl] ++ (d ++ pad) ++ lit "$2")
               (two_regions Sa Ea Sb Eb pre x mid y post)
  = two_regions Sa Ea Sb Eb pre x mid (nl :: d ++ pad) post
  /\ placed Sa Ea Sb Eb pre x mid (nl :: d ++ pad) post.
Proof.
  intros H. apply placed_facts in H. cbv zeta in H. destruct H as (F1 & L1 & F2 & L2).
  pose proof (marker_length Sa Sa_marker) as HlSa.
  pose proof (marker_length Ea Ea_marker) as HlEa.
  pose proof (marker_length Sb Sb_marker) as HlSb.
  unfold two_regions in *.
  assert (Hs : pre ++ Sa ++ x ++ Ea ++ mid ++ Sb ++ y ++ Eb ++ post
               = (pre ++ Sa ++ x ++ Ea ++ mid) ++ Sb ++ y ++ Eb ++ post)
    by now rewrite <- !app_assoc.
  assert (Hs' : pre ++ Sa ++ x ++ Ea ++ mid ++ Sb ++ (nl :: d ++ pad) ++ Eb ++ post
               = (pre ++ Sa ++ x ++ Ea ++ mid) ++ Sb ++ [nl] ++ (d ++ pad) ++ Eb ++ post)
    by (simpl; now rewrite <- !app_assoc).
  split.
  - rewrite Hs, Hs'. rewrite Hs in F2, L2.
    apply regexReplace_region.
    + now apply marker_like_nonempty.
    + now apply dollar_free_pad.
    + exact F2.
    + now rewrite <- !app_assoc in *.
  - apply placed_facts. cbv zeta. unfold two_regions in *.
    assert (Ht : pre ++ Sa ++ x ++ Ea ++ mid ++ Sb ++ y ++ Eb ++ post
                 = (pre ++ Sa ++ x ++ Ea ++ mid ++ Sb) ++ y ++ (Eb ++ post))
      by now rewrite <- !app_assoc.
    assert (Ht' : pre ++ Sa ++ x ++ Ea ++ mid ++ Sb ++ (nl :: d ++ pad) ++ Eb ++ post
                  = (pre ++ Sa ++ x ++ Ea ++ mid ++ Sb) ++ (nl :: d ++ pad) ++ (Eb ++ post))
      by now rewrite <- !app_assoc.
    split; [|split; [|split]].
    + refine (first_at_moves Sa d pad _ _ _ _ _ _ _ Sa_marker d_lines
                (d_free Sa ltac:(simpl; tauto)) pad_spaces Ht Ht' F1 _).
      left. rewrite !length_app. lia.
    + refine (last_at_moves Ea d pad _ _ _ _ _ _ _ Ea_marker d_lines
                (d_free Ea ltac:(simpl; tauto)) pad_spaces Ht Ht' L1 _).
      left. rewrite !length_app. lia.
    + refine (first_at_moves Sb d pad _ _ _ _ _ _ _ Sb_marker d_lines
                (d_free Sb ltac:(simpl; tauto)) pad_spaces Ht Ht' F2 _).
      left. rewrite !length_app. lia.
    + refine (last_at_moves Eb d pad _ _ _ _ _ _ _ Eb_marker d_lines
                (d_free Eb ltac:(simpl; tauto)) pad_spaces Ht Ht' L2 _).
      right. rewrite !length_app. lia.
Qed.
End TwoRegions.

Lemma MARKERS_marker_like : forall M, In M MARKERS -> marker_like M = true.
Proof. intros M [<-|[<-|[<-|[<-|[]]]]]; reflexivity. Qed.

(** One run on a text whose dependency region comes first. *)
Lemma inject_sub_first (pre x mid y post deps incl : str) :
  injectable deps -> injectable incl ->
  placed SUB_START SUB_END EXT_START EXT_END pre x mid y post ->
  inject (two_regions SUB_START SUB_END EXT_START EXT_END pre x mid y post) deps incl
  = two_regions SUB_START SUB_END EXT_START EXT_END
      pre ([nl] ++ deps ++ lit "    ") mid ([nl] ++ incl) post
  /\ placed SUB_START SUB_END EXT_START EXT_END
       pre ([nl] ++ deps ++ lit "    ") mid ([nl] ++ incl) post.
Proof.
  intros (Hdl & Hdd & Hdf) (Hil & Hid & Hif) Hp. unfold inject.
  assert (Hpad : Forall (eq " "%char) (lit "    ")) by (repeat constructor).
  replace (lit "$1" ++ [nl] ++ deps ++ lit "    $2")
    with (lit "$1" ++ [nl] ++ (deps ++ lit "    ") ++ lit "$2")
    by (now rewrite <- app_assoc).
  destruct (replace_first_pair SUB_START SUB_END EXT_START EXT_END
              eq_refl eq_refl eq_refl eq_refl deps (lit "    ")
              Hdl Hdd Hpad Hdf pre x mid y post Hp) as [E1 P1].
  rewrite E1.
  replace (lit "$1" ++ [nl] ++ incl ++ lit "$2")
    with (lit "$1" ++ [nl] ++ (incl ++ []) ++ lit "$2")
    by (now rewrite app_nil_r).
  destruct (replace_second_pair SUB_START SUB_END EXT_START EXT_END
              eq_refl eq_refl eq_refl eq_refl incl []
              Hil Hid (Forall_nil _) Hif pre _ mid y post P1) as [E2 P2].
  rewrite E2. rewrite app_nil_r in *. split; [reflexivity | exact P2].
Qed.

(** One run on a text whose include region comes first. *)
Lemma inject_ext_first (pre x mid y post deps incl : str) :
  injectable deps -> injectable incl ->
  placed EXT_START EXT_END SUB_START SUB_END pre y mid x post ->
  inject (two_regions EXT_START EXT_END SUB_START SUB_END pre y mid x post) deps incl
  = two_regions EXT_START EXT_END SUB_START SUB_END
      pre ([nl] ++ incl) mid ([nl] ++ deps ++ lit "    ") post
  /\ placed EXT_START EXT_END SUB_START SUB_END
       pre ([nl] ++ incl) mid ([nl] ++ deps ++ lit "    ") post.
Proof.
  intros (Hdl & Hdd & Hdf) (Hil & Hid & Hif) Hp. unfold inject.
  assert (Hpad : Forall (eq " "%char) (lit "    ")) by (repeat constructor).
  assert (Hdf' : forall M, In M [EXT_START; EXT_END; SUB_START; SUB_END] ->
                           indexOf M deps = None).
  { intros M HM. apply Hdf. unfold MARKERS. simpl in *. tauto. }
  assert (Hif' : forall M, In M [EXT_START; EXT_END; SUB_START; SUB_END] ->
                           indexOf M incl = None).
  { intros M HM. apply Hif. unfold MARKERS. simpl in *. tauto. }
  replace (lit "$1" ++ [nl] ++ deps ++ lit "    $2")
    with (lit "$1" ++ [nl] ++ (deps ++ lit "    ") ++ lit "$2")
    by (now rewrite <- app_assoc).
  destruct (replace_second_pair EXT_START EXT_END SUB_START SUB_END
              eq_refl eq_refl eq_refl eq_refl deps (lit "    ")
              Hdl Hdd Hpad Hdf' pre y mid x post Hp) as [E1 P1].
  rewrite E1.
  replace (lit "$1" ++ [nl] ++ incl ++ lit "$2")
    with (lit "$1" ++ [nl] ++ (incl ++ []) ++ lit "$2")
    by (now rewrite app_nil_r).
  destruct (replace_first_pair EXT_START EXT_END SUB_START SUB_END
              eq_refl eq_refl eq_refl eq_refl incl []
              Hil Hid (Forall_nil _) Hif' pre y mid _ post P1) as [E2 P2].
  rewrite E2. rewrite app_nil_r in *. split; [reflexivity | exact P2].
Qed.

(** C2, as the code has it: take a build.gradle in which the two marker
    pairs follow one another, in either order, the markers shown being the
    leftmost [START] and the rightmost [END] of each pair, and generated
    texts made of whole lines without [$] and without a marker literal.
    Then a run keeps everything before, between and after the two regions
    and the four markers, puts the generated texts between the markers, and
    a second run returns the text of the first. *)
Theorem inject_rewrites_only_marker_regions (pre x mid y post deps incl : str) :
  injectable deps -> injectable incl ->
  let B1 := [nl] ++ deps ++ lit "    " in
  let B2 := [nl] ++ incl in
  (placed SUB_START SUB_END EXT_START EXT_END pre x mid y post ->
   let s' := two_regions SUB_START SUB_END EXT_START EXT_END pre B1 mid B2 post in
   inject (two_regions SUB_START SUB_END EXT_START EXT_END pre x mid y post) deps incl = s'
   /\ inject s' deps incl = s')
  /\ (placed EXT_START EXT_END SUB_START SUB_END pre y mid x post ->
      let s' := two_regions EXT_START EXT_END SUB_START SUB_END pre B2 mid B1 post in
      inject (two_regions EXT_START EXT_END SUB_START SUB_END pre y mid x post) deps incl = s'
      /\ inject s' deps incl = s').
Proof.
  intros Hd Hi B1 B2. split; intros Hp s'.
  - destruct (inject_sub_first pre x mid y post deps incl Hd Hi Hp) as [E1 P1].
    split; [exact E1|].
    exact (proj1 (inject_sub_first pre B1 mid B2 post deps incl Hd Hi P1)).
  - destruct (inject_ext_first pre x mid y post deps incl Hd Hi Hp) as [E1 P1].
    split; [exact E1|].
    exact (proj1 (inject_ext_first pre B1 mid B2 post deps incl Hd Hi P1)).
Qed.

(** ** The generated texts are made of whole lines *)

Lemma lines_snoc (t : str) : lines (t ++ [nl]).
Proof. right. now exists t. Qed.

Lemma lines_app (t u : str) : lines t -> lines u -> lines (t ++ u).
Proof.
  intros Ht [-> | [u' ->]]; [now rewrite app_nil_r|].
  rewrite app_assoc. apply lines_snoc.
Qed.

Lemma applyLine_lines (includePath : str) : lines (applyLine includePath).
Proof.
  unfold applyLine.
  replace (lit "apply from: " ++ [dq] ++ includePath ++ [dq; nl])
    with ((lit "apply from: " ++ [dq] ++ includePath ++ [dq]) ++ [nl])
    by (now rewrite <- !app_assoc).
  apply lines_snoc.
Qed.

Lemma includeList_lines (l : list str) : lines (includeList l).
Proof.
  unfold includeList. induction l as [|p l IH]; [now left|].
  cbn [map concat]. apply lines_app; [apply applyLine_lines | exact IH].
Qed.

Lemma compileLine_lines (mavenRef : str) : lines (compileLine mavenRef).
Proof.
  unfold compileLine.
  replace (lit "    compile " ++ [dq] ++ mavenRef ++ [dq; nl])
    with ((lit "    compile " ++ [dq] ++ mavenRef ++ [dq]) ++ [nl])
    by (now rewrite <- !app_assoc).
  apply lines_snoc.
Qed.

Lemma systemLibsLoop_lines (l : list str) :
  forall depsList deps,
    lines depsList -> systemLibsLoop depsList l = inr deps -> lines deps.
Proof.
  induction l as [|p l IH]; intros depsList deps Hd; cbn [systemLibsLoop].
  - now intros [= <-].
  - destruct (resolve p) as [e|mavenRef]; [discriminate|].
    apply IH. apply lines_app; [exact Hd | apply compileLine_lines].
Qed.

Lemma subProjectsLoop_lines (path_join : list str -> str) (root name : str)
    (l : list str) :
  forall depsList deps fs fs',
    lines depsList ->
    subProjectsLoop path_join root name depsList l fs = (fs', inr deps) ->
    lines deps.
Proof.
  induction l as [|p l IH]; intros depsList deps fs fs' Hd; cbn [subProjectsLoop].
  - unfold ret. now intros [= _ <-].
  - unfold bind at 1, insertExclude, bind, readFileSync.
    destruct (fs (path_join [root; p; lit "build.gradle"])) as [g|]; [|discriminate].
    destruct (indexOf (lit "CordovaLib") g); unfold ret; apply IH.
    + rewrite !app_assoc. unfold EXCLUDE_BLOCK. rewrite !app_assoc. apply lines_snoc.
    + rewrite !app_assoc. apply lines_snoc.
Qed.

(** The theorem on a build.gradle in the layout of the project template,
    the include region first. *)
Lemma inject_rewrites_only_marker_regions_witness :
  let pre := lit "// " in
  let y := [nl] ++ lit "apply from: old.gradle" ++ [nl] ++ lit "// " in
  let mid := [nl] ++ lit "dependencies {" ++ [nl] ++ lit "    // " in
  let x := [nl] ++ lit "    // " in
  let post := [nl] ++ lit "}" ++ [nl] in
  let deps := compileLine (lit "com.android.support:support-v4:+") in
  let incl := includeList [lit "extra.gradle"] in
  let s' := two_regions EXT_START EXT_END SUB_START SUB_END
              pre ([nl] ++ incl) mid ([nl] ++ deps ++ lit "    ") post in
  inject (two_regions EXT_START EXT_END SUB_START SUB_END pre y mid x post) deps incl = s'
  /\ inject s' deps incl = s'.
Proof.
  intros pre y mid x post deps incl.
  refine (proj2 (inject_rewrites_only_marker_regions pre x mid y post deps incl _ _) _).
  - split; [apply compileLine_lines|]. split; [reflexivity|].
    intros M [<-|[<-|[<-|[<-|[]]]]]; reflexivity.
  - split; [apply includeList_lines|]. split; [reflexivity|].
    intros M [<-|[<-|[<-|[<-|[]]]]]; reflexivity.
  - unfold placed. cbv zeta. split; [reflexivity|]. split; [reflexivity|].
    split; reflexivity.
Defined.

(** C2 as it is worded fails on a properties text whose include value is
    [$&], the reference of the replacement template to the whole match: the
    second run puts the region of the first run inside the new one, and the
    text grows. *)
Lemma inject_idempotence_counterexample :
  let data := lit "cordova.gradle.include.1=$&" in
  let incl := includeList (gradleIncludes (parseProperties data)) in
  let s := lit "// SUB-PROJECT DEPENDENCIES START" ++ [nl]
           ++ lit "// SUB-PROJECT DEPENDENCIES END" ++ [nl]
           ++ lit "// PLUGIN GRADLE EXTENSIONS START" ++ [nl]
           ++ lit "// PLUGIN GRADLE EXTENSIONS END" ++ [nl] in
  gradleIncludes (parseProperties data) = [lit "$&"]
  /\ length (inject s [] incl) = 213
  /\ length (inject (inject s [] incl) [] incl) = 290
  /\ inject (inject s [] incl) [] incl <> inject s [] incl.
Proof.
  intros data incl s. split; [reflexivity|]. split; [reflexivity|].
  split; [reflexivity|]. intros H. apply (f_equal (@length ascii)) in H.
  vm_compute in H. discriminate.
Qed.

(** ** Missing markers *)

Lemma inject_absent (s deps incl : str) :
  indexOf SUB_START s = None \/ lastIndexOf SUB_END s = None ->
  indexOf EXT_START s = None \/ lastIndexOf EXT_END s = None ->
  inject s deps incl = s.
Proof.
  intros H1 H2. unfold inject. rewrite (regexReplace_absent _ _ _ _ H1).
  now apply regexReplace_absent.
Qed.

(** What the pattern of a pair matches, read back from a match. *)
Lemma exec_region_from_inv (START END : str) :
  END <> [] ->
  forall (t : str) (i : nat) (m : rmatch),
    exec_region_from START END i t = Some m ->
    exists a old post,
      t = a ++ START ++ old ++ END ++ post
      /\ m = mkMatch (i + length a) (START ++ old ++ END) [START; END].
Proof.
  intros HE.
  assert (Hhere : forall t i k,
             startsWith START t = true ->
             lastIndexOf END (skipn (length START) t) = Some k ->
             exists a old post,
               t = a ++ START ++ old ++ END ++ post
               /\ mkMatch i (firstn (length START + k + length END) t) [START; END]
                  = mkMatch (i + length a) (START ++ old ++ END) [START; END]).
  { intros t i k H1 H2. apply startsWith_iff in H1 as [r ->].
    rewrite skipn_app, Nat.sub_diag, skipn_all in H2. simpl in H2.
    apply lastIndexOf_occ in H2 as (Hocc & Hk & _).
    pose proof (occ_split _ _ _ HE Hocc) as Hr.
    exists [], (firstn k r), (skipn (k + length END) r).
    split; [simpl; now rewrite <- Hr|].
    simpl length. rewrite Nat.add_0_r. f_equal.
    rewrite Hr at 1. rewrite !app_assoc.
    rewrite firstn_app.
    assert (Hl : length ((START ++ firstn k r) ++ END) = length START + k + length END).
    { rewrite !length_app, length_firstn. lia. }
    rewrite Hl, Nat.sub_diag. simpl firstn at 2. rewrite app_nil_r.
    rewrite <- Hl. apply firstn_all. }
  induction t as [|c r IH]; intros i m H.
  - cbn [exec_region_from] in H.
    destruct (startsWith START []) eqn:E1; [|discriminate].
    destruct (lastIndexOf END (skipn (length START) [])) as [k|] eqn:E2; [|discriminate].
    injection H as <-. now apply Hhere.
  - cbn [exec_region_from] in H.
    destruct (if startsWith START (c :: r)
              then lastIndexOf END (skipn (length START) (c :: r)) else None)
      as [k|] eqn:E.
    + injection H as <-.
      destruct (startsWith START (c :: r)) eqn:E1; [|discriminate].
      now apply Hhere.
    + destruct (IH _ _ H) as (a & old & post & -> & ->).
      exists (c :: a), old, post. split; [reflexivity|].
      simpl length. f_equal. lia.
Qed.

Lemma absent_no_occ (M s : str) :
  M <> [] ->
  (indexOf M s = None <-> forall k, ~ occ M s k)
  /\ (lastIndexOf M s = None <-> forall k, ~ occ M s k).
Proof.
  intros HM. split; split.
  - apply indexOf_None.
  - intros H. destruct (indexOf M s) as [i|] eqn:E; [|reflexivity].
    apply indexOf_occ in E as [E _]. now destruct (H i).
  - intros H k Hk. pose proof (occ_bound _ _ _ HM Hk).
    apply (lastIndexOf_None _ _ H k); [lia | exact Hk].
  - intros H. destruct (lastIndexOf M s) as [i|] eqn:E; [|reflexivity].
    apply lastIndexOf_occ in E as (E & _). now destruct (H i).
Qed.

(** A marker that occurs neither in the text nor in the generated lines
    does not occur in the text after the replacement of another pair. *)
Lemma regexReplace_keeps_absent (M START END d pad s : str) :
  marker_like M = true -> END <> [] ->
  lines d -> dollar_free (d ++ pad) = true -> indexOf M d = None ->
  Forall (eq " "%char) pad ->
  (forall k, ~ occ M s k) ->
  forall k,
    ~ occ M (regexReplace (exec_region START END)
                          (lit "$1" ++ [nl] ++ (d ++ pad) ++ lit "$2") s) k.
Proof.
  intros HM HE Hl Hd Hf Hpad Hs k. unfold regexReplace, exec_region.
  destruct (exec_region_from START END 0 s) as [m|] eqn:E; [|apply Hs].
  destruct (exec_region_from_inv START END HE _ _ _ E) as (a & old & post & -> & ->).
  rewrite getSubstitution_region by exact Hd. cbn [m_index m_matched Nat.add].
  rewrite firstn_app, Nat.sub_diag, firstn_all. simpl firstn. rewrite app_nil_r.
  assert (Hpost : skipn (length a + length (START ++ old ++ END))
                        (a ++ START ++ old ++ END ++ post) = post).
  { rewrite skipn_app.
    replace (length a + length (START ++ old ++ END) - length a)
      with (length (START ++ old ++ END)) by lia.
    rewrite skipn_all2 by lia. simpl.
    rewrite !app_assoc. rewrite skipn_app, Nat.sub_diag, skipn_all. reflexivity. }
  rewrite Hpost. intros Hocc.
  replace (a ++ (START ++ [nl] ++ (d ++ pad) ++ END) ++ post)
    with ((a ++ START) ++ (nl :: d ++ pad) ++ END ++ post) in Hocc
    by (change (nl :: d ++ pad) with ([nl] ++ (d ++ pad)); now rewrite <- !app_assoc).
  apply (occ_body M HM d pad Hl Hf Hpad) in Hocc as [[Hocc Hk] | (k' & _ & Hocc)].
  - apply (Hs k). rewrite (app_assoc a START). apply occ_app_l; assumption.
  - apply (Hs (length ((a ++ START) ++ old) + k')).
    replace (a ++ START ++ old ++ END ++ post)
      with (((a ++ START) ++ old) ++ END ++ post) by (now rewrite <- !app_assoc).
    now apply occ_app_r.
Qed.

(** The include pair, absent from the text, is absent after the
    replacement of the dependency pair when the generated lines hold no
    marker. *)
Lemma inject_include_absent (s deps incl : str) :
  injectable deps ->
  indexOf EXT_START s = None \/ lastIndexOf EXT_END s = None ->
  inject s deps incl
  = regexReplace (exec_region SUB_START SUB_END)
                 (lit "$1" ++ [nl] ++ deps ++ lit "    $2") s.
Proof.
  intros (Hl & Hd & Hf) H. unfold inject. apply regexReplace_absent.
  assert (Hpad : Forall (eq " "%char) (lit "    ")) by (repeat constructor).
  replace (lit "$1" ++ [nl] ++ deps ++ lit "    $2")
    with (lit "$1" ++ [nl] ++ (deps ++ lit "    ") ++ lit "$2")
    by (now rewrite <- app_assoc).
  assert (HS : EXT_START <> []) by discriminate.
  assert (HE : EXT_END <> []) by discriminate.
  destruct H as [H | H]; [left | right].
  - apply (proj2 (proj1 (absent_no_occ EXT_START _ HS))).
    apply regexReplace_keeps_absent;
      [reflexivity | discriminate | exact Hl | now apply dollar_free_pad
      | apply Hf; unfold MARKERS; simpl; tauto | exact Hpad |].
    exact (proj1 (proj1 (absent_no_occ EXT_START s HS)) H).
  - apply (proj2 (proj2 (absent_no_occ EXT_END _ HE))).
    apply regexReplace_keeps_absent;
      [reflexivity | discriminate | exact Hl | now apply dollar_free_pad
      | apply Hf; unfold MARKERS; simpl; tauto | exact Hpad |].
    exact (proj1 (proj2 (absent_no_occ EXT_END s HE)) H).
Qed.

(** Without that proviso the include replacement can act on markers that
    the dependency text brought in: a system library in gradle form that
    spells both include markers. *)
Remark include_markers_from_dependency_text :
  let s := SUB_START ++ [nl] ++ SUB_END in
  let deps := compileLine (EXT_START ++ lit ":x:" ++ EXT_END) in
  let s1 := regexReplace (exec_region SUB_START SUB_END)
                         (lit "$1" ++ [nl] ++ deps ++ lit "    $2") s in
  resolve (EXT_START ++ lit ":x:" ++ EXT_END) = inr (EXT_START ++ lit ":x:" ++ EXT_END)
  /\ indexOf EXT_START s = None
  /\ lastIndexOf EXT_END s = None
  /\ inject s deps [] <> s1.
Proof.
  intros s deps s1. split; [reflexivity|]. split; [reflexivity|].
  split; [reflexivity|]. intros H. apply (f_equal (@length ascii)) in H.
  vm_compute in H. discriminate.
Qed.

(** C1, as the code has it: the second half of [prepBuildFiles] knows no
    error for missing markers.  It throws only when build.gradle or the
    build.gradle of a sub-project cannot be read or when a system library
    is unsupported, and then the disk is as it was before; otherwise it
    writes build.gradle.  A pair whose [START] or [END] literal is missing
    from the text that its replacement receives is left alone by it: the
    dependency replacement receives the text read, the include replacement
    the result of the dependency replacement.  So with the dependency pair
    missing the text written is the result of the include replacement
    alone, and with both pairs missing it is the text read; with the
    include pair missing from the text read, and generated dependency lines
    without a marker and without [$], it is the result of the dependency
    replacement alone. *)
Theorem missing_markers_are_not_an_error
    (path_join : list str -> str) (root name : str) (propertiesObj : properties)
    (fs : FS) :
  let file := path_join [root; lit "build.gradle"] in
  let run := injectBuildGradle path_join root name propertiesObj fs in
  let incl := includeList (gradleIncludes propertiesObj) in
  ((exists e, run = (fs, inl e)
              /\ (fs file = None
                  \/ (exists e', subProjectsLoop path_join root name []
                                   (libs propertiesObj) fs = (fs, inl e'))
                  \/ (exists q, In q (systemLibs propertiesObj)
                                /\ e = CordovaError (UNSUPPORTED ++ q))))
   \/ (exists buildGradle deps,
          fs file = Some buildGradle
          /\ run = (update file (inject buildGradle deps incl) fs, inr tt)))
  /\ (forall s deps,
         let s1 := regexReplace (exec_region SUB_START SUB_END)
                                (lit "$1" ++ [nl] ++ deps ++ lit "    $2") s in
         (indexOf SUB_START s = None \/ lastIndexOf SUB_END s = None ->
          s1 = s
          /\ inject s deps incl
             = regexReplace (exec_region EXT_START EXT_END)
                            (lit "$1" ++ [nl] ++ incl ++ lit "$2") s
          /\ (indexOf EXT_START s = None \/ lastIndexOf EXT_END s = None ->
              inject s deps incl = s))
         /\ (indexOf EXT_START s1 = None \/ lastIndexOf EXT_END s1 = None ->
             inject s deps incl = s1)
         /\ (indexOf EXT_START s = None \/ lastIndexOf EXT_END s = None ->
             injectable deps ->
             inject s deps incl = s1)).
Proof.
  intros file run incl. split.
  - unfold run. remember (injectBuildGradle path_join root name propertiesObj fs) as r eqn:Hr.
    unfold injectBuildGradle, bind, readFileSync, lift, writeFileSync in Hr.
    fold file in Hr.
    destruct (fs file) as [buildGradle|] eqn:Ef.
    2:{ left. eexists. split; [exact Hr | now left]. }
    pose proof (subProjectsLoop_reads path_join root name (libs propertiesObj) [] fs) as Hl.
    destruct (subProjectsLoop path_join root name [] (libs propertiesObj) fs)
      as [fs' [e|deps1]] eqn:El; simpl in Hl; subst fs'.
    { left. eexists. split; [exact Hr|]. right. left. now eexists. }
    destruct (systemLibsLoop deps1 (systemLibs propertiesObj)) as [e|deps] eqn:Es.
    + left. exists e. split; [exact Hr|]. right. right.
      clear Hr El. revert deps1 Es.
      induction (systemLibs propertiesObj) as [|p l IH]; intros deps1 Es;
        [discriminate|].
      cbn [systemLibsLoop] in Es. destruct (resolve p) as [e0|ref] eqn:Ep.
      * exists p. split; [now left|]. injection Es as <-.
        unfold resolve, resolve_with in Ep.
        destruct (has_two_colons p); [discriminate|].
        destruct (mapping_loop SYSTEM_LIBRARY_MAPPINGS p) as [[|c t]|];
          now inversion Ep.
      * destruct (IH _ Es) as (q & Hq & He). exists q. split; [now right | exact He].
    + right. exists buildGradle, deps. split; [reflexivity | exact Hr].
  - intros s deps s1. split; [|split].
    + intros H1. split; [now apply regexReplace_absent|]. split.
      * unfold inject. now rewrite (regexReplace_absent _ _ _ _ H1).
      * intros H2. now apply inject_absent.
    + intros H2. unfold inject. fold s1. now apply regexReplace_absent.
    + intros H2 Hd. now apply inject_include_absent.
Qed.

(** The theorem on a build.gradle with the dependency pair alone: the
    include replacement leaves the result of the dependency replacement. *)
Lemma missing_markers_are_not_an_error_witness :
  inject (SUB_START ++ [nl] ++ lit "    " ++ SUB_END)
         (compileLine (lit "a:b:c")) (includeList [lit "x.gradle"])
  = SUB_START ++ [nl] ++ compileLine (lit "a:b:c") ++ lit "    " ++ SUB_END.
Proof.
  refine (eq_trans
            (proj2 (proj2 (proj2 (missing_markers_are_not_an_error
                                    slash_join (lit "proj") (lit "app")
                                    (mkProperties [] [lit "x.gradle"] []) no_files)
                             (SUB_START ++ [nl] ++ lit "    " ++ SUB_END)
                             (compileLine (lit "a:b:c"))))
               (or_introl eq_refl) _) eq_refl).
  split; [right; now exists (lit "    compile " ++ [dq] ++ lit "a:b:c" ++ [dq])|].
  split; [reflexivity|].
  intros M HM. unfold MARKERS in HM. simpl in HM.
  destruct HM as [<-|[<-|[<-|[<-|[]]]]]; reflexivity.
Defined.

(** C1 as it is worded fails on a project whose build.gradle has neither
    marker pair: [prepBuildFiles] returns without an error and build.gradle
    is written with the content it had. *)
Lemma missing_markers_counterexample :
  let manifest := lit "<manifest package=" ++ [dq] ++ lit "com.example.app" ++ [dq]
                  ++ lit ">" in
  let buildGradle := lit "dependencies { }" in
  let fs := update (lit "proj/build.gradle") buildGradle
              (update (lit "proj/AndroidManifest.xml") manifest
                 (update (lit "proj/project.properties") (lit "target=android-28")
                    no_files)) in
  let run := prepBuildFiles slash_join (lit "proj") fs in
  indexOf SUB_START buildGradle = None
  /\ indexOf EXT_START buildGradle = None
  /\ snd run = inr tt
  /\ fst run (lit "proj/build.gradle") = Some buildGradle.
Proof.
  intros manifest buildGradle fs run.
  split; [reflexivity|]. split; [reflexivity|]. split; reflexivity.
Qed.

(* ================================================================== *)
(** * More on the properties parser *)

Lemma exec_all_S (n : nat) (key : str) (bol : bool) (t : str) :
  exec_all (S n) key bol t =
  match (if bol then exec_here key t else None) with
  | Some (v, rest, bol') => v :: exec_all n key bol' rest
  | None =>
      match t with
      | [] => []
      | c :: r => exec_all n key (is_line_terminator c) r
      end
  end.
Proof. reflexivity. Qed.

Lemma scan_step (key : str) (bol : bool) (t : str) :
  scan key bol t =
  match (if bol then exec_here key t else None) with
  | Some (v, rest, bol') => v :: scan key bol' rest
  | None =>
      match t with
      | [] => []
      | c :: r => scan key (is_line_terminator c) r
      end
  end.
Proof.
  unfold scan. rewrite exec_all_S.
  destruct (if bol then exec_here key t else None) as [[[v rest] b]|] eqn:E.
  - f_equal. apply exec_all_fuel; [|lia].
    destruct bol; [|discriminate]. apply exec_here_spec in E. lia.
  - destruct t as [|c r]; reflexivity.
Qed.

Lemma dropWhile_app_stop (f : ascii -> bool) (a : str) (c : ascii) (b : str) :
  forallb f a = true -> f c = false -> dropWhile f (a ++ c :: b) = c :: b.
Proof.
  intros Ha Hc. induction a as [|x a IH]; simpl in *.
  - now rewrite Hc.
  - apply andb_true_iff in Ha as [Hx Ha]. rewrite Hx. now apply IH.
Qed.

Lemma takeWhile_app_stop (f : ascii -> bool) (a : str) (c : ascii) (b : str) :
  forallb f a = true -> f c = false -> takeWhile f (a ++ c :: b) = a.
Proof.
  intros Ha Hc. induction a as [|x a IH]; simpl in *.
  - now rewrite Hc.
  - apply andb_true_iff in Ha as [Hx Ha]. rewrite Hx. f_equal. now apply IH.
Qed.

(** Inside a line no match starts: the loop runs on to the next line. *)
Lemma scan_rest_of_line (key u rest : str) :
  single_line u = true -> scan key false (u ++ nl :: rest) = scan key true rest.
Proof.
  unfold single_line. induction u as [|c u IH]; intros H.
  - rewrite scan_step. reflexivity.
  - simpl in H. apply andb_true_iff in H as [Hc Hu]. apply negb_true_iff in Hc.
    rewrite scan_step. simpl. rewrite Hc. now apply IH.
Qed.

Lemma KEYS_head (K : str) :
  In K KEYS ->
  exists c K', K = c :: K' /\ is_space c = false
               /\ is_line_terminator c = false /\ single_line K' = true.
Proof.
  intros [<-|[<-|[<-|[]]]]; eexists; eexists; (split; [reflexivity|]);
    repeat split; reflexivity.
Qed.

Lemma KEYS_distinct (K K' X : str) :
  In K KEYS -> In K' KEYS -> K <> K' -> startsWith K (K' ++ X) = false.
Proof.
  intros [<-|[<-|[<-|[]]]] [<-|[<-|[<-|[]]]] Hne;
    first [ congruence | reflexivity ].
Qed.

Lemma entry_ok_facts (e : propertyEntry) :
  entry_ok e = true ->
  forallb is_space (e_indent e) = true /\ In (e_key e) KEYS
  /\ e_number e <> [] /\ forallb is_digit (e_number e) = true
  /\ single_line (e_value e) = true.
Proof.
  unfold entry_ok. rewrite !andb_true_iff, negb_true_iff, str_eqb_neq.
  intros ((((H1 & H2) & H3) & H4) & H5).
  apply existsb_exists in H2 as (K & HK & E). apply str_eqb_eq in E. subst K.
  tauto.
Qed.

Lemma single_line_app (a b : str) :
  single_line (a ++ b) = single_line a && single_line b.
Proof. apply forallb_app. Qed.

Lemma digits_single_line (n : str) :
  forallb is_digit n = true -> single_line n = true.
Proof.
  unfold single_line. induction n as [|c n IH]; simpl; [reflexivity|].
  rewrite andb_true_iff. intros [Hc Hn]. rewrite (IH Hn), andb_true_r.
  unfold is_digit, is_line_terminator in *.
  apply andb_true_iff in Hc as [H1 H2]. apply Nat.leb_le in H1.
  apply negb_true_iff, orb_false_iff. split; apply Nat.eqb_neq; lia.
Qed.

(** A line of the family looked for: its value is the next match. *)
Lemma scan_own_line (e : propertyEntry) (rest : str) :
  entry_ok e = true ->
  scan (e_key e) true (propertyLine e ++ rest)
  = e_value e :: scan (e_key e) true rest.
Proof.
  intros He. destruct (entry_ok_facts e He) as (Hws & HK & Hn & Hd & Hv).
  destruct (KEYS_head _ HK) as (c & K' & EK & Hc & _ & _).
  rewrite scan_step.
  assert (Hexec : exec_here (e_key e) (propertyLine e ++ rest)
                  = Some (e_value e, rest, true)).
  { unfold exec_here, propertyLine. rewrite <- !app_assoc.
    assert (Hdrop : dropWhile is_space
              (e_indent e ++ e_key e ++ e_number e ++ lit "=" ++ e_value e ++ [nl] ++ rest)
              = e_key e ++ e_number e ++ lit "=" ++ e_value e ++ [nl] ++ rest).
    { rewrite EK. simpl app. now apply dropWhile_app_stop. }
    rewrite Hdrop, startsWith_app.
    rewrite skipn_app, Nat.sub_diag, skipn_all. simpl app.
    assert (Hdig : dropWhile is_digit (e_number e ++ "="%char :: e_value e ++ nl :: rest)
                   = "="%char :: e_value e ++ nl :: rest)
      by now apply dropWhile_app_stop.
    rewrite Hdig.
    assert (Hlen : (length ("="%char :: e_value e ++ nl :: rest)
                    <? length (e_number e ++ "="%char :: e_value e ++ nl :: rest)) = true).
    { apply Nat.ltb_lt. rewrite length_app. destruct (e_number e); [congruence|].
      simpl. lia. }
    rewrite Hlen. change (Ascii.eqb "=" "=") with true. cbv iota.
    rewrite takeWhile_app_stop, dropWhile_app_stop; try reflexivity; exact Hv. }
  now rewrite Hexec.
Qed.

(** A line of another family: no match, whatever the position of the
    loop in the line before. *)
Lemma scan_foreign_line (K : str) (e : propertyEntry) (rest : str) :
  In K KEYS -> entry_ok e = true -> e_key e <> K ->
  forall bol, scan K bol (propertyLine e ++ rest) = scan K true rest.
Proof.
  intros HK He Hne. destruct (entry_ok_facts e He) as (Hws & HK' & Hn & Hd & Hv).
  destruct (KEYS_head _ HK') as (c & K' & EK & Hc & Hlt & HK's).
  unfold propertyLine. rewrite <- !app_assoc.
  set (tail := e_key e ++ e_number e ++ lit "=" ++ e_value e ++ [nl] ++ rest).
  assert (Hno : forall ws, forallb is_space ws = true ->
                           exec_here K (ws ++ tail) = None).
  { intros ws Hw. unfold exec_here.
    replace (dropWhile is_space (ws ++ tail)) with tail.
    - unfold tail. rewrite KEYS_distinct; [reflexivity | exact HK | exact HK' | congruence].
    - unfold tail. rewrite EK. simpl app. symmetry. now apply dropWhile_app_stop. }
  assert (Htail : forall bol, scan K bol tail = scan K true rest).
  { intros bol. rewrite scan_step.
    replace (if bol then exec_here K tail else None) with (@None (str * str * bool))
      by (destruct bol; [symmetry; exact (Hno [] eq_refl) | reflexivity]).
    unfold tail. rewrite EK. simpl app. cbv iota. rewrite Hlt.
    replace (K' ++ e_number e ++ "="%char :: e_value e ++ nl :: rest)
      with ((K' ++ e_number e ++ "="%char :: e_value e) ++ nl :: rest)
      by (now rewrite <- !app_assoc).
    apply scan_rest_of_line.
    rewrite !single_line_app, HK's, (digits_single_line _ Hd). simpl.
    exact Hv. }
  induction (e_indent e) as [|w ws IH]; intros bol; [apply Htail|].
  simpl in Hws. apply andb_true_iff in Hws as [Hw Hws].
  rewrite scan_step.
  replace (if bol then exec_here K ((w :: ws) ++ tail) else None)
    with (@None (str * str * bool)).
  2:{ destruct bol; [|reflexivity]. symmetry. apply Hno. simpl. now rewrite Hw. }
  simpl. now apply IH.
Qed.

Lemma scan_rendered (K : str) (es : list propertyEntry) :
  In K KEYS -> forallb entry_ok es = true ->
  scan K true (concat (map propertyLine es)) = valuesOf K es.
Proof.
  intros HK. induction es as [|e es IH]; intros Hes.
  - destruct HK as [<-|[<-|[<-|[]]]]; reflexivity.
  - simpl in Hes. apply andb_true_iff in Hes as [He Hes].
    cbn [map concat]. unfold valuesOf. cbn [filter].
    destruct (str_eqb (e_key e) K) eqn:E.
    + apply str_eqb_eq in E. subst K. rewrite scan_own_line by exact He.
      cbn [map]. f_equal. now apply IH.
    + apply str_eqb_neq in E. rewrite scan_foreign_line; try assumption.
      now apply IH.
Qed.

(** X1: a project.properties made of lines of the three families, in any
    order, each with leading white space, a number and a single-line value,
    parses back to the values of each family in the order of the lines;
    the lines of the other families do not interfere.  The parsed sequence
    is then what [Object.keys] makes of the values seen first. *)
Theorem parse_rendered_properties (es : list propertyEntry) :
  forallb entry_ok es = true ->
  let data := concat (map propertyLine es) in
  (forall K, In K KEYS -> matches data K = valuesOf K es)
  /\ parseProperties data
     = {| libs := Object_keys (first_seen (filter not_proto (valuesOf KEY_LIBS es)));
          gradleIncludes :=
            Object_keys (first_seen (filter not_proto (valuesOf KEY_INCLUDES es)));
          systemLibs :=
            Object_keys (first_seen (filter not_proto (valuesOf KEY_SYSTEM es))) |}.
Proof.
  intros Hes data.
  assert (Hm : forall K, In K KEYS -> matches data K = valuesOf K es).
  { intros K HK. exact (scan_rendered K es HK Hes). }
  split; [exact Hm|].
  unfold parseProperties, findAllUniq.
  rewrite !fold_obj_set_nil, !Hm by (unfold KEYS; simpl; tauto).
  reflexivity.
Qed.

(** The theorem on three lines of two families. *)
Lemma parse_rendered_properties_witness :
  let es := [ mkEntry [] KEY_LIBS (lit "1") (lit "CordovaLib");
              mkEntry (lit "  ") KEY_SYSTEM (lit "10") (lit "extras/android/support/v4");
              mkEntry [nl] KEY_LIBS (lit "2") (lit "app") ] in
  matches (concat (map propertyLine es)) KEY_LIBS = [lit "CordovaLib"; lit "app"].
Proof.
  intros es.
  exact (proj1 (parse_rendered_properties es eq_refl) KEY_LIBS (or_introl eq_refl)).
Defined.

Lemma dropWhile_suffix (f : ascii -> bool) (t : str) :
  exists n, dropWhile f t = skipn n t.
Proof.
  induction t as [|c t [n IH]]; [now exists 0|]. simpl.
  destruct (f c); [exists (S n); exact IH | now exists 0].
Qed.

Lemma exec_here_occ (key t v rest : str) (b : bool) :
  exec_here key t = Some (v, rest, b) -> exists k, occ key t k.
Proof.
  unfold exec_here. destruct (dropWhile_suffix is_space t) as [n Hn].
  destruct (startsWith key (dropWhile is_space t)) eqn:E; [|discriminate].
  intros _. exists n. unfold occ. now rewrite <- Hn.
Qed.

Lemma exec_all_absent (key : str) (n : nat) :
  forall (bol : bool) (t : str),
    (forall k, ~ occ key t k) -> exec_all n key bol t = [].
Proof.
  induction n as [|n IH]; intros bol t H; [reflexivity|].
  rewrite exec_all_S.
  destruct (if bol then exec_here key t else None) as [[[v rest] b]|] eqn:E.
  - destruct bol; [|discriminate]. apply exec_here_occ in E as [k Hk].
    exfalso. exact (H k Hk).
  - destruct t as [|c r]; [reflexivity|]. apply IH.
    intros k Hk. apply (H (S k)). now apply occ_S.
Qed.

(** X2: a properties text in which the key prefix of a family does not
    occur yields the empty sequence for that family; unknown keys and an
    empty file give three empty sequences. *)
Theorem findAllUniq_absent_key (data key : str) :
  indexOf key data = None ->
  matches data key = [] /\ findAllUniq data key = [].
Proof.
  intros H.
  assert (Hm : matches data key = []).
  { unfold matches. apply exec_all_absent. now apply indexOf_None. }
  split; [exact Hm|]. unfold findAllUniq. now rewrite Hm.
Qed.

(** The theorem on a file with an unknown key only. *)
Lemma findAllUniq_absent_key_witness :
  parseProperties (lit "target=android-28") = mkProperties [] [] [].
Proof.
  unfold parseProperties.
  rewrite (proj2 (findAllUniq_absent_key (lit "target=android-28") KEY_LIBS eq_refl)).
  reflexivity.
Defined.

(** X3: [readProjectProperties] only reads; it throws ENOENT for a missing
    project.properties, and every value of the three sequences it returns
    is a single line (it holds neither LF nor CR). *)
Theorem readProjectProperties_values
    (path_join : list str -> str) (root : str) (fs : FS) :
  let file := path_join [root; lit "project.properties"] in
  let run := readProjectProperties path_join root fs in
  fst run = fs
  /\ (fs file = None -> snd run = inl (ENOENT file))
  /\ (forall data, fs file = Some data -> snd run = inr (parseProperties data))
  /\ (forall propertiesObj v,
         snd run = inr propertiesObj ->
         In v (libs propertiesObj ++ gradleIncludes propertiesObj
               ++ systemLibs propertiesObj) ->
         single_line v = true).
Proof.
  intros file run. unfold run, readProjectProperties, bind, readFileSync, ret.
  fold file. destruct (fs file) as [data|]; simpl.
  - split; [reflexivity|]. split; [discriminate|]. split; [now intros d [= <-]|].
    intros propertiesObj v [= <-] Hv. simpl in Hv.
    rewrite !in_app_iff in Hv.
    destruct Hv as [Hv|[Hv|Hv]]; exact (findAllUniq_single_line _ _ _ Hv).
  - split; [reflexivity|]. split; [reflexivity|]. split; [discriminate|].
    intros propertiesObj v Hr. discriminate Hr.
Qed.

(* ================================================================== *)
(** * The project name from the manifest *)

Lemma In_occ_single (c : ascii) (t : str) :
  In c t -> exists k, occ [c] t k.
Proof.
  induction t as [|x t IH]; intros H; [destruct H|].
  destruct H as [->|H].
  - exists 0. unfold occ. simpl. now rewrite Ascii.eqb_refl.
  - destruct (IH H) as [k Hk]. exists (S k). now apply occ_S.
Qed.

(** X4: the project name is the part of the package name after its last
    dot: it holds no dot, and the package name is either the name itself or
    some prefix, a dot and the name. *)
Theorem lastSegment_after_last_dot (packageName : str) :
  ~ In "."%char (lastSegment packageName)
  /\ (packageName = lastSegment packageName
      \/ exists pre, packageName = pre ++ lit "." ++ lastSegment packageName).
Proof.
  unfold lastSegment.
  destruct (lastIndexOf (lit ".") packageName) as [i|] eqn:E.
  - pose proof E as E'. apply lastIndexOf_occ in E as (H1 & H0 & H2). split.
    + intros Hin. apply In_occ_single in Hin as [k Hk].
      assert (Hocc : occ (lit ".") packageName (i + 1 + k)).
      { unfold occ in *. now rewrite Nat.add_comm, <- skipn_skipn. }
      apply (H2 (i + 1 + k)); [lia | | exact Hocc].
      apply occ_bound in Hocc; [lia | discriminate].
    + right. exists (firstn i packageName).
      apply (occ_split (lit ".") packageName i); [discriminate | exact H1].
  - split; [|now left]. intros Hin. apply In_occ_single in Hin as [k Hk].
    assert (Hb : k + 1 <= length packageName)
      by (apply (occ_bound [ "."%char ]); [discriminate | exact Hk]).
    apply (lastIndexOf_None _ _ E k); [lia | exact Hk].
Qed.

Lemma lower_ci_refl (p r : str) : startsWith_ci p (p ++ r) = true.
Proof.
  induction p as [|a p IH]; [reflexivity|]. simpl.
  now rewrite Ascii.eqb_refl, IH.
Qed.

Lemma startsWith_ci_length (p s : str) :
  startsWith_ci p s = true -> length p <= length s.
Proof.
  revert s. induction p as [|a p IH]; intros s H; simpl; [lia|].
  destruct s as [|b s]; [discriminate|]. simpl in *.
  apply andb_true_iff in H as [_ H]. apply IH in H. lia.
Qed.

Lemma startsWith_ci_app_short (p a b : str) :
  length p <= length a -> startsWith_ci p (a ++ b) = startsWith_ci p a.
Proof.
  revert a. induction p as [|x p IH]; intros a Hl; simpl; [reflexivity|].
  destruct a as [|y a]; simpl in *; [lia|]. rewrite IH by lia. reflexivity.
Qed.

Lemma startsWith_ci_nth (p s : str) (j : nat) (pc : ascii) :
  startsWith_ci p s = true -> nth_error p j = Some pc ->
  exists c, nth_error s j = Some c /\ lower pc = lower c.
Proof.
  revert s j. induction p as [|a p IH]; intros s j H Hj.
  - destruct j; discriminate.
  - destruct s as [|b s]; [discriminate|]. simpl in H.
    apply andb_true_iff in H as [Hab H]. apply Ascii.eqb_eq in Hab.
    destruct j as [|j]; simpl in *.
    + injection Hj as <-. now exists b.
    + now apply IH.
Qed.

(** A pattern whose first letter does not come back later cannot start
    in [a] and end in a text that begins with that letter. *)
Lemma occ_ci_no_straddle (c0 : ascii) (p' a : str) (c : ascii) (b : str) :
  forallb (fun pc => negb (Ascii.eqb (lower pc) (lower c0))) p' = true ->
  lower c = lower c0 ->
  (forall k, ~ occ_ci (c0 :: p') a k) ->
  forall k, k < length a -> ~ occ_ci (c0 :: p') (a ++ c :: b) k.
Proof.
  intros Hp Hc Ha k Hk Hocc. unfold occ_ci in *.
  rewrite skipn_app in Hocc. replace (k - length a) with 0 in Hocc by lia.
  simpl skipn in Hocc.
  destruct (le_lt_dec (length (c0 :: p')) (length (skipn k a))) as [Hl|Hl].
  - rewrite startsWith_ci_app_short in Hocc by exact Hl. exact (Ha k Hocc).
  - assert (Hj : length (skipn k a) < length (c0 :: p')) by exact Hl.
    rewrite length_skipn in *.
    destruct (nth_error (c0 :: p') (length a - k)) as [pc|] eqn:En.
    2:{ apply nth_error_None in En. lia. }
    destruct (startsWith_ci_nth _ _ _ _ Hocc En) as (x & Hx & Hlow).
    rewrite nth_error_app2 in Hx by (rewrite length_skipn; lia).
    rewrite length_skipn, Nat.sub_diag in Hx. simpl in Hx. injection Hx as <-.
    destruct (length a - k) as [|j] eqn:Ej; [lia|]. simpl in En.
    apply nth_error_In in En. rewrite forallb_forall in Hp.
    apply Hp in En. apply negb_true_iff, Ascii.eqb_neq in En. congruence.
Qed.

Lemma exec_manifest_skip (a t : str) :
  (forall k, k < length a -> ~ occ_ci (lit "<manifest") (a ++ t) k) ->
  exec_manifest (a ++ t) = exec_manifest t.
Proof.
  induction a as [|x a IH]; intros H; [reflexivity|].
  simpl app. cbn [exec_manifest].
  assert (H0 : startsWith_ci (lit "<manifest") (x :: a ++ t) = false).
  { destruct (startsWith_ci (lit "<manifest") (x :: a ++ t)) eqn:E; [|reflexivity].
    exfalso. apply (H 0); [simpl; lia | exact E]. }
  rewrite H0. apply IH. intros k Hk. apply (H (S k)). simpl. lia.
Qed.

Lemma first_package_skip (a t : str) :
  (forall k, k < length a -> ~ occ_ci (lit "package") (a ++ t) k) ->
  first_package (a ++ t) = first_package t.
Proof.
  induction a as [|x a IH]; intros H; [reflexivity|].
  simpl app. cbn [first_package].
  assert (H0 : exec_package_here (x :: a ++ t) = None).
  { unfold exec_package_here.
    destruct (startsWith_ci (lit "package") (x :: a ++ t)) eqn:E; [|reflexivity].
    exfalso. apply (H 0); [simpl; lia | exact E]. }
  rewrite H0. apply IH. intros k Hk. apply (H (S k)). simpl. lia.
Qed.

Lemma occ_ci_decide (p s : str) :
  forallb (fun k => negb (startsWith_ci p (skipn k s))) (seq 0 (S (length s))) = true ->
  forall k, ~ occ_ci p s k.
Proof.
  intros H k Hk. unfold occ_ci in Hk. rewrite forallb_forall in H.
  destruct (le_lt_dec k (length s)) as [Hl|Hl].
  - specialize (H k). rewrite in_seq in H. rewrite Hk in H.
    assert (false = true) by (apply H; lia). discriminate.
  - specialize (H (length s)). rewrite in_seq in H.
    rewrite skipn_all2 in Hk by lia. rewrite skipn_all, Hk in H.
    assert (false = true) by (apply H; lia). discriminate.
Qed.

Lemma lower_idem (c : ascii) : lower (lower c) = lower c.
Proof. destruct c as [[] [] [] [] [] [] [] []]; reflexivity. Qed.

(** A text spelled like [p] in some letter case matches [p]. *)
Lemma startsWith_ci_spelling (p w r : str) :
  map lower w = p -> startsWith_ci p (w ++ r) = true.
Proof.
  intros <-. induction w as [|a w IH]; [reflexivity|]. simpl.
  now rewrite lower_idem, Ascii.eqb_refl, IH.
Qed.

Lemma skipn_spelling (p w r : str) :
  map lower w = p -> skipn (length p) (w ++ r) = r.
Proof.
  intros <-. rewrite length_map, skipn_app, Nat.sub_diag, skipn_all. reflexivity.
Qed.

Lemma exec_package_here_spelled (attr ws1 ws2 pkg rest : str) :
  map lower attr = lit "package" ->
  forallb is_space ws1 = true -> forallb is_space ws2 = true ->
  quoted_value pkg = true ->
  exec_package_here (attr ++ ws1 ++ lit "=" ++ ws2 ++ [dq] ++ pkg ++ [dq] ++ rest)
  = Some pkg.
Proof.
  intros Ha H1 H2 Hp. unfold exec_package_here.
  rewrite (startsWith_ci_spelling _ _ _ Ha).
  change 7 with (length (lit "package")). rewrite (skipn_spelling _ _ _ Ha).
  change (ws1 ++ lit "=" ++ ws2 ++ [dq] ++ pkg ++ [dq] ++ rest)
    with (ws1 ++ "="%char :: (ws2 ++ dq :: (pkg ++ dq :: rest))).
  rewrite (dropWhile_app_stop is_space ws1 "=" _ H1 eq_refl).
  change (Ascii.eqb "=" "=") with true. cbv iota.
  rewrite (dropWhile_app_stop is_space ws2 dq _ H2 eq_refl).
  change (Ascii.eqb dq dq) with true. cbv iota zeta.
  rewrite dropWhile_app_stop, takeWhile_app_stop; try reflexivity; exact Hp.
Qed.

Lemma first_package_here (t v : str) :
  exec_package_here t = Some v -> first_package t = Some v.
Proof. intros H. destruct t; cbn [first_package]; now rewrite H. Qed.

Lemma exec_manifest_here (t v : str) :
  startsWith_ci (lit "<manifest") t = true ->
  first_package (skipn 9 t) = Some v ->
  exec_manifest t = Some v.
Proof. intros H1 H2. destruct t; cbn [exec_manifest]; now rewrite H1, H2. Qed.

(** X5: let AndroidManifest.xml hold the text [<manifest], spelled in any
    letter case and not preceded by another such text, then a text without
    [package] in any letter case, then the attribute [package] spelled in
    any letter case, white space, [=], white space and a quoted value on
    one line.  Then [extractRealProjectNameFromManifest] returns the part
    of that value after its last dot and changes no file. *)
Theorem manifest_name_round_trip
    (path_join : list str -> str) (root pre tag mid attr ws1 ws2 pkg rest : str)
    (fs : FS) :
  let manifestPath := path_join [root; lit "AndroidManifest.xml"] in
  let manifest :=
    pre ++ tag ++ mid ++ attr ++ ws1 ++ lit "=" ++ ws2 ++ [dq] ++ pkg ++ [dq] ++ rest in
  fs manifestPath = Some manifest ->
  map lower tag = lit "<manifest" ->
  map lower attr = lit "package" ->
  (forall k, ~ occ_ci (lit "<manifest") pre k) ->
  (forall k, ~ occ_ci (lit "package") mid k) ->
  forallb is_space ws1 = true -> forallb is_space ws2 = true ->
  quoted_value pkg = true ->
  exec_manifest manifest = Some pkg
  /\ extractRealProjectNameFromManifest path_join root fs
     = (fs, inr (lastSegment pkg)).
Proof.
  intros manifestPath manifest Hfs Htag Hattr Hpre Hmid H1 H2 Hp.
  assert (Hexec : exec_manifest manifest = Some pkg).
  { unfold manifest. rewrite exec_manifest_skip.
    2:{ destruct tag as [|t0 tag']; [discriminate|]. simpl app.
        apply (occ_ci_no_straddle "<" (lit "manifest")); [reflexivity | | exact Hpre].
        injection Htag as Ht0 _. now rewrite Ht0. }
    apply exec_manifest_here; [now apply startsWith_ci_spelling|].
    change 9 with (length (lit "<manifest")). rewrite (skipn_spelling _ _ _ Htag).
    rewrite first_package_skip.
    2:{ destruct attr as [|a0 attr']; [discriminate|]. simpl app.
        apply (occ_ci_no_straddle "p" (lit "ackage")); [reflexivity | | exact Hmid].
        injection Hattr as Ha0 _. now rewrite Ha0. }
    apply first_package_here. now apply exec_package_here_spelled. }
  split; [exact Hexec|].
  unfold extractRealProjectNameFromManifest, bind, readFileSync. fold manifestPath.
  rewrite Hfs, Hexec. reflexivity.
Qed.

(** The theorem on a manifest with an XML declaration and a name-space
    attribute before the package, tag and attribute in capital letters. *)
Lemma manifest_name_round_trip_witness :
  let manifest :=
    lit "<?xml version='1.0'?>" ++ [nl] ++ lit "<MANIFEST"
    ++ lit " xmlns:android='http://schemas.android.com/apk/res/android' "
    ++ lit "Package" ++ lit " " ++ lit "=" ++ [] ++ [dq] ++ lit "io.cordova.hellocordova"
    ++ [dq] ++ lit ">" in
  let fs := update (lit "proj/AndroidManifest.xml") manifest no_files in
  extractRealProjectNameFromManifest slash_join (lit "proj") fs
  = (fs, inr (lit "hellocordova")).
Proof.
  intros manifest fs.
  refine (proj2 (manifest_name_round_trip slash_join (lit "proj")
            (lit "<?xml version='1.0'?>" ++ [nl]) (lit "<MANIFEST")
            (lit " xmlns:android='http://schemas.android.com/apk/res/android' ")
            (lit "Package") (lit " ") [] (lit "io.cordova.hellocordova") (lit ">") fs
            eq_refl eq_refl eq_refl _ _ eq_refl eq_refl eq_refl)).
  - apply occ_ci_decide. reflexivity.
  - apply occ_ci_decide. reflexivity.
Defined.

Lemma exec_manifest_none (m : str) :
  (forall k, ~ occ_ci (lit "<manifest") m k) -> exec_manifest m = None.
Proof.
  induction m as [|x m IH]; intros H.
  - reflexivity.
  - cbn [exec_manifest].
    assert (H0 : startsWith_ci (lit "<manifest") (x :: m) = false).
    { destruct (startsWith_ci (lit "<manifest") (x :: m)) eqn:E; [|reflexivity].
      exfalso. exact (H 0 E). }
    rewrite H0. apply IH. intros k Hk. exact (H (S k) Hk).
Qed.

Lemma exec_package_here_quoted (t v : str) :
  exec_package_here t = Some v -> quoted_value v = true.
Proof.
  unfold exec_package_here.
  destruct (startsWith_ci (lit "package") t); [|discriminate].
  destruct (dropWhile is_space (skipn 7 t)) as [|c t2]; [discriminate|].
  destruct (Ascii.eqb c "="); [|discriminate].
  destruct (dropWhile is_space t2) as [|d t3]; [discriminate|].
  destruct (Ascii.eqb d dq); [|discriminate]. cbv zeta.
  destruct (dropWhile _ t3) as [|e r]; [discriminate|].
  destruct (Ascii.eqb e dq); [|discriminate].
  intros [= <-]. apply takeWhile_forallb.
Qed.

Lemma first_package_quoted (t v : str) :
  first_package t = Some v -> quoted_value v = true.
Proof.
  induction t as [|x t IH]; cbn [first_package].
  - destruct (exec_package_here []) eqn:E; [|discriminate].
    intros [= <-]. exact (exec_package_here_quoted _ _ E).
  - destruct (exec_package_here (x :: t)) eqn:E.
    + intros [= <-]. exact (exec_package_here_quoted _ _ E).
    + exact IH.
Qed.

Lemma exec_manifest_quoted (t v : str) :
  exec_manifest t = Some v -> quoted_value v = true.
Proof.
  induction t as [|x t IH]; cbn [exec_manifest].
  - destruct (startsWith_ci (lit "<manifest") []); [|discriminate].
    destruct (first_package (skipn 9 [])) eqn:E; [|discriminate].
    intros [= <-]. exact (first_package_quoted _ _ E).
  - destruct (startsWith_ci (lit "<manifest") (x :: t)); [|exact IH].
    destruct (first_package (skipn 9 (x :: t))) eqn:E; [|exact IH].
    intros [= <-]. exact (first_package_quoted _ _ E).
Qed.

Lemma forallb_skipn (f : ascii -> bool) (n : nat) (s : str) :
  forallb f s = true -> forallb f (skipn n s) = true.
Proof.
  revert s. induction n as [|n IH]; intros s H; [exact H|].
  destruct s as [|c s]; [reflexivity|]. simpl in *.
  apply andb_true_iff in H as [_ H]. now apply IH.
Qed.

(** X6: [extractRealProjectNameFromManifest] only reads.  It throws ENOENT
    for a missing AndroidManifest.xml and the error [Could not find package
    name in] followed by the path when the text [<manifest] occurs nowhere;
    a name it returns holds neither a double quote nor a line terminator. *)
Theorem manifest_name_errors
    (path_join : list str -> str) (root : str) (fs : FS) :
  let manifestPath := path_join [root; lit "AndroidManifest.xml"] in
  let run := extractRealProjectNameFromManifest path_join root fs in
  fst run = fs
  /\ (fs manifestPath = None -> snd run = inl (ENOENT manifestPath))
  /\ (forall manifestData,
         fs manifestPath = Some manifestData ->
         (forall k, ~ occ_ci (lit "<manifest") manifestData k) ->
         snd run
         = inl (CordovaError (lit "Could not find package name in " ++ manifestPath)))
  /\ (forall name, snd run = inr name -> quoted_value name = true).
Proof.
  intros manifestPath run.
  unfold run, extractRealProjectNameFromManifest, bind, readFileSync, throw, ret.
  fold manifestPath. destruct (fs manifestPath) as [manifestData|] eqn:Ef.
  - destruct (exec_manifest manifestData) as [pkg|] eqn:Em; simpl.
    + split; [reflexivity|]. split; [discriminate|]. split.
      * intros d [= <-] Hno. rewrite (exec_manifest_none _ Hno) in Em. discriminate.
      * intros name [= <-]. unfold lastSegment.
        pose proof (exec_manifest_quoted _ _ Em) as Hq.
        destruct (lastIndexOf (lit ".") pkg); [|exact Hq].
        now apply forallb_skipn.
    + split; [reflexivity|]. split; [discriminate|]. split; [reflexivity|].
      intros name Hr. discriminate Hr.
  - simpl. split; [reflexivity|]. split; [reflexivity|]. split; [discriminate|].
    intros name Hr. discriminate Hr.
Qed.

(* ================================================================== *)
(** * More on the system libraries and the module names *)

Lemma optional_slash_inv (body : str -> option (list str)) (p : str) (m : rmatch) :
  optional_slash body p = Some m ->
  m_index m = 0 /\ m_matched m = p
  /\ exists t, (t = p \/ p = "/"%char :: t) /\ body t = Some (m_captures m).
Proof.
  unfold optional_slash. intros H.
  assert (Hatt : forall t, (t = p \/ p = "/"%char :: t) ->
            match body t with Some caps => Some (mkMatch 0 p caps) | None => None end
            = Some m ->
            m_index m = 0 /\ m_matched m = p
            /\ exists t, (t = p \/ p = "/"%char :: t) /\ body t = Some (m_captures m)).
  { intros t Ht Hb. destruct (body t) as [caps|] eqn:E; [|discriminate].
    injection Hb as <-. simpl. split; [reflexivity|]. split; [reflexivity|].
    now exists t. }
  destruct p as [|c r]; [apply (Hatt []); [now left | exact H]|].
  destruct (Ascii.eqb c "/") eqn:Ec.
  - apply Ascii.eqb_eq in Ec. subst c.
    destruct (match body r with Some caps => Some (mkMatch 0 ("/"%char :: r) caps)
                                | None => None end) as [m'|] eqn:Er.
    + injection H as <-. apply (Hatt r); [now right | exact Er].
    + apply (Hatt ("/"%char :: r)); [now left | exact H].
  - apply (Hatt (c :: r)); [now left | exact H].
Qed.

Lemma support_body_inv (t : str) (caps : list str) :
  support_body t = Some caps ->
  exists v, t = SUPPORT_PREFIX ++ v /\ single_line v = true /\ caps = [v].
Proof.
  unfold support_body. destruct (startsWith SUPPORT_PREFIX t) eqn:E; [|discriminate].
  apply startsWith_iff in E as [v ->].
  rewrite skipn_app, Nat.sub_diag, skipn_all. simpl app.
  destruct (forallb _ v) eqn:Ev; [|discriminate].
  intros [= <-]. now exists v.
Qed.

Lemma exec_support_inv (p : str) (m : rmatch) :
  exec_support p = Some m ->
  exists slash v,
    (slash = [] \/ slash = lit "/") /\ p = slash ++ SUPPORT_PREFIX ++ v
    /\ single_line v = true.
Proof.
  intros H. apply optional_slash_inv in H as (_ & _ & t & Ht & Hb).
  apply support_body_inv in Hb as (v & -> & Hv & _).
  destruct Ht as [<- | ->].
  - exists [], v. repeat split; [now left | exact Hv].
  - exists (lit "/"), v. repeat split; [now right | exact Hv].
Qed.

Lemma colon_on_line_app (a b : str) :
  single_line a = true -> colon_on_line (a ++ ":"%char :: b) = true.
Proof.
  unfold single_line. induction a as [|c a IH]; intros H; [reflexivity|].
  simpl in *. apply andb_true_iff in H as [Hc Ha]. apply negb_true_iff in Hc.
  destruct (Ascii.eqb c ":"); [reflexivity|]. rewrite Hc. now apply IH.
Qed.

Lemma has_two_colons_app (a b : str) :
  colon_on_line b = true -> has_two_colons (a ++ ":"%char :: b) = true.
Proof.
  intros H. induction a as [|c a IH]; simpl.
  - now rewrite H.
  - rewrite IH. apply orb_true_r.
Qed.

Lemma getSubstitution_literal (s : str) (m : rmatch) (t : str) :
  dollar_free t = true -> getSubstitution s m t = t.
Proof.
  intros H. rewrite <- (app_nil_r t) at 1.
  rewrite getSubstitution_plain by exact H. apply app_nil_r.
Qed.

Lemma regexReplace_play_services (p : str) (m : rmatch) :
  exec_play_services p = Some m ->
  regexReplace exec_play_services (lit "com.google.android.gms:play-services:+") p
  = lit "com.google.android.gms:play-services:+".
Proof.
  intros H. unfold regexReplace. rewrite H.
  apply optional_slash_inv in H as (Hi & Hm & _).
  rewrite Hi, Hm, getSubstitution_literal by reflexivity.
  change (0 + length p) with (length p). rewrite skipn_all, app_nil_r.
  reflexivity.
Qed.

(** X7: whatever [resolve] returns is in gradle form, that is, it holds two
    colons on one line; resolving a resolved coordinate again returns it
    unchanged. *)
Theorem resolve_yields_gradle_form (p ref : str) :
  resolve p = inr ref ->
  has_two_colons ref = true /\ 2 <= count_colons ref /\ resolve ref = inr ref.
Proof.
  intros H.
  assert (Hform : has_two_colons ref = true).
  { unfold resolve, resolve_with in H.
    destruct (has_two_colons p) eqn:Ep; [now injection H as <-|].
    unfold SYSTEM_LIBRARY_MAPPINGS, mapping_loop in H. cbn [r_exec r_template] in H.
    destruct (exec_support p) as [m|] eqn:Es.
    - destruct (exec_support_inv _ _ Es) as (slash & v & Hs & -> & Hv).
      rewrite (regexReplace_support _ _ Hs Hv) in H.
      assert (Href : ref = lit "com.android.support:support-" ++ v ++ lit ":+").
      { destruct (lit "com.android.support:support-" ++ v ++ lit ":+") eqn:E;
          [discriminate | now injection H as <-]. }
      rewrite Href.
      change (lit "com.android.support:support-" ++ v ++ lit ":+")
        with (lit "com.android.support" ++ ":"%char
                :: ((lit "support-" ++ v) ++ ":"%char :: lit "+")).
      apply has_two_colons_app, colon_on_line_app.
      rewrite single_line_app, Hv. reflexivity.
    - destruct (exec_play_services p) as [m|] eqn:Ep2; [|discriminate].
      rewrite (regexReplace_play_services _ _ Ep2) in H.
      simpl in H. now injection H as <-. }
  split; [exact Hform|]. split; [now apply has_two_colons_count|].
  now apply resolve_with_two_colons.
Qed.

(** The theorem on the support library [v4]. *)
Lemma resolve_yields_gradle_form_witness :
  resolve (lit "com.android.support:support-v4:+")
  = inr (lit "com.android.support:support-v4:+").
Proof.
  exact (proj2 (proj2 (resolve_yields_gradle_form
                         (lit "extras/android/support/v4")
                         (lit "com.android.support:support-v4:+") eq_refl))).
Defined.

Lemma In_firstn (n : nat) (l : str) (x : ascii) : In x (firstn n l) -> In x l.
Proof.
  intros H. rewrite <- (firstn_skipn n l). apply in_or_app. now left.
Qed.

Lemma In_skipn (n : nat) (l : str) (x : ascii) : In x (skipn n l) -> In x l.
Proof.
  intros H. rewrite <- (firstn_skipn n l). apply in_or_app. now right.
Qed.

(** X8: a module name holds neither a slash nor a backslash, whatever the
    raw path and the host name. *)
Theorem libName_has_no_separator (name p : str) (c : ascii) :
  In c (libName name p) -> is_path_separator c = false.
Proof.
  assert (Hcanon : forall x, In x (replaceSeparators p) -> is_path_separator x = false).
  { intros x Hx. unfold replaceSeparators in Hx. apply in_map_iff in Hx as (y & <- & _).
    destruct (is_path_separator y) eqn:E; [reflexivity | exact E]. }
  unfold libName. intros H.
  destruct (indexOf (name ++ lit "-") (replaceSeparators p)) as [i|] eqn:E.
  - rewrite (stringReplace_empty_occ _ _ _ E) in H. apply Hcanon.
    apply in_app_or in H as [H|H]; [exact (In_firstn _ _ _ H) | exact (In_skipn _ _ _ H)].
  - rewrite (stringReplace_absent _ _ _ E) in H. now apply Hcanon.
Qed.

(** The theorem on a Windows path. *)
Lemma libName_has_no_separator_witness :
  is_path_separator ":" = false.
Proof.
  apply (libName_has_no_separator (lit "host") (lit "libs" ++ [backslash] ++ lit "x") ":").
  vm_compute. tauto.
Defined.

(** X9: a sub-project whose canonical path is the host name and the dash
    alone gets the empty module name; its line of settings.gradle is the
    declaration of the root module once more, and the directory is set on
    the root module. *)
Theorem empty_module_name (name p : str) :
  replaceSeparators p = name ++ lit "-" ->
  libName name p = []
  /\ settingsGradlePath name p = SETTINGS_ROOT ++ pathOverride [] p.
Proof.
  intros H.
  assert (Hi : indexOf (name ++ lit "-") (replaceSeparators p) = Some 0).
  { apply indexOf_first; [|intros k Hk; lia].
    rewrite H. unfold occ. simpl. rewrite <- (app_nil_r (name ++ lit "-")) at 2.
    apply startsWith_app. }
  assert (Hl : libName name p = []).
  { unfold libName. rewrite (stringReplace_empty_occ _ _ _ Hi), H.
    simpl. apply skipn_all. }
  split; [exact Hl|].
  rewrite settingsGradlePath_decl, Hl.
  destruct (str_eqb [] (replaceSeparators p)) eqn:E; [|reflexivity].
  apply str_eqb_eq in E. rewrite H in E. destruct name; discriminate.
Qed.

(** The theorem on host [myapp] and sub-project [myapp-]. *)
Lemma empty_module_name_witness :
  libName (lit "myapp") (lit "myapp-") = [].
Proof. exact (proj1 (empty_module_name (lit "myapp") (lit "myapp-") eq_refl)). Defined.

(* ================================================================== *)
(** * More on prepBuildFiles *)

Lemma systemLibsLoop_success (l refs : list str) :
  Forall2 (fun p ref => resolve p = inr ref) l refs ->
  forall depsList,
    systemLibsLoop depsList l = inr (depsList ++ concat (map compileLine refs)).
Proof.
  induction 1 as [|p ref l refs Hp Hl IH]; intros depsList; cbn [systemLibsLoop].
  - simpl. now rewrite app_nil_r.
  - rewrite Hp, IH. cbn [map concat]. now rewrite <- app_assoc.
Qed.

Section DependencyBlock.
Variable path_join : list str -> str.
Variable root : str.
Variable name : str.

Lemma insertExclude_entry (depsList p g : str) (fs : FS) :
  fs (path_join [root; p; lit "build.gradle"]) = Some g ->
  insertExclude path_join root
    (depsList ++ lit "    implementation(project(path: " ++ [dq] ++ libName name p
              ++ [dq] ++ lit "))") p fs
  = (fs, inr (depsList ++ subProjectEntry name p g)).
Proof.
  intros H. unfold insertExclude, bind, readFileSync, subProjectEntry. rewrite H.
  destruct (indexOf (lit "CordovaLib") g); unfold ret; now rewrite <- !app_assoc.
Qed.

Lemma subProjectsLoop_success (l gs : list str) (fs : FS) :
  Forall2 (fun p g => fs (path_join [root; p; lit "build.gradle"]) = Some g) l gs ->
  forall depsList,
    subProjectsLoop path_join root name depsList l fs
    = (fs, inr (depsList
                ++ concat (map (fun pg => subProjectEntry name (fst pg) (snd pg))
                               (combine l gs)))).
Proof.
  induction 1 as [|p g l gs Hp Hl IH]; intros depsList; cbn [subProjectsLoop].
  - unfold ret. simpl. now rewrite app_nil_r.
  - unfold bind at 1. rewrite (insertExclude_entry depsList p g fs Hp), IH.
    cbn [combine map concat fst snd]. now rewrite <- app_assoc.
Qed.

Lemma subProjectsLoop_missing (l1 gs : list str) (p : str) (l2 : list str) (fs : FS) :
  Forall2 (fun p g => fs (path_join [root; p; lit "build.gradle"]) = Some g) l1 gs ->
  fs (path_join [root; p; lit "build.gradle"]) = None ->
  forall depsList,
    subProjectsLoop path_join root name depsList (l1 ++ p :: l2) fs
    = (fs, inl (ENOENT (path_join [root; p; lit "build.gradle"]))).
Proof.
  induction 1 as [|q g l1 gs Hq Hl IH]; intros Hp depsList.
  - rewrite app_nil_l. cbn [subProjectsLoop].
    unfold bind at 1, insertExclude, bind, readFileSync. now rewrite Hp.
  - rewrite <- app_comm_cons. cbn [subProjectsLoop].
    unfold bind at 1. rewrite (insertExclude_entry depsList q g fs Hq). now apply IH.
Qed.

(** X10: when build.gradle, the build.gradle of every sub-project and
    every system library are in order, the second half of [prepBuildFiles]
    writes build.gradle once, with the dependency text made of one entry per
    sub-project, in their order, and then one [compile] line per system
    library, in their order; an entry carries the exclusion of CordovaLib
    exactly when the build.gradle of the sub-project holds the word
    CordovaLib.  No other file changes. *)
Theorem dependency_block_layout
    (propertiesObj : properties) (gs refs : list str) (buildGradle : str) (fs : FS) :
  let file := path_join [root; lit "build.gradle"] in
  fs file = Some buildGradle ->
  Forall2 (fun p g => fs (path_join [root; p; lit "build.gradle"]) = Some g)
          (libs propertiesObj) gs ->
  Forall2 (fun p ref => resolve p = inr ref) (systemLibs propertiesObj) refs ->
  injectBuildGradle path_join root name propertiesObj fs
  = (update file
       (inject buildGradle
          (concat (map (fun pg => subProjectEntry name (fst pg) (snd pg))
                       (combine (libs propertiesObj) gs))
           ++ concat (map compileLine refs))
          (includeList (gradleIncludes propertiesObj))) fs,
     inr tt).
Proof.
  intros file Hf Hsub Hsys.
  unfold injectBuildGradle, bind at 1, readFileSync. fold file. rewrite Hf.
  unfold bind at 1. rewrite (subProjectsLoop_success _ _ fs Hsub []).
  unfold bind, lift. rewrite (systemLibsLoop_success _ _ Hsys). reflexivity.
Qed.

(** X11: when the build.gradle of a sub-project is missing while those of
    the sub-projects before it are there, the second half of
    [prepBuildFiles] throws ENOENT for that file and writes nothing. *)
Theorem missing_sub_project_descriptor
    (propertiesObj : properties) (l1 gs : list str) (p : str) (l2 : list str)
    (buildGradle : str) (fs : FS) :
  fs (path_join [root; lit "build.gradle"]) = Some buildGradle ->
  libs propertiesObj = l1 ++ p :: l2 ->
  Forall2 (fun p g => fs (path_join [root; p; lit "build.gradle"]) = Some g) l1 gs ->
  fs (path_join [root; p; lit "build.gradle"]) = None ->
  injectBuildGradle path_join root name propertiesObj fs
  = (fs, inl (ENOENT (path_join [root; p; lit "build.gradle"]))).
Proof.
  intros Hf Hl Hsub Hp.
  unfold injectBuildGradle, bind at 1, readFileSync. rewrite Hf.
  unfold bind at 1. rewrite Hl, (subProjectsLoop_missing _ _ _ _ fs Hsub Hp).
  reflexivity.
Qed.
End DependencyBlock.

(** The layout on a project with one sub-project that uses CordovaLib and
    one support library. *)
Lemma dependency_block_layout_witness :
  let fs := update (lit "proj/build.gradle") (lit "dependencies { }")
              (update (lit "proj/host-lib/build.gradle") (lit "compile CordovaLib")
                 no_files) in
  let props := mkProperties [lit "host-lib"] [] [lit "extras/android/support/v4"] in
  snd (injectBuildGradle slash_join (lit "proj") (lit "host") props fs) = inr tt.
Proof.
  intros fs props.
  rewrite (dependency_block_layout slash_join (lit "proj") (lit "host") props
             [lit "compile CordovaLib"] [lit "com.android.support:support-v4:+"]
             (lit "dependencies { }") fs eq_refl).
  - reflexivity.
  - repeat constructor.
  - repeat constructor.
Defined.

(** The failure on a project whose only sub-project has no build.gradle. *)
Lemma missing_sub_project_descriptor_witness :
  let fs := update (lit "proj/build.gradle") (lit "dependencies { }") no_files in
  let props := mkProperties [lit "CordovaLib"] [] [] in
  injectBuildGradle slash_join (lit "proj") (lit "host") props fs
  = (fs, inl (ENOENT (lit "proj/CordovaLib/build.gradle"))).
Proof.
  intros fs props.
  exact (missing_sub_project_descriptor slash_join (lit "proj") (lit "host") props
           [] [] (lit "CordovaLib") [] (lit "dependencies { }") fs
           eq_refl eq_refl (Forall2_nil _) eq_refl).
Defined.

(** ** Which files prepBuildFiles touches *)

Lemma keeps_ret {A} (q g : str) (a : A) : keeps q g (ret a).
Proof. intros fs H. exact H. Qed.

Lemma keeps_bind {A B} (q g : str) (c : M A) (k : A -> M B) :
  keeps q g c -> (forall a, keeps q g (k a)) -> keeps q g (bind c k).
Proof.
  intros Hc Hk fs H. unfold bind. specialize (Hc fs H).
  destruct (c fs) as [fs1 [e|a]]; simpl in *; [exact Hc|]. now apply Hk.
Qed.

Lemma keeps_forEach {A} (q g : str) (f : A -> M unit) (l : list A) :
  (forall a, keeps q g (f a)) -> keeps q g (forEach f l).
Proof.
  intros Hf. induction l as [|a l IH]; simpl.
  - apply keeps_ret.
  - apply keeps_bind; [apply Hf | intros _; exact IH].
Qed.

Lemma preserves_keeps {A} (q g : str) (c : M A) : preserves q c -> keeps q g c.
Proof. intros H fs Hq. now rewrite H. Qed.

(** [checkAndCopy] never writes over a file. *)
Lemma keeps_checkAndCopy (path_join : list str -> str) (root q g src p : str) :
  keeps q g (checkAndCopy path_join root src p).
Proof.
  intros fs H. unfold checkAndCopy, bind, existsSync, cp_f, ret.
  destruct (fs (path_join [root; p; lit "build.gradle"])) eqn:Ed; [exact H|].
  destruct (fs src); [|exact H]. cbn [fst]. unfold update.
  destruct (str_eqb q (path_join [root; p; lit "build.gradle"])) eqn:Eq; [|exact H].
  apply str_eqb_eq in Eq. subst q. congruence.
Qed.

Lemma deletes_nothing_bind {A B} (c : M A) (k : A -> M B) :
  deletes_nothing c -> (forall a, deletes_nothing (k a)) -> deletes_nothing (bind c k).
Proof.
  intros Hc Hk fs q H. unfold bind. specialize (Hc fs q H).
  destruct (c fs) as [fs1 [e|a]]; simpl in *; [exact Hc|]. now apply Hk.
Qed.

Lemma deletes_nothing_preserving {A} (c : M A) :
  (forall q, preserves q c) -> deletes_nothing c.
Proof. intros H fs q Hq. now rewrite H. Qed.

Lemma deletes_nothing_forEach {A} (f : A -> M unit) (l : list A) :
  (forall a, deletes_nothing (f a)) -> deletes_nothing (forEach f l).
Proof.
  intros Hf. induction l as [|a l IH]; simpl.
  - now intros fs q H.
  - apply deletes_nothing_bind; [apply Hf | intros _; exact IH].
Qed.

Lemma update_not_none (path data q : str) (fs : FS) :
  fs q <> None -> update path data fs q <> None.
Proof. intros H. unfold update. destruct (str_eqb q path); [discriminate | exact H]. Qed.

Lemma forEach_returns {A} (f : A -> M unit) (l : list A) :
  (forall a fs, snd (f a fs) = inr tt) -> forall fs, snd (forEach f l fs) = inr tt.
Proof.
  intros Hf. induction l as [|a l IH]; intros fs; [reflexivity|].
  simpl. unfold bind. specialize (Hf a fs).
  destruct (f a fs) as [fs1 [e|[]]]; simpl in Hf; [discriminate | apply IH].
Qed.

Section PrepBuildFilesFrame.
Variable path_join : list str -> str.
Variable root : str.

Lemma copyLoop_keeps (q g : str) (subProjects : list str) :
  keeps q g (copyLoop path_join root subProjects).
Proof.
  unfold copyLoop. apply keeps_forEach. intros p.
  destruct (negb (str_eqb p (lit "CordovaLib")) && negb (str_eqb p (lit "app")));
    [apply keeps_checkAndCopy | apply keeps_ret].
Qed.

Lemma copyLoop_returns (subProjects : list str) (fs : FS) :
  snd (copyLoop path_join root subProjects fs) = inr tt.
Proof.
  unfold copyLoop. apply forEach_returns. intros p fs0.
  destruct (negb (str_eqb p (lit "CordovaLib")) && negb (str_eqb p (lit "app")));
    [|reflexivity].
  unfold checkAndCopy, bind, existsSync, cp_f, ret.
  destruct (fs0 (path_join [root; p; lit "build.gradle"])); [reflexivity|].
  now destruct
    (fs0 (path_join [root; lit "cordova"; lit "lib"; lit "plugin-build.gradle"])).
Qed.

Lemma copyLoop_deletes_nothing (subProjects : list str) :
  deletes_nothing (copyLoop path_join root subProjects).
Proof.
  unfold copyLoop. apply deletes_nothing_forEach. intros p.
  destruct (negb (str_eqb p (lit "CordovaLib")) && negb (str_eqb p (lit "app")));
    [|now intros fs q H].
  intros fs q H. unfold checkAndCopy, bind, existsSync, cp_f, ret.
  destruct (fs (path_join [root; p; lit "build.gradle"])); [exact H|].
  destruct (fs (path_join [root; lit "cordova"; lit "lib"; lit "plugin-build.gradle"]));
    [now apply update_not_none | exact H].
Qed.

Lemma injectBuildGradle_deletes_nothing (name : str) (propertiesObj : properties) :
  deletes_nothing (injectBuildGradle path_join root name propertiesObj).
Proof.
  intros fs q H.
  destruct (injectBuildGradle_cases path_join root name propertiesObj fs)
    as [[e ->] | (b & d1 & d & _ & _ & _ & ->)]; simpl; [exact H|].
  now apply update_not_none.
Qed.

(** What is left of [prepBuildFiles] once project.properties is read and
    the loop over the sub-projects is through. *)
Lemma prepBuildFiles_after_copy (data : str) (fs : FS) :
  fs (path_join [root; lit "project.properties"]) = Some data ->
  let propertiesObj := parseProperties data in
  exists fs1,
    (forall q g, fs q = Some g -> fs1 q = Some g)
    /\ prepBuildFiles path_join root fs
       = bind (extractRealProjectNameFromManifest path_join root)
              (fun name =>
                 writeSettingsGradle path_join root name (libs propertiesObj) ;;
                 injectBuildGradle path_join root name propertiesObj) fs1.
Proof.
  intros Hd propertiesObj.
  exists (fst (copyLoop path_join root (libs propertiesObj) fs)). split.
  - intros q g Hq. now apply copyLoop_keeps.
  - transitivity
      (bind (copyLoop path_join root (libs propertiesObj))
            (fun _ =>
               bind (extractRealProjectNameFromManifest path_join root)
                    (fun name =>
                       writeSettingsGradle path_join root name (libs propertiesObj) ;;
                       injectBuildGradle path_join root name propertiesObj)) fs).
    + unfold prepBuildFiles, bind at 1, readProjectProperties, bind at 1, readFileSync.
      rewrite Hd. reflexivity.
    + unfold bind at 1.
      pose proof (copyLoop_returns (libs propertiesObj) fs) as Hr.
      destruct (copyLoop path_join root (libs propertiesObj) fs) as [fs1 [e|[]]];
        simpl in Hr; [discriminate|]. reflexivity.
Qed.

(** X12: [prepBuildFiles] deletes no file, and a file that exists when it
    starts keeps its content unless it is settings.gradle or build.gradle of
    the project: the build.gradle of a sub-project is never written over. *)
Theorem prepBuildFiles_frame (fs : FS) (q : str) :
  let fs' := fst (prepBuildFiles path_join root fs) in
  (fs q <> None -> fs' q <> None)
  /\ (forall g,
         fs q = Some g ->
         q <> path_join [root; lit "settings.gradle"] ->
         q <> path_join [root; lit "build.gradle"] ->
         fs' q = Some g).
Proof.
  intros fs'. split.
  - revert fs q fs'. change (deletes_nothing (prepBuildFiles path_join root)).
    unfold prepBuildFiles. apply deletes_nothing_bind.
    { apply deletes_nothing_preserving. intros q. unfold readProjectProperties.
      apply preserves_bind; [apply preserves_readFileSync | intros d; apply preserves_ret]. }
    intros propertiesObj. apply deletes_nothing_bind; [apply (copyLoop_deletes_nothing (libs propertiesObj))|].
    intros _. apply deletes_nothing_bind.
    { apply deletes_nothing_preserving. intros q.
      unfold extractRealProjectNameFromManifest.
      apply preserves_bind; [apply preserves_readFileSync|]. intros m.
      destruct (exec_manifest m); [apply preserves_ret | apply preserves_throw]. }
    intros name. apply deletes_nothing_bind.
    { intros fs q H. simpl. now apply update_not_none. }
    intros _. apply injectBuildGradle_deletes_nothing.
  - intros g Hq Hs Hb. revert fs fs' Hq.
    change (keeps q g (prepBuildFiles path_join root)).
    unfold prepBuildFiles. apply keeps_bind.
    { apply preserves_keeps. unfold readProjectProperties.
      apply preserves_bind; [apply preserves_readFileSync | intros d; apply preserves_ret]. }
    intros propertiesObj. apply keeps_bind; [apply (copyLoop_keeps q g (libs propertiesObj))|].
    intros _. apply keeps_bind.
    { apply preserves_keeps. unfold extractRealProjectNameFromManifest.
      apply preserves_bind; [apply preserves_readFileSync|]. intros m.
      destruct (exec_manifest m); [apply preserves_ret | apply preserves_throw]. }
    intros name. apply keeps_bind.
    { apply preserves_keeps. now apply preserves_writeFileSync. }
    intros _. apply preserves_keeps. now apply preserves_injectBuildGradle.
Qed.

(** X13: once project.properties is read and the manifest yields a package
    name, settings.gradle holds the generated manifest when [prepBuildFiles]
    ends, also when the injection into build.gradle throws afterwards: the
    two files are not written together. *)
Theorem settings_written_before_injection (data manifestData packageName : str) (fs : FS) :
  let settings := path_join [root; lit "settings.gradle"] in
  fs (path_join [root; lit "project.properties"]) = Some data ->
  fs (path_join [root; lit "AndroidManifest.xml"]) = Some manifestData ->
  exec_manifest manifestData = Some packageName ->
  settings <> path_join [root; lit "build.gradle"] ->
  fst (prepBuildFiles path_join root fs) settings
  = Some (settingsGradle (lastSegment packageName) (libs (parseProperties data))).
Proof.
  intros settings Hd Hm He Hne.
  destruct (prepBuildFiles_after_copy data fs Hd) as (fs1 & Hkeep & ->).
  unfold bind at 1, extractRealProjectNameFromManifest, bind at 1, readFileSync.
  rewrite (Hkeep _ _ Hm), He. unfold ret.
  unfold bind, writeSettingsGradle, writeFileSync. fold settings.
  rewrite (preserves_injectBuildGradle path_join root settings Hne).
  apply update_same.
Qed.

End PrepBuildFilesFrame.

(** The theorem on a project without build.gradle: the injection throws,
    settings.gradle is there. *)
Lemma settings_written_before_injection_witness :
  let manifest := lit "<manifest package=" ++ [dq] ++ lit "com.example.app" ++ [dq]
                  ++ lit ">" in
  let fs := update (lit "proj/AndroidManifest.xml") manifest
              (update (lit "proj/project.properties")
                 (lit "android.library.reference.1=CordovaLib") no_files) in
  snd (prepBuildFiles slash_join (lit "proj") fs) = inl (ENOENT (lit "proj/build.gradle"))
  /\ fst (prepBuildFiles slash_join (lit "proj") fs) (lit "proj/settings.gradle")
     = Some (settingsGradle (lit "app") [lit "CordovaLib"]).
Proof.
  intros manifest fs. split; [reflexivity|].
  refine (settings_written_before_injection slash_join (lit "proj")
            (lit "android.library.reference.1=CordovaLib") manifest
            (lit "com.example.app") fs eq_refl eq_refl eq_refl _).
  vm_compute. discriminate.
Defined.

(* ================================================================== *)
(** * More on the signing properties *)

Lemma removeIfAutoGenerated_post (file : str) (fs : FS) :
  let fs1 := fst (removeIfAutoGenerated file fs) in
  snd (removeIfAutoGenerated file fs) = inr tt
  /\ isAutoGenerated file fs1 = false
  /\ forall q, isAutoGenerated q fs = false -> isAutoGenerated q fs1 = false.
Proof.
  unfold removeIfAutoGenerated.
  destruct (isAutoGenerated file fs) eqn:E; simpl.
  - split; [reflexivity|]. split.
    + apply isAutoGenerated_absent. unfold remove. now rewrite str_eqb_refl.
    + intros q Hq. unfold isAutoGenerated, remove in *.
      destruct (str_eqb q file); [reflexivity | exact Hq].
  - split; [reflexivity|]. split; [exact E | now intros q Hq].
Qed.

Lemma removeIfAutoGenerated_noop (file : str) (fs : FS) :
  isAutoGenerated file fs = false -> removeIfAutoGenerated file fs = (fs, inr tt).
Proof. intros H. unfold removeIfAutoGenerated. now rewrite H. Qed.

Lemma cleanSigningProperties_run (path_join : list str -> str) (root : str) (fs : FS) :
  cleanSigningProperties path_join root fs
  = (fst (removeIfAutoGenerated (path_join [root; lit "release" ++ SIGNING_PROPERTIES])
            (fst (removeIfAutoGenerated
                    (path_join [root; lit "debug" ++ SIGNING_PROPERTIES]) fs))),
     inr tt).
Proof.
  unfold cleanSigningProperties, forEach, bind.
  fold (removeIfAutoGenerated (path_join [root; lit "debug" ++ SIGNING_PROPERTIES]) fs).
  destruct (removeIfAutoGenerated_post
              (path_join [root; lit "debug" ++ SIGNING_PROPERTIES]) fs) as (H1 & _).
  destruct (removeIfAutoGenerated (path_join [root; lit "debug" ++ SIGNING_PROPERTIES]) fs)
    as [fs1 [e|[]]]; simpl in H1; [discriminate|]. cbn [fst].
  fold (removeIfAutoGenerated (path_join [root; lit "release" ++ SIGNING_PROPERTIES]) fs1).
  destruct (removeIfAutoGenerated_post
              (path_join [root; lit "release" ++ SIGNING_PROPERTIES]) fs1) as (H2 & _).
  destruct (removeIfAutoGenerated (path_join [root; lit "release" ++ SIGNING_PROPERTIES]) fs1)
    as [fs2 [e|[]]]; simpl in H2; [discriminate|]. reflexivity.
Qed.

Lemma cleanSigningProperties_post (path_join : list str -> str) (root : str) (fs : FS) :
  let fs' := fst (cleanSigningProperties path_join root fs) in
  isAutoGenerated (path_join [root; lit "debug" ++ SIGNING_PROPERTIES]) fs' = false
  /\ isAutoGenerated (path_join [root; lit "release" ++ SIGNING_PROPERTIES]) fs' = false.
Proof.
  rewrite cleanSigningProperties_run. cbn [fst].
  destruct (removeIfAutoGenerated_post
              (path_join [root; lit "debug" ++ SIGNING_PROPERTIES]) fs) as (_ & Hd & _).
  destruct (removeIfAutoGenerated_post
              (path_join [root; lit "release" ++ SIGNING_PROPERTIES])
              (fst (removeIfAutoGenerated
                      (path_join [root; lit "debug" ++ SIGNING_PROPERTIES]) fs)))
    as (_ & Hr & Hother).
  split; [now apply Hother | exact Hr].
Qed.

(** X15: the loop of [clean] over the signing properties never throws;
    after it neither [debug-signing.properties] nor
    [release-signing.properties] is auto-generated, and running it again
    changes nothing. *)
Theorem clean_signing_properties_settles
    (path_join : list str -> str) (root : str) (fs : FS) :
  let debug := path_join [root; lit "debug" ++ SIGNING_PROPERTIES] in
  let release := path_join [root; lit "release" ++ SIGNING_PROPERTIES] in
  let fs' := fst (cleanSigningProperties path_join root fs) in
  snd (cleanSigningProperties path_join root fs) = inr tt
  /\ isAutoGenerated debug fs' = false
  /\ isAutoGenerated release fs' = false
  /\ cleanSigningProperties path_join root fs' = (fs', inr tt).
Proof.
  intros debug release fs'.
  destruct (cleanSigningProperties_post path_join root fs) as [Hd Hr].
  fold debug release fs' in Hd, Hr.
  split; [now rewrite cleanSigningProperties_run|].
  split; [exact Hd|]. split; [exact Hr|].
  rewrite (cleanSigningProperties_run path_join root fs'). fold debug release.
  rewrite (removeIfAutoGenerated_noop debug fs' Hd). cbn [fst].
  now rewrite (removeIfAutoGenerated_noop release fs' Hr).
Qed.

(** X16: the signing properties that [prepEnv] writes for the build type
    [debug] or [release] are gone after the loop of [clean]; those written
    for another build type, at another path, are still there. *)
Theorem written_signing_properties_cleaned
    (path_join : list str -> str) (root config : str) (a : option str)
    (extra : list str) (payload : str) (fs : FS) :
  let opts := mkOptions config a extra (Some payload) in
  let file := path_join [root; config ++ SIGNING_PROPERTIES] in
  let written := fst (prepSigningProperties path_join root opts fs) in
  let cleaned := fst (cleanSigningProperties path_join root written) in
  (config = lit "debug" \/ config = lit "release" -> cleaned file = None)
  /\ (file <> path_join [root; lit "debug" ++ SIGNING_PROPERTIES] ->
      file <> path_join [root; lit "release" ++ SIGNING_PROPERTIES] ->
      cleaned file = Some (TEMPLATE ++ payload)).
Proof.
  intros opts file written cleaned.
  assert (Hw : written file = Some (TEMPLATE ++ payload)).
  { unfold written, prepSigningProperties, writeFileSync. cbn [packageInfo opts buildType fst].
    apply update_same. }
  assert (Hauto : isAutoGenerated file written = true).
  { apply isAutoGenerated_indexOf. exists (TEMPLATE ++ payload), 68. split; [exact Hw|].
    apply indexOf_app; [exact MARKER_nonempty | exact indexOf_MARKER_TEMPLATE]. }
  split.
  - intros Hc.
    destruct (spares_cleanSigningProperties path_join root file written)
      as [Hsame | [_ Hnone]]; [|exact Hnone].
    exfalso. fold cleaned in Hsame.
    destruct (cleanSigningProperties_post path_join root written) as [Hd Hr].
    fold cleaned in Hd, Hr.
    assert (Hfalse : isAutoGenerated file cleaned = false).
    { unfold file. destruct Hc as [-> | ->]; assumption. }
    rewrite (isAutoGenerated_ext file written cleaned Hsame) in Hfalse. congruence.
  - intros Hd Hr. unfold cleaned. rewrite cleanSigningProperties_run. cbn [fst].
    rewrite <- Hw. unfold removeIfAutoGenerated, rm_f, remove.
    repeat match goal with
           | |- context [if isAutoGenerated ?f ?s then _ else _] =>
               destruct (isAutoGenerated f s); cbn [fst]
           end;
      repeat (match goal with
              | |- context [str_eqb file ?x] =>
                  let E := fresh in
                  destruct (str_eqb file x) eqn:E;
                  [apply str_eqb_eq in E; congruence|]
              end); reflexivity.
Qed.

(** The theorem on the build type [release]. *)
Lemma written_signing_properties_cleaned_witness :
  let opts := mkOptions (lit "release") None [] (Some (lit "storePassword=x")) in
  let written := fst (prepSigningProperties slash_join (lit "proj") opts no_files) in
  fst (cleanSigningProperties slash_join (lit "proj") written)
      (lit "proj/release-signing.properties") = None.
Proof.
  intros opts written.
  exact (proj1 (written_signing_properties_cleaned slash_join (lit "proj")
                  (lit "release") None [] (lit "storePassword=x") no_files)
           (or_intror eq_refl)).
Defined.

(* ================================================================== *)
(** * The dummy build files of [prepBuildFiles] *)

Lemma copyLoop_cons (path_join : list str -> str) (root p : str) (l : list str) (fs : FS) :
  copyLoop path_join root (p :: l) fs
  = copyLoop path_join root l
      (fst ((if negb (str_eqb p (lit "CordovaLib")) && negb (str_eqb p (lit "app"))
             then checkAndCopy path_join root
                    (path_join [root; lit "cordova"; lit "lib"; lit "plugin-build.gradle"]) p
             else ret tt) fs)).
Proof.
  unfold copyLoop. cbn [forEach]. unfold bind.
  destruct (negb (str_eqb p (lit "CordovaLib")) && negb (str_eqb p (lit "app")));
    [|reflexivity].
  unfold checkAndCopy, bind, existsSync, cp_f, ret.
  destruct (fs (path_join [root; p; lit "build.gradle"])); [reflexivity|].
  now destruct (fs (path_join [root; lit "cordova"; lit "lib"; lit "plugin-build.gradle"])).
Qed.

Lemma checkAndCopy_step (path_join : list str -> str) (root src p q t : str) (fs : FS) :
  fs src = Some t -> fs q = None ->
  let fs1 := fst (checkAndCopy path_join root src p fs) in
  fs1 src = Some t
  /\ (fs1 q = None \/ fs1 q = Some t)
  /\ (q = path_join [root; p; lit "build.gradle"] -> fs1 q = Some t).
Proof.
  intros Hsrc Hq fs1. split; [now apply keeps_checkAndCopy|].
  unfold fs1, checkAndCopy, bind, existsSync, cp_f, ret.
  destruct (fs (path_join [root; p; lit "build.gradle"])) eqn:Ed; cbn [fst].
  - split; [now left | intros ->; congruence].
  - rewrite Hsrc. cbn [fst]. unfold update.
    destruct (str_eqb q (path_join [root; p; lit "build.gradle"])) eqn:E.
    + split; [now right | reflexivity].
    + split; [now left|]. intros ->. now rewrite str_eqb_refl in E.
Qed.

Lemma copyLoop_copies (path_join : list str -> str) (root p t : str) (l : list str) :
  p <> lit "CordovaLib" -> p <> lit "app" -> In p l ->
  forall fs,
    fs (path_join [root; lit "cordova"; lit "lib"; lit "plugin-build.gradle"]) = Some t ->
    fs (path_join [root; p; lit "build.gradle"]) = None ->
    fst (copyLoop path_join root l fs) (path_join [root; p; lit "build.gradle"]) = Some t.
Proof.
  intros Hc Ha. induction l as [|a l IH]; intros Hin fs Hsrc Hq; [destruct Hin|].
  rewrite copyLoop_cons.
  destruct (list_eq_dec ascii_dec a p) as [-> | Hne].
  - apply str_eqb_neq in Hc, Ha. rewrite Hc, Ha. cbn [negb andb].
    apply copyLoop_keeps.
    now apply (checkAndCopy_step path_join root _ p _ t fs Hsrc Hq).
  - assert (Hin' : In p l) by (destruct Hin; [congruence | assumption]).
    destruct (negb (str_eqb a (lit "CordovaLib")) && negb (str_eqb a (lit "app"))).
    + destruct (checkAndCopy_step path_join root _ a _ t fs Hsrc Hq)
        as (Hsrc1 & [Hq1 | Hq1] & _).
      * now apply IH.
      * now apply copyLoop_keeps.
    + now apply IH.
Qed.

(** X17: let the dummy build file [cordova/lib/plugin-build.gradle] exist,
    and take a sub-project other than [CordovaLib] and [app] whose
    directory exists.  After the copy loop of [prepBuildFiles] it has a
    [build.gradle]: its own when it had one, the dummy otherwise.  The loop
    never throws. *)
Theorem sub_projects_get_build_file
    (path_join : list str -> str) (root p t : str) (subProjects : list str) (fs : FS) :
  fs (path_join [root; lit "cordova"; lit "lib"; lit "plugin-build.gradle"]) = Some t ->
  In p subProjects -> p <> lit "CordovaLib" -> p <> lit "app" ->
  subProjectDir_exists path_join root p fs ->
  let file := path_join [root; p; lit "build.gradle"] in
  let run := copyLoop path_join root subProjects fs in
  snd run = inr tt
  /\ fst run file = Some (match fs file with Some own => own | None => t end).
Proof.
  intros Hsrc Hin Hc Ha _ file run. split; [apply copyLoop_returns|].
  destruct (fs file) as [own|] eqn:E.
  - now apply copyLoop_keeps.
  - now apply copyLoop_copies.
Qed.

(** The theorem on two plugins, the first with a manifest only, the second
    with a build file of its own. *)
Lemma sub_projects_get_build_file_witness :
  let fs := update (lit "proj/cordova/lib/plugin-build.gradle") (lit "// dummy")
              (update (lit "proj/a/AndroidManifest.xml") (lit "<manifest/>")
                 (update (lit "proj/b/build.gradle") (lit "// own") no_files)) in
  let run := copyLoop slash_join (lit "proj") [lit "CordovaLib"; lit "a"; lit "b"] fs in
  fst run (lit "proj/a/build.gradle") = Some (lit "// dummy")
  /\ fst run (lit "proj/b/build.gradle") = Some (lit "// own").
Proof.
  intros fs run. split.
  - refine (proj2 (sub_projects_get_build_file slash_join (lit "proj") (lit "a")
                     (lit "// dummy") [lit "CordovaLib"; lit "a"; lit "b"] fs
                     eq_refl _ _ _ _)).
    + right. left. reflexivity.
    + discriminate.
    + discriminate.
    + exists (lit "AndroidManifest.xml"). split; [reflexivity|]. vm_compute. discriminate.
  - refine (proj2 (sub_projects_get_build_file slash_join (lit "proj") (lit "b")
                     (lit "// dummy") [lit "CordovaLib"; lit "a"; lit "b"] fs
                     eq_refl _ _ _ _)).
    + right. right. left. reflexivity.
    + discriminate.
    + discriminate.
    + exists (lit "build.gradle"). split; [reflexivity|]. vm_compute. discriminate.
Defined.

(* ================================================================== *)
(** * getArgs, build, clean and prepEnv *)

(** X18: the task name of [getArgs] is normalised once and for all:
    calling [getArgs] with the task it returned gives the same list.  The
    list holds the task, [-b] and the build file, the architecture flag
    exactly when [opts.arch] is a non-empty string, three fixed flags and
    then the extra arguments, which are its tail. *)
Theorem getArgs_layout (path_join : list str -> str) (root cmd : str) (opts : options) :
  let args := getArgs path_join root cmd opts in
  let flag := match arch opts with Some (c :: a) => 1 | _ => 0 end in
  getArgs path_join root (nth 0 args []) opts = args
  /\ firstn 3 args = [nth 0 args []; lit "-b"; path_join [root; lit "build.gradle"]]
  /\ length args = 6 + flag + length (extraArgs opts)
  /\ skipn (6 + flag) args = extraArgs opts
  /\ (forall a, arch opts = Some a -> a <> [] ->
      nth 3 args [] = lit "-PcdvBuildArch=" ++ a)
  /\ getArgs path_join root cmd
       (mkOptions (buildType opts) (Some []) (extraArgs opts) (packageInfo opts))
     = getArgs path_join root cmd
         (mkOptions (buildType opts) None (extraArgs opts) (packageInfo opts)).
Proof.
  intros args flag. split.
  { unfold args, getArgs. cbn [nth app].
    destruct (str_eqb cmd (lit "release")) eqn:E1; [reflexivity|].
    destruct (str_eqb cmd (lit "debug")) eqn:E2; [reflexivity|].
    now rewrite E1, E2. }
  split; [reflexivity|].
  unfold args, flag, getArgs.
  destruct (arch opts) as [[|c a]|]; cbn [app length skipn Nat.add nth];
    (split; [reflexivity|]); (split; [reflexivity|]);
    (split; [|reflexivity]); intros a' [= <-] Hne; congruence.
Qed.

(** X19: [build] succeeds exactly when the gradle wrapper does, and then
    with its result.  A failure whose text lacks
    [failed to find target with hash string] is passed on as it is; one
    whose text has it is passed on after [check_android_target], also when
    that check succeeds, unless the check fails with an error of its own. *)
Theorem build_passes_gradle_failure_on
    (path_join : list str -> str) (root : str) (spawn : str -> list str -> M unit)
    (error_toString : exn -> str) (check_android_target : exn -> M unit)
    (opts : options) (fs : FS) :
  let task := if str_eqb (buildType opts) (lit "debug")
              then lit "debug" else lit "release" in
  let run := spawn (path_join [root; lit "gradlew"]) (getArgs path_join root task opts) fs in
  let result := build path_join root spawn error_toString check_android_target opts fs in
  (snd result = inr tt <-> snd run = inr tt)
  /\ (snd run = inr tt -> result = run)
  /\ (forall e, snd run = inl e ->
      indexOf TARGET_NOT_FOUND (error_toString e) = None -> result = run)
  /\ (forall e, snd run = inl e ->
      indexOf TARGET_NOT_FOUND (error_toString e) <> None ->
      let check := check_android_target e (fst run) in
      fst result = fst check
      /\ snd result = match snd check with inr _ => inl e | inl e' => inl e' end).
Proof.
  intros task run result.
  assert (Hfail : forall e, snd run = inl e -> snd result <> inr tt).
  { intros e He. unfold result, build, catch. fold task. fold run.
    destruct run as [fs1 [e1|[]]]; simpl in He; [|discriminate].
    injection He as ->.
    destruct (indexOf TARGET_NOT_FOUND (error_toString e)); [|discriminate].
    unfold bind, throw. now destruct (check_android_target e fs1) as [fs2 [e2|[]]]. }
  assert (Hok : snd run = inr tt -> result = run).
  { intros H. unfold result, build, catch. fold task. fold run.
    destruct run as [fs1 [e1|[]]]; simpl in H; [discriminate | reflexivity]. }
  split.
  { split.
    - intros H. destruct (snd run) as [e|[]] eqn:E; [|reflexivity].
      now destruct (Hfail e eq_refl).
    - intros H. now rewrite (Hok H). }
  split; [exact Hok|]. split.
  - intros e He Hi. unfold result, build, catch. fold task. fold run.
    destruct run as [fs1 [e1|[]]]; simpl in He; [|discriminate].
    injection He as ->. now rewrite Hi.
  - intros e He Hi check. unfold result, build, catch. fold task.
    unfold check. fold run. clear check.
    destruct run as [fs1 [e1|[]]]; simpl in He; [|discriminate].
    injection He as ->. cbn [fst].
    destruct (indexOf TARGET_NOT_FOUND (error_toString e)); [|congruence].
    unfold bind, throw. now destruct (check_android_target e fs1) as [fs2 [e2|[]]].
Qed.

Lemma cleanSigningProperties_only_deletes
    (path_join : list str -> str) (root q d : str) (fs : FS) :
  fst (cleanSigningProperties path_join root fs) q = Some d -> fs q = Some d.
Proof.
  intros H. destruct (spares_cleanSigningProperties path_join root q fs) as [E | [_ E]];
    congruence.
Qed.

(** X20: when the gradle wrapper fails, [clean] fails with it and removes
    nothing.  When it succeeds, [clean] succeeds; afterwards the directory
    [out] and all below it are gone, neither signing properties file is
    auto-generated, and every file still there has the content the wrapper
    left. *)
Theorem clean_outcome
    (path_join : list str -> str) (root : str) (spawn : str -> list str -> M unit)
    (below : str -> str -> bool) (opts : options) (fs : FS) :
  let run := spawn (path_join [root; lit "gradlew"])
               (getArgs path_join root (lit "clean") opts) fs in
  let result := clean path_join root spawn below opts fs in
  let out := path_join [root; lit "out"] in
  (forall e, snd run = inl e -> result = run)
  /\ (snd run = inr tt ->
      snd result = inr tt
      /\ fst result out = None
      /\ (forall q, below out q = true -> fst result q = None)
      /\ isAutoGenerated (path_join [root; lit "debug" ++ SIGNING_PROPERTIES]) (fst result)
         = false
      /\ isAutoGenerated (path_join [root; lit "release" ++ SIGNING_PROPERTIES]) (fst result)
         = false
      /\ (forall q d, fst result q = Some d -> fst run q = Some d)).
Proof.
  intros run result out. split.
  - intros e He. unfold result, clean, bind. fold run.
    destruct run as [fs1 [e1|[]]]; simpl in He; [reflexivity | discriminate].
  - intros Hrun.
    assert (E : result
                = cleanSigningProperties path_join root (fst (rm_rf below out (fst run)))).
    { unfold result, clean, bind. fold run. fold out.
      destruct run as [fs1 [e1|[]]]; simpl in Hrun; [discriminate | reflexivity]. }
    rewrite E. set (fs2 := fst (rm_rf below out (fst run))).
    assert (Hgone : forall q, q = out \/ below out q = true -> fs2 q = None).
    { intros q Hq. unfold fs2, rm_rf. cbn [fst].
      destruct Hq as [-> | Hq]; [now rewrite str_eqb_refl | rewrite Hq].
      now rewrite orb_true_r. }
    assert (Hsub : forall q d, fs2 q = Some d -> fst run q = Some d).
    { intros q d. unfold fs2, rm_rf. cbn [fst].
      destruct (str_eqb q out || below out q); [discriminate | trivial]. }
    assert (Hstay : forall q, fs2 q = None ->
              fst (cleanSigningProperties path_join root fs2) q = None).
    { intros q Hq.
      destruct (spares_cleanSigningProperties path_join root q fs2) as [H | [_ H]];
        congruence. }
    destruct (cleanSigningProperties_post path_join root fs2) as [Hd Hr].
    split; [now rewrite cleanSigningProperties_run|].
    split; [apply Hstay, Hgone; now left|].
    split; [intros q Hq; apply Hstay, Hgone; now right|].
    split; [exact Hd|]. split; [exact Hr|].
    intros q d H. now apply Hsub, (cleanSigningProperties_only_deletes path_join root).
Qed.

(** X21: let [check_gradle] succeed and the wrapper [gradlew] exist.  Then
    [prepEnv] spawns nothing: it is [prepBuildFiles], the rewriting of the
    wrapper properties and the step on the signing properties.  A failure
    of [prepBuildFiles] is the failure of [prepEnv], and neither later step
    runs; after its success [prepEnv] succeeds, a credentials payload is in
    the signing properties under the header, and the wrapper properties,
    if they exist at another path, have been rewritten. *)
Theorem prepEnv_with_wrapper
    (path_join : list str -> str) (root : str) (spawn : str -> list str -> M unit)
    (check_gradle : M str) (sed_distributionUrl : str -> str)
    (opts : options) (fs fs1 : FS) (gradlePath : str) :
  check_gradle fs = (fs1, inr gradlePath) ->
  fs1 (path_join [root; lit "gradlew"]) <> None ->
  let wrapperProperties :=
    path_join [root; lit "gradle"; lit "wrapper"; lit "gradle-wrapper.properties"] in
  let signing := path_join [root; buildType opts ++ SIGNING_PROPERTIES] in
  let result := prepEnv path_join root spawn check_gradle sed_distributionUrl opts fs in
  result = (prepBuildFiles path_join root ;;
            sed_i sed_distributionUrl wrapperProperties ;;
            prepSigningProperties path_join root opts) fs1
  /\ (forall fs2 e, prepBuildFiles path_join root fs1 = (fs2, inl e) ->
      result = (fs2, inl e))
  /\ (forall fs2, prepBuildFiles path_join root fs1 = (fs2, inr tt) ->
      snd result = inr tt
      /\ (forall payload, packageInfo opts = Some payload ->
          fst result signing = Some (TEMPLATE ++ payload))
      /\ (wrapperProperties <> signing ->
          fst result wrapperProperties
          = match fs2 wrapperProperties with
            | Some data => Some (sed_distributionUrl data)
            | None => None
            end)).
Proof.
  intros Hcheck Hwrapper wrapperProperties signing result.
  assert (E : result = (prepBuildFiles path_join root ;;
                        sed_i sed_distributionUrl wrapperProperties ;;
                        prepSigningProperties path_join root opts) fs1).
  { unfold result, prepEnv. unfold bind at 1. rewrite Hcheck.
    unfold bind at 1. unfold runGradleWrapper. unfold bind at 1. unfold existsSync.
    destruct (fs1 (path_join [root; lit "gradlew"])); [reflexivity | congruence]. }
  split; [exact E|]. split.
  - intros fs2 e H. rewrite E. unfold bind at 1. now rewrite H.
  - intros fs2 H.
    set (fs3 := match fs2 wrapperProperties with
                | Some data => update wrapperProperties (sed_distributionUrl data) fs2
                | None => fs2
                end).
    assert (E3 : result = prepSigningProperties path_join root opts fs3).
    { rewrite E. unfold bind at 1. rewrite H. unfold bind, sed_i, fs3.
      now destruct (fs2 wrapperProperties). }
    assert (H3 : fs3 wrapperProperties
                 = match fs2 wrapperProperties with
                   | Some data => Some (sed_distributionUrl data)
                   | None => None
                   end).
    { unfold fs3. destruct (fs2 wrapperProperties) eqn:Ew; [apply update_same | exact Ew]. }
    rewrite E3. unfold prepSigningProperties. fold signing.
    destruct (packageInfo opts) as [payload|].
    + cbn [writeFileSync fst snd]. split; [reflexivity|]. split.
      * intros p [= <-]. apply update_same.
      * intros Hne. rewrite update_other; [exact H3 | exact Hne].
    + split; [now destruct (isAutoGenerated signing fs3)|].
      split; [discriminate|]. intros Hne.
      destruct (isAutoGenerated signing fs3); cbn [rm_f fst]; [|exact H3].
      unfold remove. apply str_eqb_neq in Hne. now rewrite Hne.
Qed.

(** The theorem on a project without [project.properties]: [prepEnv]
    stops there. *)
Lemma prepEnv_with_wrapper_witness :
  let fs := update (lit "proj/gradlew") (lit "#!/bin/sh") no_files in
  prepEnv slash_join (lit "proj") (fun _ _ => throw (CordovaError (lit "spawn")))
    (ret (lit "gradle")) (fun data => data)
    (mkOptions (lit "debug") None [] (Some (lit "storePassword=x"))) fs
  = (fs, inl (ENOENT (lit "proj/project.properties"))).
Proof.
  intros fs.
  refine (proj1 (proj2 (prepEnv_with_wrapper slash_join (lit "proj")
                          (fun _ _ => throw (CordovaError (lit "spawn")))
                          (ret (lit "gradle")) (fun data => data)
                          (mkOptions (lit "debug") None [] (Some (lit "storePassword=x")))
                          fs fs (lit "gradle") eq_refl _))
            fs (ENOENT (lit "proj/project.properties")) eq_refl).
  discriminate.
Defined.

(* ================================================================== *)
(** * The theorems above on concrete projects *)

(** [readProjectProperties] in an empty directory. *)
Lemma readProjectProperties_values_witness :
  snd (readProjectProperties slash_join (lit "proj") no_files)
  = inl (ENOENT (lit "proj/project.properties")).
Proof.
  exact (proj1 (proj2 (readProjectProperties_values slash_join (lit "proj") no_files))
           eq_refl).
Defined.

(** A manifest without the element [manifest]. *)
Lemma manifest_name_errors_witness :
  let fs := update (lit "proj/AndroidManifest.xml") (lit "<application/>") no_files in
  snd (extractRealProjectNameFromManifest slash_join (lit "proj") fs)
  = inl (CordovaError (lit "Could not find package name in proj/AndroidManifest.xml")).
Proof.
  intros fs.
  refine (proj1 (proj2 (proj2 (manifest_name_errors slash_join (lit "proj") fs)))
            (lit "<application/>") eq_refl _).
  apply occ_ci_decide. reflexivity.
Defined.

(** A plugin with a build file of its own, in a project that
    [prepBuildFiles] goes through to the end. *)
Lemma prepBuildFiles_frame_witness :
  let manifest := lit "<manifest package=" ++ [dq] ++ lit "com.example.app" ++ [dq]
                  ++ lit ">" in
  let fs := update (lit "proj/a/build.gradle") (lit "// own")
              (update (lit "proj/cordova/lib/plugin-build.gradle") (lit "// dummy")
                 (update (lit "proj/build.gradle") (lit "dependencies { }")
                    (update (lit "proj/AndroidManifest.xml") manifest
                       (update (lit "proj/project.properties")
                          (lit "android.library.reference.1=a") no_files)))) in
  snd (prepBuildFiles slash_join (lit "proj") fs) = inr tt
  /\ fst (prepBuildFiles slash_join (lit "proj") fs) (lit "proj/a/build.gradle")
     = Some (lit "// own").
Proof.
  intros manifest fs. split; [reflexivity|].
  refine (proj2 (prepBuildFiles_frame slash_join (lit "proj") fs (lit "proj/a/build.gradle"))
            (lit "// own") eq_refl _ _); vm_compute; discriminate.
Defined.


(** A gradle failure about a missing target, with a check that succeeds:
    [build] still fails with the error of gradle. *)
Lemma build_passes_gradle_failure_on_witness :
  let e := CordovaError (lit "failed to find target with hash string 'android-28'") in
  snd (build slash_join (lit "proj") (fun _ _ => throw e)
         (fun error => match error with CordovaError m => m | ENOENT p => p end)
         (fun _ => ret tt)
         (mkOptions (lit "debug") None [] None) no_files)
  = inl e.
Proof.
  intros e.
  refine (proj2 (proj2 (proj2 (proj2
            (build_passes_gradle_failure_on slash_join (lit "proj") (fun _ _ => throw e)
               (fun error => match error with CordovaError m => m | ENOENT p => p end)
               (fun _ => ret tt)
               (mkOptions (lit "debug") None [] None) no_files))) e eq_refl _)).
  vm_compute. discriminate.
Defined.

(** A build output below [out]: gone after [clean]. *)
Lemma clean_outcome_witness :
  let fs := update (lit "proj/out/app.apk") (lit "apk") no_files in
  fst (clean slash_join (lit "proj") (fun _ _ => ret tt)
         (fun dir q => startsWith (dir ++ lit "/") q)
         (mkOptions (lit "debug") None [] None) fs) (lit "proj/out/app.apk")
  = None.
Proof.
  intros fs.
  destruct (proj2 (clean_outcome slash_join (lit "proj") (fun _ _ => ret tt)
                     (fun dir q => startsWith (dir ++ lit "/") q)
                     (mkOptions (lit "debug") None [] None) fs) eq_refl)
    as (_ & _ & Hbelow & _).
  apply Hbelow. reflexivity.
Defined.
